(** * A shallow embedding of the bitcoin-ts authentication virtual machine

  The development follows the TypeScript sources file by file:
  - [Js]                 the JavaScript number, array and typed-array
                         primitives the sources use,
  - [Utils]              lib/utils.ts (little-endian and VarInt codecs),
  - [Common]             instruction-sets/common/common.ts (Script Numbers,
                         truthiness, [cloneStack]),
  - [ScriptNumberSpec]   the Script Number parser in the words of the
                         specification,
  - [State]              auth/state.ts and the error kinds,
  - [BitcoinCashOpCodes] the opcode numbers,
  - [Push], [Operators]  push.ts, bitwise.ts, flow-control.ts, stack.ts and
                         crypto.ts,
  - [VirtualMachine]     the runtime ([stepMutate], [evaluate], [debug]),
  - [BitcoinCash]        the Bitcoin Cash instruction set and the program
                         composer,
  - [SimpleVm]           the instruction set of the runtime's test,
  - [Heap]               objects and references, for what [clone] shares,
  - [PushOnlySpec], [Samples]
                         the push-only rule in the words of the
                         specification, and sample inputs.
  The properties come after the definitions.

  Bytes are integers in [0, 256); a [Uint8Array] value is the list of
  its bytes.  BigInt values are [Z].  A thrown exception is [None]. *)

From Equations Require Import Equations.
From stdpp Require Import base option list gmap strings pretty.
From Stdlib Require Import ZArith Lia Bool.

Local Open Scope Z_scope.

(* ===================================================================== *)
(** * JavaScript primitives *)
(* ===================================================================== *)

Module Js.

(** The contents of a [Uint8Array]. *)
Definition Uint8Array := list Z.

Definition is_byte (b : Z) : Prop := 0 <= b < 256.

(** A well-formed [Uint8Array] holds bytes only. *)
Definition bytes_ok (a : Uint8Array) : Prop := Forall is_byte a.

(** [a[i]]: [undefined] (here [None]) outside of the array. *)
Definition index {A} (a : list A) (i : Z) : option A :=
  if i <? 0 then None else a !! Z.to_nat i.

(** [a.length] as a number. *)
Definition len {A} (a : list A) : Z := Z.of_nat (length a).

(** ToInt32: wrap an integer into the signed 32-bit range. *)
Definition ToInt32 (z : Z) : Z := (z + 2 ^ 31) mod 2 ^ 32 - 2 ^ 31.

(** ToInt32 of a possibly [undefined] number ([undefined] becomes NaN,
    which ToInt32 maps to 0). *)
Definition ToInt32_value (v : option Z) : Z :=
  match v with
  | Some n => ToInt32 n
  | None => 0
  end.

(** The 32-bit operators [&], [|], [~] and [<<] on numbers. *)
Definition int32_and (a b : Z) : Z := ToInt32 (Z.land (ToInt32 a) (ToInt32 b)).
Definition int32_or (a b : Z) : Z := ToInt32 (Z.lor (ToInt32 a) (ToInt32 b)).
Definition int32_not (a : Z) : Z := ToInt32 (Z.lnot (ToInt32 a)).
Definition int32_shl (a count : Z) : Z :=
  ToInt32 (Z.shiftl (ToInt32 a) (count mod 32)).

(** ToUint8: what a store into a [Uint8Array] keeps of an integer. *)
Definition ToUint8 (z : Z) : Z := z mod 256.

(** [a.slice(begin, end)] and [a.subarray(begin, end)] read the same
    bytes: relative indices are clamped as the standard prescribes. *)
Definition clamp_index (n i : Z) : Z :=
  if i <? 0 then Z.max (n + i) 0 else Z.min i n.

Definition slice {A} (a : list A) (begin end_ : Z) : list A :=
  let b := clamp_index (len a) begin in
  let e := clamp_index (len a) end_ in
  take (Z.to_nat (e - b)) (drop (Z.to_nat b) a).

(** [a.slice()]: a copy of the whole array. *)
Definition slice_all {A} (a : list A) : list A := slice a 0 (len a).

Definition slice_from {A} (a : list A) (begin : Z) : list A :=
  slice a begin (len a).

(** [a.pop()]: the last element (or [undefined]) and the shortened array. *)
Definition pop {A} (a : list A) : option A * list A :=
  match reverse a with
  | [] => (None, [])
  | x :: r => (Some x, reverse r)
  end.

(** [a.push(x)]. *)
Definition push {A} (a : list A) (x : A) : list A := a ++ [x].

End Js.

(* ===================================================================== *)
(** * src/lib/utils.ts: little-endian and VarInt codecs *)
(* ===================================================================== *)

Module Utils.
Import Js.

(** [Number(value)] for a BigInt: the nearest double, ties to even.  A
    double holds 53 significant binary digits; the result is [None] when
    the rounded magnitude overflows to an infinity. *)
Definition roundMagnitude (m : Z) : Z :=
  let digits := Z.log2 m + 1 in
  if digits <=? 53 then m
  else
    let e := digits - 53 in
    let q := Z.shiftr m e in
    let r := Z.land m (Z.ones e) in
    let half := 2 ^ (e - 1) in
    let q' := if (half <? r) || ((r =? half) && Z.odd q) then q + 1 else q in
    Z.shiftl q' e.

Definition NumberOfBigInt (value : Z) : option Z :=
  let m := roundMagnitude (Z.abs value) in
  if 2 ^ 1024 <=? m then None else Some (Z.sgn value * m).

(** A store [bin[offset] = x] of a number into a [Uint8Array]: infinities
    are stored as 0, other values modulo 256. *)
Definition storeUint8 (x : option Z) : Z :=
  match x with
  | Some n => ToUint8 n
  | None => 0
  end.

(** [bigIntToBinUintLE]: the loop writes [Number(value)] at [offset] and
    shifts [value] right by a byte, [bytes] times. *)
Fixpoint bigIntToBinUintLE_loop (bytes : nat) (value : Z) : Uint8Array :=
  match bytes with
  | O => []
  | S bytes' =>
      storeUint8 (NumberOfBigInt value) :: bigIntToBinUintLE_loop bytes' (Z.shiftr value 8)
  end.

Definition bigIntToBinUintLE (value : Z) (bytes : nat) : Uint8Array :=
  bigIntToBinUintLE_loop bytes value.

Definition bigIntToBinUint64LE (value : Z) : Uint8Array := bigIntToBinUintLE value 8.

(** [BigInt(bin[offset] * base ** (bitsInAByte * offset))]: a RangeError
    ([None]) when [bin[offset]] is [undefined] (the product is NaN) or when
    the power overflows the doubles (the product is an infinity or NaN). *)
Definition scaledByte (bin : Uint8Array) (offset : Z) : option Z :=
  match index bin offset with
  | None => None
  | Some b => if 1024 <=? 8 * offset then None else Some (b * 2 ^ (8 * offset))
  end.

(** [binToBigIntUintLE]: the loop adds the scaled bytes from [offset] up
    to [bytes]; [count] is the number of rounds left. *)
Fixpoint binToBigIntUintLE_loop (bin : Uint8Array) (count : nat) (offset : Z) (value : Z)
  : option Z :=
  match count with
  | O => Some value
  | S count' =>
      match scaledByte bin offset with
      | None => None
      | Some term => binToBigIntUintLE_loop bin count' (offset + 1) (value + term)
      end
  end.

Definition binToBigIntUintLE (bin : Uint8Array) (bytes : nat) : option Z :=
  binToBigIntUintLE_loop bin bytes 0 0.

Definition binToBigIntUint64LE (bin : Uint8Array) : option Z := binToBigIntUintLE bin 8.

(** The [VarInt] and [ByteLength] enums. *)
Definition Uint8MaxValue : Z := 252.
Definition Uint16Prefix : Z := 253.
Definition Uint16MaxValue : Z := 65535.
Definition Uint32Prefix : Z := 254.
Definition Uint32MaxValue : Z := 4294967295.
Definition Uint64Prefix : Z := 255.

Definition varIntPrefixToSize (firstByte : option Z) : nat :=
  match firstByte with
  | Some 253 => 2
  | Some 254 => 4
  | Some 255 => 8
  | _ => 1
  end.

Record VarIntResult : Type := mkVarIntResult {
  nextOffset : Z;
  value : Z
}.

(** [readBitcoinVarInt]: [None] when [binToBigIntUintLE] throws. *)
Definition readBitcoinVarInt (bin : Uint8Array) (offset : Z) : option VarIntResult :=
  let bytes := varIntPrefixToSize (index bin offset) in
  match binToBigIntUintLE (slice bin offset (offset + Z.of_nat bytes)) bytes with
  | None => None
  | Some v => Some {| nextOffset := offset + Z.of_nat bytes; value := v |}
  end.

Definition bigIntToBitcoinVarInt (value : Z) : Uint8Array :=
  if value <=? Uint8MaxValue then bigIntToBinUintLE value 1
  else if value <=? Uint16MaxValue then Uint16Prefix :: bigIntToBinUintLE value 2
  else if value <=? Uint32MaxValue then Uint32Prefix :: bigIntToBinUintLE value 4
  else Uint64Prefix :: bigIntToBinUintLE value 8.

(** [binToHex]: two lowercase hexadecimal digits per byte. *)
Definition hexDigit (d : Z) : string :=
  match d with
  | 0 => "0" | 1 => "1" | 2 => "2" | 3 => "3" | 4 => "4" | 5 => "5" | 6 => "6"
  | 7 => "7" | 8 => "8" | 9 => "9" | 10 => "a" | 11 => "b" | 12 => "c"
  | 13 => "d" | 14 => "e" | _ => "f"
  end%string.

Definition binToHex (bytes : Uint8Array) : string :=
  fold_left (fun str byte => str +:+ hexDigit (byte / 16) +:+ hexDigit (byte mod 16))
            bytes ""%string.

End Utils.

(* ===================================================================== *)
(** * instruction-sets/common/common.ts: Script Numbers *)
(* ===================================================================== *)

Module Common.
Import Js.

Inductive ScriptNumberError : Type :=
| outOfRange
| requiresMinimal.

(** The accumulation loop of [parseBytesAsScriptNumber]:
    [result |= BigInt(bytes[byte]) << BigInt(byte * bitsPerByte)]. *)
Fixpoint parseLoop (rest : list Z) (byte : Z) (result : Z) : Z :=
  match rest with
  | [] => result
  | b :: rest' => parseLoop rest' (byte + 1) (Z.lor result (Z.shiftl b (byte * 8)))
  end.

Definition parseBytesAsScriptNumber (bytes : Uint8Array) : Z + ScriptNumberError :=
  let maximumScriptNumberByteLength := 4 in
  if len bytes =? 0 then inl 0
  else if maximumScriptNumberByteLength <? len bytes then inr outOfRange
  else
    let mostSignificantByte := index bytes (len bytes - 1) in
    let secondMostSignificantByte := index bytes (len bytes - 1 - 1) in
    let allButTheSignBit := 127 in
    let justTheSignBit := 128 in
    if (int32_and (ToInt32_value mostSignificantByte) allButTheSignBit =? 0)
       && ((len bytes <=? 1)
           || (int32_and (ToInt32_value secondMostSignificantByte) justTheSignBit =? 0))
    then inr requiresMinimal
    else
      let bitsPerByte := 8 in
      let signFlippingByte := 128 in
      let result := parseLoop bytes 0 0 in
      let isNegative :=
        negb (int32_and (ToInt32_value (index bytes (len bytes - 1))) signFlippingByte =? 0) in
      if isNegative
      then inl (- Z.land result
                    (int32_not (int32_shl signFlippingByte
                                          (bitsPerByte * (len bytes - 1)))))
      else inl result.

(** The number of binary digits of a non-negative integer; the measure
    of the encoding loop. *)
Definition bitLength (z : Z) : nat := Z.to_nat (Z.log2_up (z + 1)).

(** The [while (remaining > 0)] loop of [bigIntToScriptNumber]; each
    round shifts [remaining] right by a byte, so it terminates. *)
Equations? encodeLoop (remaining : Z) (bytes : list Z) : list Z
  by wf (bitLength remaining) lt :=
  encodeLoop remaining bytes with Z_lt_dec 0 remaining => {
    | left _ := encodeLoop (Z.shiftr remaining 8) (push bytes (Z.land remaining 255));
    | right _ := bytes }.
Proof.
  unfold bitLength.
  rewrite Z.shiftr_div_pow2 by lia.
  assert (Hq : 0 <= remaining / 2 ^ 8) by (apply Z.div_pos; lia).
  assert (Hk : 0 < Z.log2_up (remaining + 1)) by (apply Z.log2_up_pos; lia).
  assert (Hle : remaining + 1 <= 2 ^ Z.log2_up (remaining + 1))
    by (apply Z.log2_up_spec; lia).
  assert (Hsmall : Z.log2_up (remaining / 2 ^ 8 + 1) <= Z.log2_up (remaining + 1) - 1).
  { apply Z.log2_up_le_pow2; [lia|].
    replace (Z.log2_up (remaining + 1))
      with (Z.succ (Z.log2_up (remaining + 1) - 1)) in Hle by lia.
    rewrite Z.pow_succ_r in Hle by lia.
    change (2 ^ 8) with 256.
    assert (remaining / 256 <= remaining / 2) by (apply Z.div_le_compat_l; lia).
    assert (remaining / 2 < 2 ^ (Z.log2_up (remaining + 1) - 1))
      by (apply Z.div_lt_upper_bound; lia).
    lia. }
  assert (0 <= Z.log2_up (remaining / 2 ^ 8 + 1)) by apply Z.log2_up_nonneg.
  lia.
Qed.

Definition bigIntToScriptNumber (integer : Z) : Uint8Array :=
  if integer =? 0 then []
  else
    let isNegative := integer <? 0 in
    let remaining := if isNegative then - integer else integer in
    let bytes := encodeLoop remaining [] in
    let signFlippingByte := 128 in
    let top := index bytes (len bytes - 1) in
    let bytes' :=
      if 0 <? int32_and (ToInt32_value top) signFlippingByte
      then push bytes (if isNegative then signFlippingByte else 0)
      else if isNegative
           then <[Z.to_nat (len bytes - 1) := int32_or (ToInt32_value top) signFlippingByte]> bytes
           else bytes in
    map ToUint8 bytes'.

Definition booleanToScriptNumber (value : bool) : Uint8Array :=
  if value then bigIntToScriptNumber 1 else bigIntToScriptNumber 0.

(** [stackElementIsTruthy]: the loop over [element] from index [i]. *)
Fixpoint stackElementIsTruthy_loop (rest : list Z) (i : Z) (length : Z) : bool :=
  match rest with
  | [] => false
  | b :: rest' =>
      if negb (b =? 0)
      then if (i =? length - 1) && (b =? 128) then false else true
      else stackElementIsTruthy_loop rest' (i + 1) length
  end.

Definition stackElementIsTruthy (element : Uint8Array) : bool :=
  stackElementIsTruthy_loop element 0 (len element).

(** [cloneStack]: a new array holding a copy ([slice()]) of every element;
    as values the copies equal the originals. *)
Definition cloneStack (stack : list Uint8Array) : list Uint8Array :=
  fold_left (fun newStack element => push newStack (slice_all element)) stack [].

End Common.


(* ===================================================================== *)
(** * The Script Number parser as the specification words it *)
(* ===================================================================== *)

Module ScriptNumberSpec.
Import Js Common.

(** "The top byte's low 7 bits are zero". *)
Definition lowSevenBitsZero (b : Z) : bool :=
  forallb (fun i => negb (Z.testbit b i)) [0; 1; 2; 3; 4; 5; 6].

(** The 0x80 bit of a byte. *)
Definition highBit (b : Z) : bool := Z.testbit b 7.

(** "Magnitude: sum of [bytes[i] << (8 i)]", from index [i] on. *)
Fixpoint magnitudeSum (bytes : list Z) (i : Z) : Z :=
  match bytes with
  | [] => 0
  | b :: rest => Z.shiftl b (8 * i) + magnitudeSum rest (i + 1)
  end.

(** Section 4.3, Parse: empty is 0; more than 4 bytes is out of range; a
    non-minimal encoding is refused; otherwise the value is the
    little-endian magnitude, negative (with the sign bit cleared) when the
    0x80 bit of the top byte is set. *)
Definition parseScriptNumber (bytes : Uint8Array) : Z + ScriptNumberError :=
  match bytes with
  | [] => inl 0
  | _ =>
      if 4 <? len bytes then inr outOfRange
      else
        let top := default 0 (last bytes) in
        let secondTop := default 0 (index bytes (len bytes - 2)) in
        if lowSevenBitsZero top && ((len bytes <=? 1) || negb (highBit secondTop))
        then inr requiresMinimal
        else
          let unsigned := magnitudeSum bytes 0 in
          if highBit top
          then inl (- Z.clearbit unsigned (8 * len bytes - 1))
          else inl unsigned
  end.

End ScriptNumberSpec.

(* ===================================================================== *)
(** * auth/state.ts and the error kinds of common.ts *)
(* ===================================================================== *)

Module State.
Import Js.

(** [CommonProgramExternalState]: the network and transaction-input
    state, read-only during one evaluation. *)
Record ExternalState : Type := mkExternalState {
  blockHeight : Z;
  blockTime : Z;
  correspondingOutputHash : Uint8Array;
  locktime : Z;
  outpointIndex : Z;
  outpointTransactionHash : Uint8Array;
  outpointValue : Z;
  sequenceNumber : Z;
  transactionOutpointsHash : Uint8Array;
  transactionOutputsHash : Uint8Array;
  transactionSequenceNumbersHash : Uint8Array;
  version : Z
}.

Inductive CommonAuthenticationError : Type :=
| emptyStack
| malformedPush
| nonMinimalPush
| exceedsMaximumPush
| unknownOpcode
| failedVerify
| calledReturn
| invalidPublicKeyEncoding
| invalidSignatureEncoding.

Definition errorMessage (e : CommonAuthenticationError) : string :=
  match e with
  | emptyStack => "Tried to read from an empty stack."
  | malformedPush => "Script must be long enough to push the requested number of bytes."
  | nonMinimalPush => "Push operations must use the smallest possible encoding."
  | exceedsMaximumPush => "Push exceeds the push size limit of 520 bytes."
  | unknownOpcode => "Called an unknown or unimplemented opcode."
  | failedVerify => "Script failed an OP_VERIFY operation."
  | calledReturn => "Script called an OP_RETURN operation."
  | invalidPublicKeyEncoding => "Encountered an improperly encoded public key."
  | invalidSignatureEncoding => "Encountered an improperly encoded signature."
  end%string.

(** [CommonProgramState]: the internal state ([error], [ip],
    [lastCodeSeparator], [script], [stack]) next to the external one.
    [ip] is an array index; the top of [stack] is its last element. *)
Record ProgramState : Type := mkProgramState {
  error : option CommonAuthenticationError;
  ip : nat;
  lastCodeSeparator : Z;
  script : Uint8Array;
  stack : list Uint8Array;
  external : ExternalState
}.

Definition set_error (e : option CommonAuthenticationError) (s : ProgramState) : ProgramState :=
  mkProgramState e (ip s) (lastCodeSeparator s) (script s) (stack s) (external s).

Definition set_ip (i : nat) (s : ProgramState) : ProgramState :=
  mkProgramState (error s) i (lastCodeSeparator s) (script s) (stack s) (external s).

Definition set_stack (st : list Uint8Array) (s : ProgramState) : ProgramState :=
  mkProgramState (error s) (ip s) (lastCodeSeparator s) (script s) st (external s).

(** [applyError(error, state)]: [{ ...state, error }]. *)
Definition applyError (e : CommonAuthenticationError) (state : ProgramState) : ProgramState :=
  set_error (Some e) state.

(** [state.stack.pop()]: the popped element and the state it leaves. *)
Definition stack_pop (state : ProgramState) : option Uint8Array * ProgramState :=
  let '(element, rest) := pop (stack state) in (element, set_stack rest state).

(** [state.stack.push(element)]. *)
Definition stack_push (element : Uint8Array) (state : ProgramState) : ProgramState :=
  set_stack (push (stack state) element) state.

(** An [Operator<ProgramState>]: [asm] and [description] render a state,
    [operation] advances it.  [None] stands for a thrown exception. *)
Record Operator (S : Type) : Type := mkOperator {
  asm : S -> option string;
  description : S -> option string;
  operation : S -> option S
}.
Arguments mkOperator {S} _ _ _.
Arguments asm {S} _ _.
Arguments description {S} _ _.
Arguments operation {S} _ _.

(** The double-quote character, as a string. *)
Definition quote : string := String (Ascii.ascii_of_nat 34) EmptyString.

(** A constant [asm] or [description]. *)
Definition constant {S} (text : string) : S -> option string := fun _ => Some text.

End State.

(* ===================================================================== *)
(** * bitcoin-cash/bitcoin-cash-opcodes.ts *)
(* ===================================================================== *)

Module BitcoinCashOpCodes.

(** Modelled from the spec: bitcoin-cash-opcodes.ts is not among the
    sources; the numbering is the published opcode table of section 6. *)
Definition OP_0 : Z := 0.
Definition OP_DATA_1 : Z := 1.
Definition OP_DATA_20 : Z := 20.
Definition OP_DATA_75 : Z := 75.
Definition OP_PUSHDATA1 : Z := 76.
Definition OP_PUSHDATA2 : Z := 77.
Definition OP_PUSHDATA4 : Z := 78.
Definition OP_1NEGATE : Z := 79.
Definition OP_1 : Z := 81.
Definition OP_16 : Z := 96.
Definition OP_VERIFY : Z := 105.
Definition OP_DUP : Z := 118.
Definition OP_EQUAL : Z := 135.
Definition OP_EQUALVERIFY : Z := 136.
Definition OP_HASH160 : Z := 169.
Definition OP_CHECKSIG : Z := 172.

End BitcoinCashOpCodes.

(* ===================================================================== *)
(** * instruction-sets/common/push.ts *)
(* ===================================================================== *)

Module Push.
Import Js Utils Common State.

Definition opPushNumber (value : Z) : Operator ProgramState :=
  {| asm := constant ("OP_" +:+ pretty value);
     description := constant ("Push the Script Number " +:+ pretty value +:+ " onto the stack.");
     operation := fun state => Some (stack_push (bigIntToScriptNumber value) state) |}.

(** [pushNumberOpCodes]: OP_1NEGATE, OP_0, OP_1 .. OP_16. *)
Definition pushNumberOpCodes : list Z :=
  BitcoinCashOpCodes.OP_1NEGATE :: BitcoinCashOpCodes.OP_0
    :: map (fun i => BitcoinCashOpCodes.OP_1 + Z.of_nat i) (seq 0 16).

(** [{ ...group, ...current }]: the right operand wins on a shared key. *)
Definition spread {V} (group current : gmap Z V) : gmap Z V := current ∪ group.

(** [opcodes.map((opcode, i) => ({ [opcode]: f(i) })).reduce(spread)]. *)
Definition operatorsOf {V} (opcodes : list Z) (f : Z -> V) : gmap Z V :=
  fold_left spread (imap (fun i opcode => {[ opcode := f (Z.of_nat i) ]}) opcodes) ∅.

Definition pushNumberOperators : gmap Z (Operator ProgramState) :=
  operatorsOf pushNumberOpCodes (fun i => opPushNumber (i - 1)).

Definition pushToAsm (array : Uint8Array) (begin end_ : Z) : string :=
  let missingBytes := end_ - len array in
  if missingBytes <=? 0
  then "0x" +:+ binToHex (slice array begin end_)
  else "0x" +:+ binToHex (slice array begin (len array))
         +:+ "[missing " +:+ pretty missingBytes +:+ " "
         +:+ (if 1 <? missingBytes then "bytes" else "byte") +:+ "]".

Definition pushDataConstantMethod {Result} (value : Z)
    (insufficientBits : ProgramState -> Result)
    (valid : ProgramState -> Z -> Z -> Result)
    (state : ProgramState) : Result :=
  let pushStart := Z.of_nat (ip state) in
  let pushEnd := Z.of_nat (ip state) + value in
  if len (script state) <? pushEnd
  then insufficientBits state
  else valid state pushStart pushEnd.

Definition opPushDataConstant (value : Z) : Operator ProgramState :=
  {| asm := fun state => Some (pushDataConstantMethod value
       (fun state => "OP_DATA_" +:+ pretty value +:+ " "
                       +:+ pushToAsm (script state) (Z.of_nat (ip state))
                                     (Z.of_nat (ip state) + value))
       (fun state pushStart pushEnd =>
          "OP_DATA_" +:+ pretty value +:+ " " +:+ pushToAsm (script state) pushStart pushEnd)
       state);
     description := constant ("Push the next "
       +:+ (if value =? 1 then "byte" else pretty value +:+ " bytes")
       +:+ " onto the stack.");
     operation := fun state => Some (pushDataConstantMethod value
       (fun state => applyError malformedPush state)
       (fun state pushStart pushEnd =>
          set_ip (Z.to_nat pushEnd)
                 (stack_push (slice (script state) pushStart pushEnd) state))
       state) |}.

(** [pushDataConstantOpCodes]: OP_DATA_1 .. OP_DATA_75. *)
Definition pushDataConstantOpCodes : list Z :=
  map (fun i => BitcoinCashOpCodes.OP_DATA_1 + Z.of_nat i) (seq 0 75).

Definition pushDataConstantOperators : gmap Z (Operator ProgramState) :=
  operatorsOf pushDataConstantOpCodes (fun i => opPushDataConstant (i + 1)).

Inductive Uint : Type := Uint8 | Uint16 | Uint32.

Definition uintName (type : Uint) : string :=
  match type with Uint8 => "Uint8" | Uint16 => "Uint16" | Uint32 => "Uint32" end.

Definition uintWidth (type : Uint) : nat :=
  match type with Uint8 => 1 | Uint16 => 2 | Uint32 => 4 end.

(** The unsigned little-endian value of a byte sequence. *)
Fixpoint littleEndian (bytes : list Z) : Z :=
  match bytes with
  | [] => 0
  | b :: rest => b + 256 * littleEndian rest
  end.

(** [readLittleEndianLength]: a [DataView] of [lengthBits] bytes at [ip]
    over the buffer of [script], read as [type].  The script is taken to
    span its buffer (as every script produced by [slice] does).  [None]
    is the RangeError of a view or a read that leaves the buffer. *)
Definition readLittleEndianLength (script : Uint8Array) (ip : nat) (lengthBits : nat)
    (type : Uint) : option Z :=
  if (length script <? ip + lengthBits)%nat then None
  else
    let view := take lengthBits (drop ip script) in
    if (lengthBits <? uintWidth type)%nat then None
    else Some (littleEndian (take (uintWidth type) view)).

Definition pushDataVariableMethod {Result} (lengthBits : nat) (type : Uint)
    (minimum maximum : Z)
    (insufficientLengthBits : ProgramState -> Result)
    (insufficientTotalBits belowMinimumLength aboveMaximumLength valid
       : ProgramState -> Z -> Z -> Result)
    (state : ProgramState) : option Result :=
  let pushBegin := Z.of_nat (ip state) + Z.of_nat lengthBits in
  if len (script state) <? pushBegin
  then Some (insufficientLengthBits state)
  else
    match readLittleEndianLength (script state) (ip state) lengthBits type with
    | None => None
    | Some length =>
        if len (script state) <? pushBegin + length
        then Some (insufficientTotalBits state pushBegin length)
        else if length <? minimum
        then Some (belowMinimumLength state pushBegin length)
        else if maximum <? length
        then Some (aboveMaximumLength state pushBegin length)
        else Some (valid state pushBegin length)
    end.

Definition stringResult (lengthBits : nat) (type : Uint) (minimum maximum : Z)
    (missing : ProgramState -> string) (print : ProgramState -> Z -> Z -> string)
  : ProgramState -> option string :=
  pushDataVariableMethod lengthBits type minimum maximum missing print print print print.

Definition createPushDataOperator (lengthBits : nat) (type : Uint)
    (minimum maximum : Z) : Operator ProgramState :=
  {| asm := stringResult lengthBits type minimum maximum
       (fun _ => "OP_PUSHDATA" +:+ pretty lengthBits +:+ " [missing "
                   +:+ (match type with
                        | Uint8 => "byte"
                        | _ => pretty lengthBits +:+ " bytes"
                        end) +:+ "]")
       (fun state pushBegin length =>
          "OP_PUSHDATA" +:+ pretty lengthBits +:+ " " +:+ pretty length +:+ " "
            +:+ pushToAsm (script state) pushBegin (pushBegin + length));
     description := stringResult lengthBits type minimum maximum
       (fun _ => "Read the next "
                   +:+ (match type with Uint8 => "" | _ => "little-endian " end)
                   +:+ uintName type
                   +:+ " (missing) and push that number of bytes onto the stack.")
       (fun state pushBegin length =>
          "Read the next "
            +:+ (match type with Uint8 => "" | _ => "little-endian " end)
            +:+ uintName type +:+ " ("
            +:+ pushToAsm (script state) (Z.of_nat (ip state)) pushBegin
            +:+ ") and push that number of bytes (" +:+ pretty length
            +:+ ") onto the stack.");
     operation := pushDataVariableMethod lengthBits type minimum maximum
       (fun state => applyError malformedPush state)
       (fun state _ _ => applyError malformedPush state)
       (fun state _ _ => applyError nonMinimalPush state)
       (fun state _ _ => applyError exceedsMaximumPush state)
       (fun state pushBegin length =>
          let pushEnd := pushBegin + length in
          set_ip (Z.to_nat pushEnd)
                 (stack_push (slice (script state) pushBegin pushEnd) state)) |}.

(** Section 4.4, variable pushes: the six steps in their order, for a
    length field of [lengthBits] bytes and the given bounds. *)
Definition pushDataOutcome (lengthBits : nat) (type : Uint) (minimum maximum : Z)
    (state : ProgramState) : ProgramState :=
  let pushBegin := Z.of_nat (ip state) + Z.of_nat lengthBits in
  if len (script state) <? pushBegin then applyError malformedPush state
  else
    let length :=
      littleEndian (take (uintWidth type) (take lengthBits (drop (ip state) (script state)))) in
    if len (script state) <? pushBegin + length then applyError malformedPush state
    else if length <? minimum then applyError nonMinimalPush state
    else if maximum <? length then applyError exceedsMaximumPush state
    else set_ip (Z.to_nat (pushBegin + length))
                (stack_push (slice (script state) pushBegin (pushBegin + length)) state).

(** [PushOperationConstants]. *)
Definition maximumPushDataConstant : Z := 75.
Definition maximumPushSize : Z := 520.

Definition opPushData1 : Operator ProgramState :=
  createPushDataOperator 1 Uint8 maximumPushDataConstant maximumPushSize.

Definition highestRepresentableNumberIn (bytes : Z) : Z := 256 ^ bytes.

Definition opPushData2 : Operator ProgramState :=
  createPushDataOperator 2 Uint16 (highestRepresentableNumberIn 1) maximumPushSize.

Definition opPushData4 : Operator ProgramState :=
  createPushDataOperator 4 Uint32 (highestRepresentableNumberIn 2) maximumPushSize.

Definition pushDataVariableOperators : gmap Z (Operator ProgramState) :=
  {[ BitcoinCashOpCodes.OP_PUSHDATA1 := opPushData1;
     BitcoinCashOpCodes.OP_PUSHDATA2 := opPushData2;
     BitcoinCashOpCodes.OP_PUSHDATA4 := opPushData4 ]}.

End Push.

(* ===================================================================== *)
(** * bitwise.ts, flow-control.ts, stack.ts and crypto.ts *)
(* ===================================================================== *)

Module Operators.
Import Js Utils Common State.

(** [areEqual(a, b)]: equal lengths, then a byte-by-byte comparison. *)
Fixpoint areEqual_loop (a b : list Z) : bool :=
  match a, b with
  | x :: a', y :: b' => if negb (x =? y) then false else areEqual_loop a' b'
  | _, _ => true
  end.

Definition areEqual (a b : Uint8Array) : bool :=
  if negb (len a =? len b) then false else areEqual_loop a b.

Definition opEqual : Operator ProgramState :=
  {| asm := constant "OP_EQUAL";
     description := constant "Pop the top two elements off the stack and compare them byte-by-byte. If they are the same, push a Script Number 1, otherwise push a Script Number 0.";
     operation := fun state =>
       let '(element1, state) := stack_pop state in
       let '(element2, state) := stack_pop state in
       match element1, element2 with
       | Some element1, Some element2 =>
           let result := booleanToScriptNumber (areEqual element1 element2) in
           Some (stack_push result state)
       | _, _ => Some (applyError emptyStack state)
       end |}.

Definition opVerify : Operator ProgramState :=
  {| asm := constant "OP_VERIFY";
     description := constant ("Pop the top element from the stack and error if it isn't "
                              +:+ quote +:+ "truthy" +:+ quote +:+ ".");
     operation := fun state =>
       let '(element, state) := stack_pop state in
       match element with
       | None => Some (applyError emptyStack state)
       | Some element =>
           if stackElementIsTruthy element
           then Some state
           else Some (applyError failedVerify state)
       end |}.

(** [verify(equal(state))]. *)
Definition opEqualVerify : Operator ProgramState :=
  {| asm := constant "OP_EQUALVERIFY";
     description := constant "Pop the top two elements off the stack and compare them byte-by-byte. If they are the different, error.";
     operation := fun state =>
       match operation opEqual state with
       | None => None
       | Some state' => operation opVerify state'
       end |}.

Definition bitwiseOperators : gmap Z (Operator ProgramState) :=
  {[ BitcoinCashOpCodes.OP_EQUAL := opEqual;
     BitcoinCashOpCodes.OP_EQUALVERIFY := opEqualVerify ]}.

Definition flowControlOperators : gmap Z (Operator ProgramState) :=
  {[ BitcoinCashOpCodes.OP_VERIFY := opVerify ]}.

Definition opDup : Operator ProgramState :=
  {| asm := constant "OP_DUP";
     description := constant "Duplicate the top element on the stack.";
     operation := fun state =>
       if len (stack state) <? 1
       then Some (applyError emptyStack state)
       else
         match index (stack state) (len (stack state) - 1) with
         | None => None
         | Some element =>
             let clone := slice_all element in
             Some (stack_push clone state)
         end |}.

Definition stackOperators : gmap Z (Operator ProgramState) :=
  {[ BitcoinCashOpCodes.OP_DUP := opDup ]}.

(** The decoded form of a signature: [decodeBitcoinSignature]'s result. *)
Record DecodedSignature : Type := mkDecodedSignature {
  signingSerializationType : Uint8Array;
  signature : Uint8Array
}.

Section Crypto.

(** The crypto providers ([Sha256], [Ripemd160], [Secp256k1]) are the
    arguments of [commonOperators]. *)
Variable sha256_hash : Uint8Array -> Uint8Array.
Variable ripemd160_hash : Uint8Array -> Uint8Array.
Variable verifySignatureDERLowS : Uint8Array -> Uint8Array -> Uint8Array -> bool.

(** encoding.ts and signing-serialization.ts are not among the sources:
    their functions are taken as they are imported by crypto.ts. *)
Variable isValidPublicKeyEncoding : Uint8Array -> bool.
Variable isValidSignatureEncoding : Uint8Array -> bool.
Variable decodeBitcoinSignature : Uint8Array -> DecodedSignature.
Variable generateBitcoinCashSigningSerialization :
  Z -> Uint8Array -> Uint8Array -> Uint8Array -> Z -> Uint8Array -> Z -> Z ->
  Uint8Array -> Uint8Array -> Z -> Uint8Array -> Uint8Array.

Definition opHash160 : Operator ProgramState :=
  {| asm := constant "OP_HASH160";
     description := constant "Pop the top element off the stack and pass it through sha256, then ripemd160, pushing the result onto the stack.";
     operation := fun state =>
       let '(element, state) := stack_pop state in
       match element with
       | None => Some (applyError emptyStack state)
       | Some element => Some (stack_push (ripemd160_hash (sha256_hash element)) state)
       end |}.

Definition opCheckSig : Operator ProgramState :=
  {| asm := constant "OP_CHECKSIG";
     description := constant "Pop the top two elements off the stack. Treat the first as a public key and the second as a signature. If the signature is valid, push a Script Number 1, otherwise push a Script Number 0.";
     operation := fun state =>
       let '(publicKey, state) := stack_pop state in
       let '(bitcoinEncodedSignature, state) := stack_pop state in
       match publicKey, bitcoinEncodedSignature with
       | Some publicKey, Some bitcoinEncodedSignature =>
           if negb (isValidPublicKeyEncoding publicKey)
           then Some (applyError invalidPublicKeyEncoding state)
           else if negb (isValidSignatureEncoding bitcoinEncodedSignature)
           then Some (applyError invalidSignatureEncoding state)
           else
             let script := slice_from (script state) (lastCodeSeparator state + 1) in
             let scriptCode := bigIntToBitcoinVarInt (len script) ++ script in
             let decoded := decodeBitcoinSignature bitcoinEncodedSignature in
             let serialization :=
               generateBitcoinCashSigningSerialization
                 (version (external state))
                 (transactionOutpointsHash (external state))
                 (transactionSequenceNumbersHash (external state))
                 (outpointTransactionHash (external state))
                 (outpointIndex (external state))
                 scriptCode
                 (outpointValue (external state))
                 (sequenceNumber (external state))
                 (correspondingOutputHash (external state))
                 (transactionOutputsHash (external state))
                 (locktime (external state))
                 (signingSerializationType decoded) in
             let digest := sha256_hash (sha256_hash serialization) in
             Some (stack_push
                     (booleanToScriptNumber
                        (verifySignatureDERLowS (signature decoded) publicKey digest))
                     state)
       | _, _ => Some (applyError emptyStack state)
       end |}.

Definition cryptoOperators : gmap Z (Operator ProgramState) :=
  {[ BitcoinCashOpCodes.OP_HASH160 := opHash160;
     BitcoinCashOpCodes.OP_CHECKSIG := opCheckSig ]}.

(** [undefinedOperator]. *)
Definition undefinedOperator : Operator ProgramState :=
  {| asm := fun state =>
       Some ("OP_UNKNOWN" +:+
             match index (script state) (Z.of_nat (ip state) - 1) with
             | Some opcode => pretty opcode
             | None => "undefined"
             end);
     description := fun state =>
       Some ("An undefined or unimplemented opcode (" +:+
             match index (script state) (Z.of_nat (ip state) - 1) with
             | Some opcode => pretty opcode
             | None => "undefined"
             end +:+ ") was called.");
     operation := fun state => Some (set_error (Some unknownOpcode) state) |}.

(** [commonOperators]: the spread of every operator group. *)
Definition commonOperators : gmap Z (Operator ProgramState) :=
  Push.spread (Push.spread (Push.spread (Push.spread (Push.spread (Push.spread
    Push.pushNumberOperators
    Push.pushDataConstantOperators)
    Push.pushDataVariableOperators)
    bitwiseOperators)
    cryptoOperators)
    flowControlOperators)
    stackOperators.

End Crypto.

End Operators.

(* ===================================================================== *)
(** * auth/virtual-machine.ts *)
(* ===================================================================== *)

Module VirtualMachine.
Import Js State.

(** [MinimumProgramState]: what the runtime reads of a state. *)
Class MinimumProgramState (S : Type) : Type := {
  state_ip : S -> nat;
  state_script : S -> Uint8Array
}.

(** [InstructionSet<S>]: the hooks, the fallback operator and the sparse
    opcode table. *)
Record InstructionSet (S : Type) : Type := mkInstructionSet {
  before : S -> S;
  clone : S -> S;
  continue : S -> bool;
  undefined : Operator S;
  operators : gmap Z (Operator S)
}.
Arguments before {S} _ _.
Arguments clone {S} _ _.
Arguments continue {S} _ _.
Arguments undefined {S} _.
Arguments operators {S} _.

Record DebuggingStep (S : Type) : Type := mkDebuggingStep {
  step_asm : string;
  step_description : string;
  step_state : S
}.
Arguments mkDebuggingStep {S} _ _ _.
Arguments step_asm {S} _.
Arguments step_description {S} _.
Arguments step_state {S} _.

(** How a loop of the runtime can end: with a value, with an exception,
    or cut off by the bound on the number of instructions. *)
Inductive Outcome (A : Type) : Type :=
| Returned (a : A)
| Thrown
| Unfinished.
Arguments Returned {A} _.
Arguments Thrown {A}.
Arguments Unfinished {A}.

Definition returned {A} (o : Outcome A) : option A :=
  match o with Returned a => Some a | _ => None end.

Section Runtime.
Context {S : Type} `{MinimumProgramState S}.
Variable instructionSet : InstructionSet S.

(** Modelled from the spec: virtual-machine.ts is not among the sources.
    Section 4.1: the operator is the entry of the opcode byte at [ip - 1]
    once [before] has run, or [undefined] when there is none. *)
Definition getOperator (state : S) : Operator S :=
  match index (state_script state) (Z.of_nat (state_ip state) - 1) with
  | Some opcode => default (undefined instructionSet) (operators instructionSet !! opcode)
  | None => undefined instructionSet
  end.

(** Modelled from the spec: [stepMutate(state)] applies [before], then the
    operation of the operator it dispatches to. *)
Definition stepMutate (state : S) : option S :=
  let state := before instructionSet state in
  operation (getOperator state) state.

(** Modelled from the spec: [step(state) = stepMutate(clone(state))]. *)
Definition step (state : S) : option S := stepMutate (clone instructionSet state).

(** Modelled from the spec: [evaluate] clones, then loops [stepMutate]
    while [continue] holds; [fuel] bounds the number of instructions. *)
Fixpoint evaluateLoop (fuel : nat) (state : S) : Outcome S :=
  if continue instructionSet state
  then match fuel with
       | O => Unfinished
       | Datatypes.S fuel' =>
           match stepMutate state with
           | None => Thrown
           | Some state' => evaluateLoop fuel' state'
           end
       end
  else Returned state.

Definition evaluate (fuel : nat) (state : S) : Outcome S :=
  evaluateLoop fuel (clone instructionSet state).

(** Modelled from the spec: [debug] clones, records the synthetic first
    step, then runs the instructions on the working copy and snapshots it
    (by [clone]) after each of them.  Following the test of the runtime
    (whose OP_ADD description pops the two operands), [asm] and
    [description] are rendered on copies of the state [before] returns. *)
Fixpoint debugLoop (fuel : nat) (state : S) (trace : list (DebuggingStep S))
  : Outcome (list (DebuggingStep S)) :=
  if continue instructionSet state
  then match fuel with
       | O => Unfinished
       | Datatypes.S fuel' =>
           let state := before instructionSet state in
           let operator := getOperator state in
           match asm operator (clone instructionSet state),
                 description operator (clone instructionSet state),
                 operation operator state with
           | Some a, Some d, Some state' =>
               debugLoop fuel' state'
                 (trace ++ [mkDebuggingStep a d (clone instructionSet state')])
           | _, _, _ => Thrown
           end
       end
  else Returned trace.

Definition debug (fuel : nat) (state : S) (initialDescription : string)
  : Outcome (list (DebuggingStep S)) :=
  let state := clone instructionSet state in
  debugLoop fuel state
    [mkDebuggingStep ""%string initialDescription (clone instructionSet state)].

End Runtime.

End VirtualMachine.

(* ===================================================================== *)
(** * instruction-sets/bitcoin-cash/bitcoin-cash.ts *)
(* ===================================================================== *)

Module BitcoinCash.
Import Js Utils Common State VirtualMachine Operators.

#[export] Instance ProgramState_minimum : MinimumProgramState ProgramState :=
  {| state_ip := ip; state_script := script |}.

(** [AuthenticationProgram]. *)
Record AuthenticationProgram : Type := mkAuthenticationProgram {
  lockingScript : Uint8Array;
  programState : ExternalState;
  unlockingScript : Uint8Array
}.

Section InstructionSet.

Variable sha256_hash : Uint8Array -> Uint8Array.
Variable ripemd160_hash : Uint8Array -> Uint8Array.
Variable verifySignatureDERLowS : Uint8Array -> Uint8Array -> Uint8Array -> bool.
Variable isValidPublicKeyEncoding : Uint8Array -> bool.
Variable isValidSignatureEncoding : Uint8Array -> bool.
Variable decodeBitcoinSignature : Uint8Array -> DecodedSignature.
Variable generateBitcoinCashSigningSerialization :
  Z -> Uint8Array -> Uint8Array -> Uint8Array -> Z -> Uint8Array -> Z -> Z ->
  Uint8Array -> Uint8Array -> Z -> Uint8Array -> Uint8Array.

(** [bitcoinCashInstructionSet(...).clone], on values: every [slice()]
    yields the contents it copies.  Which arrays the copy shares with the
    original is the subject of the module [Heap]. *)
Definition cloneState (state : ProgramState) : ProgramState :=
  {| error := error state;
     ip := ip state;
     lastCodeSeparator := lastCodeSeparator state;
     script := slice_all (script state);
     stack := slice_all (stack state);
     external :=
       {| blockHeight := blockHeight (external state);
          blockTime := blockTime (external state);
          correspondingOutputHash := slice_all (correspondingOutputHash (external state));
          locktime := locktime (external state);
          outpointIndex := outpointIndex (external state);
          outpointTransactionHash := slice_all (outpointTransactionHash (external state));
          outpointValue := outpointValue (external state);
          sequenceNumber := sequenceNumber (external state);
          transactionOutpointsHash := slice_all (transactionOutpointsHash (external state));
          transactionOutputsHash := slice_all (transactionOutputsHash (external state));
          transactionSequenceNumbersHash :=
            slice_all (transactionSequenceNumbersHash (external state));
          version := version (external state) |} |}.

Definition bitcoinCashInstructionSet : InstructionSet ProgramState :=
  {| before := fun state => set_ip (Datatypes.S (ip state)) state;
     clone := cloneState;
     continue := fun state =>
       match error state with
       | None => Z.of_nat (ip state) <? len (script state)
       | Some _ => false
       end;
     undefined := undefinedOperator;
     operators :=
       commonOperators sha256_hash ripemd160_hash verifySignatureDERLowS
         isValidPublicKeyEncoding isValidSignatureEncoding decodeBitcoinSignature
         generateBitcoinCashSigningSerialization |}.

(** The virtual machine handed to the composer: its [debug] method.  An
    evaluation runs at most one instruction per byte of the script, which
    bounds the loop. *)
Definition bitcoinCashDebug (state : ProgramState) (initialDescription : string)
  : option (list (DebuggingStep ProgramState)) :=
  returned (debug bitcoinCashInstructionSet (length (script state)) state initialDescription).

End InstructionSet.

(** [PayToScriptHash]. *)
Definition PayToScriptHash_length : Z := 23.
Definition PayToScriptHash_lastElement : Z := 22.

Definition isPayToScriptHash (lockingScript : Uint8Array) : bool :=
  (len lockingScript =? PayToScriptHash_length)
  && bool_decide (index lockingScript 0 = Some BitcoinCashOpCodes.OP_HASH160)
  && bool_decide (index lockingScript 1 = Some BitcoinCashOpCodes.OP_DATA_20)
  && bool_decide (index lockingScript PayToScriptHash_lastElement
                  = Some BitcoinCashOpCodes.OP_EQUAL).

(** [script.every(value => value < OP_16)]. *)
Definition isPushOnly (script : Uint8Array) : bool :=
  forallb (fun value => value <? BitcoinCashOpCodes.OP_16) script.

(** [result[result.length - 1].state]; [None] is the TypeError of reading
    [state] of [undefined] when the trace is empty. *)
Definition finalState (result : list (DebuggingStep ProgramState)) : option ProgramState :=
  step_state <$> index result (len result - 1).

(** The state a pass starts from:
    [{ ip: 0, lastCodeSeparator: -1, stack, ...program.state, script }]. *)
Definition passState (stack : list Uint8Array) (state : ExternalState)
    (script : Uint8Array) : ProgramState :=
  {| error := None;
     ip := 0;
     lastCodeSeparator := -1;
     script := script;
     stack := stack;
     external := state |}.

Definition p2shError (description : string) (state : ProgramState)
  : DebuggingStep ProgramState :=
  mkDebuggingStep "[P2SH error]"%string description state.

Section Composer.

(** [vm.debug], the method of the virtual machine the composer is given;
    it returns the trace or throws ([None]). *)
Variable vm_debug : ProgramState -> string -> option (list (DebuggingStep ProgramState)).

Definition debugBitcoinCashAuthenticationProgram (program : AuthenticationProgram)
  : option (list (DebuggingStep ProgramState)) :=
  unlockingScriptResult ←
    vm_debug (passState [] (programState program) (unlockingScript program))
             "Begin unlocking script evaluation.";
  unlockingScriptFinalState ← finalState unlockingScriptResult;
  match error unlockingScriptFinalState with
  | Some _ => Some unlockingScriptResult
  | None =>
      lockingScriptResult ←
        vm_debug (passState (stack unlockingScriptFinalState) (programState program)
                            (lockingScript program))
                 "Begin locking script evaluation.";
      lockingScriptFinalState ← finalState lockingScriptResult;
      if isPayToScriptHash (lockingScript program)
      then
        if negb (isPushOnly (unlockingScript program))
        then Some (unlockingScriptResult ++ lockingScriptResult
                     ++ [p2shError "P2SH error: unlockingScript must be push-only."
                                   lockingScriptFinalState])
        else if len (stack unlockingScriptFinalState) =? 0
        then Some (unlockingScriptResult ++ lockingScriptResult
                     ++ [p2shError "P2SH error: unlockingScript must not leave an empty stack."
                                   lockingScriptFinalState])
        else
          let p2shStack := cloneStack (stack unlockingScriptFinalState) in
          let '(p2shScript, p2shStack) := pop p2shStack in
          p2shScript ← p2shScript;
          p2shScriptResult ←
            vm_debug (passState p2shStack (programState program) p2shScript)
                     "Begin P2SH script evaluation.";
          Some (unlockingScriptResult ++ lockingScriptResult ++ p2shScriptResult)
      else Some (unlockingScriptResult ++ lockingScriptResult)
  end.

End Composer.

(** An operator is well behaved when, on a script of bytes, it renders
    and runs without throwing, keeps the script and never moves [ip]
    back. *)
Definition wellBehaved (operator : Operator ProgramState) : Prop :=
  forall state,
    bytes_ok (script state) ->
    is_Some (asm operator state)
    /\ is_Some (description operator state)
    /\ exists state',
         operation operator state = Some state'
         /\ script state' = script state
         /\ (ip state <= ip state')%nat.

End BitcoinCash.

(* ===================================================================== *)
(** * auth/virtual-machine.spec.ts: the simple instruction set *)
(* ===================================================================== *)

Module SimpleVm.
Import Js State VirtualMachine.

Inductive SimpleError : Type :=
| UNDEFINED
| EMPTY_STACK.

(** [SimpleEvaluationState]: a stack of numbers. *)
Record SimpleEvaluationState : Type := mkSimpleState {
  s_error : option SimpleError;
  s_ip : nat;
  s_script : Uint8Array;
  s_stack : list Z
}.

#[export] Instance SimpleEvaluationState_minimum : MinimumProgramState SimpleEvaluationState :=
  {| state_ip := s_ip; state_script := s_script |}.

Definition s_set_error (e : SimpleError) (s : SimpleEvaluationState) : SimpleEvaluationState :=
  mkSimpleState (Some e) (s_ip s) (s_script s) (s_stack s).

Definition s_set_stack (st : list Z) (s : SimpleEvaluationState) : SimpleEvaluationState :=
  mkSimpleState (s_error s) (s_ip s) (s_script s) st.

(** A number, or [undefined], inside a template string. *)
Definition showNumber (x : option Z) : string :=
  match x with
  | Some n => pretty n
  | None => "undefined"
  end.

(** [top === undefined ? (state.error = EMPTY_STACK) : state.stack.push(f(top))]
    after [const top = state.stack.pop()]. *)
Definition unaryOperation (f : Z -> Z) (state : SimpleEvaluationState)
  : option SimpleEvaluationState :=
  let '(top, rest) := pop (s_stack state) in
  let state := s_set_stack rest state in
  match top with
  | None => Some (s_set_error EMPTY_STACK state)
  | Some top => Some (s_set_stack (push (s_stack state) (f top)) state)
  end.

Definition OP_0 : Operator SimpleEvaluationState :=
  {| asm := constant "OP_0";
     description := constant "Push a 0 onto the stack.";
     operation := fun state => Some (s_set_stack (push (s_stack state) 0) state) |}.

Definition OP_INCREMENT : Operator SimpleEvaluationState :=
  {| asm := constant "OP_INCREMENT";
     description := constant "Add 1 to the top stack item.";
     operation := unaryOperation (fun top => top + 1) |}.

Definition OP_DECREMENT : Operator SimpleEvaluationState :=
  {| asm := constant "OP_DECREMENT";
     description := constant "Subtract 1 from the top stack item.";
     operation := unaryOperation (fun top => top - 1) |}.

Definition OP_ADD : Operator SimpleEvaluationState :=
  {| asm := constant "OP_ADD";
     description := fun state =>
       let '(a, rest) := pop (s_stack state) in
       let '(b, _) := pop rest in
       Some ("Pop the top two items off the stack (" +:+ showNumber a +:+ ", "
               +:+ showNumber b +:+ ") and push their sum onto the stack.");
     operation := fun state =>
       let '(a, rest) := pop (s_stack state) in
       let '(b, rest) := pop rest in
       let state := s_set_stack rest state in
       match a, b with
       | Some a, Some b => Some (s_set_stack (push (s_stack state) (a + b)) state)
       | _, _ => Some (s_set_error EMPTY_STACK state)
       end |}.

Definition OP_CODESEPARATOR : Operator SimpleEvaluationState :=
  {| asm := fun state => Some ("OP_CODESEPARATOR(ip: " +:+ pretty (s_ip state) +:+ ")");
     description := constant "Used internally to separate the unlocking and locking scripts.";
     operation := fun state => Some state |}.

Definition simpleInstructionSet : InstructionSet SimpleEvaluationState :=
  {| before := fun state =>
       mkSimpleState (s_error state) (Datatypes.S (s_ip state)) (s_script state) (s_stack state);
     clone := fun state =>
       mkSimpleState (s_error state) (s_ip state) (slice_all (s_script state))
                     (slice_all (s_stack state));
     continue := fun state =>
       match s_error state with
       | None => Z.of_nat (s_ip state) <? len (s_script state)
       | Some _ => false
       end;
     undefined :=
       {| asm := constant "undefined";
          description := constant "Error: the program called an undefined opcode.";
          operation := fun state => Some (s_set_error UNDEFINED state) |};
     operators :=
       {[ 0 := OP_0; 1 := OP_INCREMENT; 2 := OP_DECREMENT; 3 := OP_ADD;
          171 := OP_CODESEPARATOR ]} |}.

(** [serializeScript(unlockingScript, lockingScript)]. *)
Definition serializeScript (unlockingScript lockingScript : Uint8Array) : Uint8Array :=
  unlockingScript ++ [171] ++ lockingScript.

End SimpleVm.

(* ===================================================================== *)
(** * Objects and references: what [clone] copies and what it shares *)
(* ===================================================================== *)

Module Heap.
Import Js State.

(** A reference to an object of the store. *)
Definition ref : Type := positive.

(** The store holds the bytes of every [Uint8Array] object and, for every
    array of [Uint8Array]s (a stack), the references of its elements. *)
Record Store : Type := mkStore {
  typedArrays : gmap ref Uint8Array;
  arrays : gmap ref (list ref)
}.

(** A computation on the store; [None] is a thrown exception (here: a
    reference that is not in the store). *)
Definition M (A : Type) : Type := Store -> option (A * Store).

#[export] Instance M_ret : MRet M := fun A a st => Some (a, st).

#[export] Instance M_bind : MBind M := fun A B k c st =>
  match c st with
  | Some (a, st') => k a st'
  | None => None
  end.

Definition readTyped (r : ref) : M Uint8Array := fun st =>
  match typedArrays st !! r with
  | Some bytes => Some (bytes, st)
  | None => None
  end.

Definition readArray (r : ref) : M (list ref) := fun st =>
  match arrays st !! r with
  | Some elements => Some (elements, st)
  | None => None
  end.

(** [new Uint8Array(...)]: a new object, at a reference not in use. *)
Definition allocTyped (bytes : Uint8Array) : M ref := fun st =>
  let r := fresh (dom (typedArrays st)) in
  Some (r, mkStore (<[r := bytes]> (typedArrays st)) (arrays st)).

Definition allocArray (elements : list ref) : M ref := fun st =>
  let r := fresh (dom (arrays st)) in
  Some (r, mkStore (typedArrays st) (<[r := elements]> (arrays st))).

(** [a.slice()] on a [Uint8Array]: a new object with the same bytes. *)
Definition sliceTyped (r : ref) : M ref :=
  bytes ← readTyped r; allocTyped (slice_all bytes).

(** [a.slice()] on an array: a new array holding the same elements, that
    is the same references. *)
Definition sliceArray (r : ref) : M ref :=
  elements ← readArray r; allocArray (slice_all elements).

(** [a[i] = v] on a [Uint8Array]: stores [v] modulo 256; a store outside
    of the array is ignored. *)
Definition writeByte (r : ref) (i : Z) (v : Z) : M unit := fun st =>
  match typedArrays st !! r with
  | Some bytes =>
      let bytes' := if i <? 0 then bytes else <[Z.to_nat i := ToUint8 v]> bytes in
      Some (tt, mkStore (<[r := bytes']> (typedArrays st)) (arrays st))
  | None => None
  end.

(** [cloneStack] of common.ts: a new array of copies of the elements. *)
Fixpoint cloneElements (elements : list ref) : M (list ref) :=
  match elements with
  | [] => mret []
  | element :: rest =>
      copy ← sliceTyped element;
      copies ← cloneElements rest;
      mret (copy :: copies)
  end.

Definition cloneStack (r : ref) : M ref :=
  elements ← readArray r;
  copies ← cloneElements elements;
  allocArray copies.

(** A Bitcoin Cash program state as an object: every [Uint8Array] and the
    stack are held by reference. *)
Record StateObject : Type := mkStateObject {
  o_error : option CommonAuthenticationError;
  o_blockHeight : Z;
  o_blockTime : Z;
  o_correspondingOutputHash : ref;
  o_ip : nat;
  o_lastCodeSeparator : Z;
  o_locktime : Z;
  o_outpointIndex : Z;
  o_outpointTransactionHash : ref;
  o_outpointValue : Z;
  o_script : ref;
  o_sequenceNumber : Z;
  o_stack : ref;
  o_transactionOutpointsHash : ref;
  o_transactionOutputsHash : ref;
  o_transactionSequenceNumbersHash : ref;
  o_version : Z
}.

(** [bitcoinCashInstructionSet(...).clone]: the properties of the object
    literal, evaluated in the order they are written. *)
Definition clone (state : StateObject) : M StateObject :=
  correspondingOutputHash' ← sliceTyped (o_correspondingOutputHash state);
  outpointTransactionHash' ← sliceTyped (o_outpointTransactionHash state);
  script' ← sliceTyped (o_script state);
  stack' ← sliceArray (o_stack state);
  transactionOutpointsHash' ← sliceTyped (o_transactionOutpointsHash state);
  transactionOutputsHash' ← sliceTyped (o_transactionOutputsHash state);
  transactionSequenceNumbersHash' ← sliceTyped (o_transactionSequenceNumbersHash state);
  mret {| o_error := o_error state;
          o_blockHeight := o_blockHeight state;
          o_blockTime := o_blockTime state;
          o_correspondingOutputHash := correspondingOutputHash';
          o_ip := o_ip state;
          o_lastCodeSeparator := o_lastCodeSeparator state;
          o_locktime := o_locktime state;
          o_outpointIndex := o_outpointIndex state;
          o_outpointTransactionHash := outpointTransactionHash';
          o_outpointValue := o_outpointValue state;
          o_script := script';
          o_sequenceNumber := o_sequenceNumber state;
          o_stack := stack';
          o_transactionOutpointsHash := transactionOutpointsHash';
          o_transactionOutputsHash := transactionOutputsHash';
          o_transactionSequenceNumbersHash := transactionSequenceNumbersHash';
          o_version := o_version state |}.

(** The value of a state object: every reference replaced by the bytes it
    holds.  Two states are byte-identical when their values are equal. *)
Definition valueOf (st : Store) (state : StateObject) : option ProgramState :=
  correspondingOutputHash ← typedArrays st !! o_correspondingOutputHash state;
  outpointTransactionHash ← typedArrays st !! o_outpointTransactionHash state;
  script ← typedArrays st !! o_script state;
  elements ← arrays st !! o_stack state;
  stack ← mapM (fun element => typedArrays st !! element) elements;
  transactionOutpointsHash ← typedArrays st !! o_transactionOutpointsHash state;
  transactionOutputsHash ← typedArrays st !! o_transactionOutputsHash state;
  transactionSequenceNumbersHash ←
    typedArrays st !! o_transactionSequenceNumbersHash state;
  Some {| error := o_error state;
          ip := o_ip state;
          lastCodeSeparator := o_lastCodeSeparator state;
          script := script;
          stack := stack;
          external :=
            {| blockHeight := o_blockHeight state;
               blockTime := o_blockTime state;
               correspondingOutputHash := correspondingOutputHash;
               locktime := o_locktime state;
               outpointIndex := o_outpointIndex state;
               outpointTransactionHash := outpointTransactionHash;
               outpointValue := o_outpointValue state;
               sequenceNumber := o_sequenceNumber state;
               transactionOutpointsHash := transactionOutpointsHash;
               transactionOutputsHash := transactionOutputsHash;
               transactionSequenceNumbersHash := transactionSequenceNumbersHash;
               version := o_version state |} |}.

(** The [Uint8Array] objects reachable from a state: its script, its
    hashes and the elements of its stack. *)
Definition scriptAndHashes (state : StateObject) : list ref :=
  [ o_script state;
    o_correspondingOutputHash state;
    o_outpointTransactionHash state;
    o_transactionOutpointsHash state;
    o_transactionOutputsHash state;
    o_transactionSequenceNumbersHash state ].

Definition stackElements (st : Store) (state : StateObject) : list ref :=
  default [] (arrays st !! o_stack state).

(** Clone isolation at a state [state] of a store [st], as the spec words
    it: whichever byte of the script, of a hash or of a stack element of
    the clone is written, the value of [state] stays what it was. *)
Definition cloneIsolated (st : Store) (state : StateObject) : Prop :=
  forall state' st1, clone state st = Some (state', st1) ->
  forall r i v st2,
    r ∈ scriptAndHashes state' ++ stackElements st1 state' ->
    writeByte r i v st1 = Some (tt, st2) ->
    valueOf st2 state = valueOf st state.

(** One store extends another when it holds every object of the other,
    unchanged. *)
Definition extends (st st' : Store) : Prop :=
  typedArrays st ⊆ typedArrays st' /\ arrays st ⊆ arrays st'.

End Heap.

(* ===================================================================== *)
(** * Push-only scripts as the specification words them *)
(* ===================================================================== *)

Module PushOnlySpec.
Import Js.

(** The number of bytes a push opcode takes after itself: its payload,
    and for the OP_PUSHDATA opcodes the length field before it. *)
Definition operandLength (opcode : Z) (rest : Uint8Array) : nat :=
  if (BitcoinCashOpCodes.OP_DATA_1 <=? opcode) && (opcode <=? BitcoinCashOpCodes.OP_DATA_75)
  then Z.to_nat opcode
  else if opcode =? BitcoinCashOpCodes.OP_PUSHDATA1
  then 1 + Z.to_nat (Push.littleEndian (take 1 rest))
  else if opcode =? BitcoinCashOpCodes.OP_PUSHDATA2
  then 2 + Z.to_nat (Push.littleEndian (take 2 rest))
  else if opcode =? BitcoinCashOpCodes.OP_PUSHDATA4
  then 4 + Z.to_nat (Push.littleEndian (take 4 rest))
  else 0.

(** Section 4.7, step 3a: "no opcode beyond OP_16 appears at any top-level
    position"; the bytes of a push are skipped, not read as opcodes. *)
Equations? topLevelPushOnly (script : Uint8Array) : bool by wf (length script) lt :=
  topLevelPushOnly [] := true;
  topLevelPushOnly (opcode :: rest) :=
    if BitcoinCashOpCodes.OP_16 <? opcode
    then false
    else topLevelPushOnly (drop (operandLength opcode rest) rest).
Proof. rewrite length_drop. cbn [length]. lia. Qed.

End PushOnlySpec.

(* ===================================================================== *)
(** * Sample inputs *)
(* ===================================================================== *)

Module Samples.
Import Js State Operators VirtualMachine BitcoinCash.

(** The external state of the operator tests ([fullState]). *)
Definition fullState : ExternalState :=
  {| blockHeight := 0;
     blockTime := 0;
     correspondingOutputHash := [];
     locktime := 0;
     outpointIndex := 0;
     outpointTransactionHash := [];
     outpointValue := 0;
     sequenceNumber := 0;
     transactionOutpointsHash := [];
     transactionOutputsHash := [];
     transactionSequenceNumbersHash := [];
     version := 2 |}.

(** Stand-ins for the crypto providers and the encoding checks, to run
    the operators on concrete inputs: the "hashes" truncate or pad their
    input, every signature verifies, a public key is 33 bytes long. *)
Definition sha256_standIn (bytes : Uint8Array) : Uint8Array :=
  take 32 (bytes ++ replicate 32 0).

Definition ripemd160_standIn (bytes : Uint8Array) : Uint8Array :=
  take 20 (bytes ++ replicate 20 0).

Definition verify_standIn (signature publicKey digest : Uint8Array) : bool := true.

Definition publicKey_standIn (publicKey : Uint8Array) : bool := len publicKey =? 33.

Definition signature_standIn (signature : Uint8Array) : bool := 0 <? len signature.

Definition decode_standIn (bitcoinEncodedSignature : Uint8Array) : DecodedSignature :=
  {| signingSerializationType := slice bitcoinEncodedSignature (-1) (len bitcoinEncodedSignature);
     signature := slice bitcoinEncodedSignature 0 (-1) |}.

Definition serialization_standIn (version : Z)
    (transactionOutpointsHash transactionSequenceNumbersHash outpointTransactionHash : Uint8Array)
    (outpointIndex : Z) (scriptCode : Uint8Array) (outpointValue sequenceNumber : Z)
    (correspondingOutputHash transactionOutputsHash : Uint8Array) (locktime : Z)
    (signingSerializationType : Uint8Array) : Uint8Array :=
  transactionOutpointsHash ++ transactionSequenceNumbersHash ++ outpointTransactionHash
    ++ scriptCode ++ transactionOutputsHash ++ signingSerializationType.


Definition debug_standIn : ProgramState -> string -> option (list (DebuggingStep ProgramState)) :=
  bitcoinCashDebug sha256_standIn ripemd160_standIn verify_standIn publicKey_standIn
    signature_standIn decode_standIn serialization_standIn.

(** A pay-to-script-hash locking script: OP_HASH160, OP_DATA_20, the
    twenty bytes [hash], OP_EQUAL. *)
Definition p2shLockingScript (hash : Uint8Array) : Uint8Array :=
  [BitcoinCashOpCodes.OP_HASH160; BitcoinCashOpCodes.OP_DATA_20]
    ++ take 20 (hash ++ replicate 20 0) ++ [BitcoinCashOpCodes.OP_EQUAL].

(** An unlocking script of one push: OP_DATA_1 with the payload 0xff. *)
Definition pushOfFF : Uint8Array := [1; 255].

(** An unlocking script for a P2SH output: OP_1, then a push of the
    redeem script [OP_1]. *)
Definition redeemScript : Uint8Array := [81].
Definition unlockingWithRedeemScript : Uint8Array := [81; 1; 81].

Definition p2shProgram : AuthenticationProgram :=
  {| lockingScript := p2shLockingScript (ripemd160_standIn (sha256_standIn redeemScript));
     programState := fullState;
     unlockingScript := unlockingWithRedeemScript |}.

(** The three traces of [p2shProgram] and the final states of the first two. *)
Definition unlockingTrace : list (DebuggingStep ProgramState) :=
  default [] (debug_standIn (passState [] fullState unlockingWithRedeemScript)
                            "Begin unlocking script evaluation.").

Definition unlockingFinal : ProgramState :=
  {| error := None; ip := 3; lastCodeSeparator := -1;
     script := unlockingWithRedeemScript; stack := [[1]; redeemScript];
     external := fullState |}.

Definition lockingTrace : list (DebuggingStep ProgramState) :=
  default [] (debug_standIn (passState [[1]; redeemScript] fullState
                                       (lockingScript p2shProgram))
                            "Begin locking script evaluation.").

Definition lockingFinal : ProgramState :=
  {| error := None; ip := 23; lastCodeSeparator := -1;
     script := lockingScript p2shProgram; stack := [[1]; [1]];
     external := fullState |}.

Definition p2shTrace : list (DebuggingStep ProgramState) :=
  default [] (debug_standIn (passState [[1]] fullState redeemScript)
                            "Begin P2SH script evaluation.").

(** States for the stack-reading operators: a lone element, and a
    signature below a public key of 33 bytes. *)
Definition loneElementState : ProgramState :=
  {| error := None; ip := 1; lastCodeSeparator := -1; script := [135];
     stack := [[1]]; external := fullState |}.

Definition signatureAndKeyState : ProgramState :=
  {| error := None; ip := 1; lastCodeSeparator := -1; script := [172];
     stack := [[7]; [48; 65]; 2 :: replicate 32 9]; external := fullState |}.





(** A store with one state object: its script at reference 1, its five
    hashes at 2 to 6, and a stack (the array at reference 1) of one
    element, the [Uint8Array] at reference 7 holding the byte 01. *)
Definition sampleStore : Heap.Store :=
  {| Heap.typedArrays :=
       list_to_map [(1%positive, [118]); (2%positive, [10]); (3%positive, [11]);
                    (4%positive, [12]); (5%positive, [13]); (6%positive, [14]);
                    (7%positive, [1])];
     Heap.arrays := {[ 1%positive := [7%positive] ]} |}.

Definition sampleObject : Heap.StateObject :=
  {| Heap.o_error := None;
     Heap.o_blockHeight := 0;
     Heap.o_blockTime := 0;
     Heap.o_correspondingOutputHash := 2%positive;
     Heap.o_ip := 0;
     Heap.o_lastCodeSeparator := -1;
     Heap.o_locktime := 0;
     Heap.o_outpointIndex := 0;
     Heap.o_outpointTransactionHash := 3%positive;
     Heap.o_outpointValue := 0;
     Heap.o_script := 1%positive;
     Heap.o_sequenceNumber := 0;
     Heap.o_stack := 1%positive;
     Heap.o_transactionOutpointsHash := 4%positive;
     Heap.o_transactionOutputsHash := 5%positive;
     Heap.o_transactionSequenceNumbersHash := 6%positive;
     Heap.o_version := 2 |}.

(** [clone(sampleObject)], then [clone.stack[0][0] = 2]: the stack of the
    original as read in the store this leaves. *)
Definition originalStackAfterWrite : option (list Uint8Array) :=
  match Heap.clone sampleObject sampleStore with
  | Some (clone, st1) =>
      match Heap.stackElements st1 clone with
      | element :: _ =>
          match Heap.writeByte element 0 2 st1 with
          | Some (_, st2) => stack <$> Heap.valueOf st2 sampleObject
          | None => None
          end
      | [] => None
      end
  | None => None
  end.

End Samples.

(* ===================================================================== *)
(** * src/lib/utils.ts: numbers, ranges and hexadecimal text *)
(* ===================================================================== *)

Module Numbers.
Import Js Utils.

(** A JavaScript number that holds an integer, or one of the values that
    are not finite. *)
Inductive JsNumber : Type :=
| Finite (z : Z)
| NaN
| PosInfinity
| NegInfinity.

(** The double nearest to an integer. *)
Definition ofInteger (z : Z) : JsNumber :=
  match NumberOfBigInt z with
  | Some r => Finite r
  | None => if 0 <? z then PosInfinity else NegInfinity
  end.

(** [a + b] and [a * b] on such numbers: the exact result, rounded. *)
Definition add (a b : JsNumber) : JsNumber :=
  match a, b with
  | NaN, _ | _, NaN => NaN
  | PosInfinity, NegInfinity | NegInfinity, PosInfinity => NaN
  | PosInfinity, _ | _, PosInfinity => PosInfinity
  | NegInfinity, _ | _, NegInfinity => NegInfinity
  | Finite x, Finite y => ofInteger (x + y)
  end.

Definition infinityOfSign (sign : Z) : JsNumber :=
  if sign =? 0 then NaN else if 0 <? sign then PosInfinity else NegInfinity.

Definition mul (a b : JsNumber) : JsNumber :=
  match a, b with
  | NaN, _ | _, NaN => NaN
  | Finite x, Finite y => ofInteger (x * y)
  | Finite x, PosInfinity | PosInfinity, Finite x => infinityOfSign x
  | Finite x, NegInfinity | NegInfinity, Finite x => infinityOfSign (- x)
  | PosInfinity, PosInfinity | NegInfinity, NegInfinity => PosInfinity
  | PosInfinity, NegInfinity | NegInfinity, PosInfinity => NegInfinity
  end.

(** [2 ** exponent] for an exponent that is not negative. *)
Definition powerOfTwo (exponent : Z) : JsNumber :=
  if 1024 <=? exponent then PosInfinity else Finite (2 ^ exponent).

(** An array element as a number: [undefined] is NaN in arithmetic. *)
Definition ofElement (element : option Z) : JsNumber :=
  match element with
  | Some b => Finite b
  | None => NaN
  end.

(** A store of a number into a [Uint8Array]. *)
Definition toUint8 (x : JsNumber) : Z :=
  match x with
  | Finite z => ToUint8 z
  | _ => 0
  end.

(** ToUint32, for [value >>> bits]. *)
Definition ToUint32 (z : Z) : Z := z mod 2 ^ 32.

(** [numberToBinUintLE(value, bytes)] on an integer [value]: each round
    stores [value] and replaces it by [value >>> 8]. *)
Fixpoint numberToBinUintLE_loop (bytes : nat) (value : Z) : Uint8Array :=
  match bytes with
  | O => []
  | S bytes' => ToUint8 value :: numberToBinUintLE_loop bytes' (Z.shiftr (ToUint32 value) 8)
  end.

Definition numberToBinUintLE (value : Z) (bytes : nat) : Uint8Array :=
  numberToBinUintLE_loop bytes value.

Definition numberToBinUint16LE (value : Z) : Uint8Array := numberToBinUintLE value 2.
Definition numberToBinUint32LE (value : Z) : Uint8Array := numberToBinUintLE value 4.

(** [binToNumberUintLE(bin, bytes)]:
    [value += bin[offset] * base ** (bitsInAByte * offset)]. *)
Fixpoint binToNumberUintLE_loop (bin : Uint8Array) (count : nat) (offset : Z)
    (value : JsNumber) : JsNumber :=
  match count with
  | O => value
  | S count' =>
      binToNumberUintLE_loop bin count' (offset + 1)
        (add value (mul (ofElement (index bin offset)) (powerOfTwo (8 * offset))))
  end.

Definition binToNumberUintLE (bin : Uint8Array) (bytes : nat) : JsNumber :=
  binToNumberUintLE_loop bin bytes 0 (Finite 0).

Definition binToNumberUint16LE (bin : Uint8Array) : JsNumber := binToNumberUintLE bin 2.
Definition binToNumberUint32LE (bin : Uint8Array) : JsNumber := binToNumberUintLE bin 4.

End Numbers.

Module Hex.
Import Js Utils Numbers.

(** [range(length, begin)]: [Array.from({ length }, (_, index) => begin + index)].
    A length that is NaN or not positive gives the empty array; one above
    2^32 - 1 is a RangeError ([None]). *)
Definition range (length : JsNumber) (begin : Z) : option (list Z) :=
  match length with
  | Finite n =>
      if n <=? 0 then Some []
      else if 4294967295 <? n then None
      else Some (map (fun index => begin + Z.of_nat index) (seq 0 (Z.to_nat n)))
  | PosInfinity => None
  | NaN | NegInfinity => Some []
  end.

(** [Math.ceil(length / chunkLength)] for the length of a string and an
    integer [chunkLength]. *)
Definition ceilOfQuotient (length chunkLength : Z) : JsNumber :=
  if chunkLength =? 0
  then if length =? 0 then NaN else PosInfinity
  else Finite (- ((- length) / chunkLength)).

(** [s.slice(begin, end)] on a string. *)
Definition stringSlice (s : string) (begin end_ : Z) : string :=
  let n := Z.of_nat (String.length s) in
  let b := clamp_index n begin in
  let e := clamp_index n end_ in
  String.substring (Z.to_nat b) (Z.to_nat (e - b)) s.

Definition splitEvery (input : string) (chunkLength : Z) : option (list string) :=
  indices ← range (ceilOfQuotient (Z.of_nat (String.length input)) chunkLength) 0;
  Some (map (fun begin => stringSlice input begin (begin + chunkLength))
            (map (fun index => index * chunkLength) indices)).

(** [parseInt(text, 16)] on a string of code units below 256: white space
    is skipped, then a sign, then [0x] or [0X], and the longest run of
    hexadecimal digits is read; without a digit the result is NaN. *)
Definition isWhiteSpace (c : Ascii.ascii) : bool :=
  let n := Ascii.nat_of_ascii c in
  bool_decide (n ∈ [9; 10; 11; 12; 13; 32; 160]%nat).

Fixpoint trimStart (s : string) : string :=
  match s with
  | String c rest => if isWhiteSpace c then trimStart rest else s
  | EmptyString => s
  end.

Definition digitValue (c : Ascii.ascii) : option Z :=
  let n := Z.of_nat (Ascii.nat_of_ascii c) in
  if (48 <=? n) && (n <=? 57) then Some (n - 48)
  else if (97 <=? n) && (n <=? 102) then Some (n - 87)
  else if (65 <=? n) && (n <=? 70) then Some (n - 55)
  else None.

Fixpoint digitsPrefix (s : string) (value : Z) (seen : bool) : option Z :=
  match s with
  | String c rest =>
      match digitValue c with
      | Some d => digitsPrefix rest (16 * value + d) true
      | None => if seen then Some value else None
      end
  | EmptyString => if seen then Some value else None
  end.

(** The code unit of a character. *)
Definition codeUnit (c : Ascii.ascii) : nat := Ascii.nat_of_ascii c.

(** A leading [-] (code unit 45) or [+] (43). *)
Definition stripSign (s : string) : Z * string :=
  match s with
  | String c rest =>
      if (codeUnit c =? 45)%nat then (-1, rest)
      else if (codeUnit c =? 43)%nat then (1, rest)
      else (1, s)
  | EmptyString => (1, s)
  end.

(** A leading [0x] or [0X] (code units 48, then 120 or 88). *)
Definition stripHexPrefix (s : string) : string :=
  match s with
  | String c (String d rest) =>
      if (codeUnit c =? 48)%nat && ((codeUnit d =? 120)%nat || (codeUnit d =? 88)%nat)
      then rest
      else s
  | _ => s
  end.

Definition parseInt16 (text : string) : JsNumber :=
  let '(sign, s) := stripSign (trimStart text) in
  match digitsPrefix (stripHexPrefix s) 0 false with
  | Some magnitude => ofInteger (sign * magnitude)
  | None => NaN
  end.

(** [hexToBin]: a [Uint8Array] of the [parseInt] of every chunk of two
    characters. *)
Definition hexToBin (hex : string) : option Uint8Array :=
  chunks ← splitEvery hex 2;
  Some (map (fun byte => toUint8 (parseInt16 byte)) chunks).

(** [swapEndianness]: [binToHex(hexToBin(hex).reverse())]. *)
Definition swapEndianness (hex : string) : option string :=
  bin ← hexToBin hex;
  Some (binToHex (reverse bin)).

End Hex.

(* ===================================================================== *)
(** * push.ts on a script that is a view of a larger buffer *)
(* ===================================================================== *)

Module PushView.
Import Js Utils Common State Push.

(** A state together with the buffer behind its script: [state.script]
    shows [state.script.length] bytes of [state.script.buffer], from
    [state.script.byteOffset] on.  A script made by [slice] starts at
    offset 0 of a buffer of its own; one made by [subarray] does not. *)
Record ViewedState : Type := mkViewedState {
  inner : ProgramState;
  scriptBuffer : Uint8Array;
  scriptByteOffset : nat
}.

Definition isView (state : ViewedState) : Prop :=
  (scriptByteOffset state + length (script (inner state))
   <= length (scriptBuffer state))%nat
  /\ script (inner state)
     = take (length (script (inner state)))
            (drop (scriptByteOffset state) (scriptBuffer state)).

(** A change of the state that leaves the buffer of the script alone. *)
Definition onInner (f : ProgramState -> ProgramState) (state : ViewedState) : ViewedState :=
  mkViewedState (f (inner state)) (scriptBuffer state) (scriptByteOffset state).

(** [readLittleEndianLength(script, ip, lengthBits, type)]:
    [new DataView(script.buffer, ip, lengthBits)] starts at offset [ip]
    of the buffer, whatever the offset of [script] in it.  [None] is the
    RangeError of a view or of a read that leaves the buffer. *)
Definition readLittleEndianLength (state : ViewedState) (ip : nat) (lengthBits : nat)
    (type : Uint) : option Z :=
  if (length (scriptBuffer state) <? ip + lengthBits)%nat then None
  else
    let view := take lengthBits (drop ip (scriptBuffer state)) in
    if (lengthBits <? uintWidth type)%nat then None
    else Some (littleEndian (take (uintWidth type) view)).

Definition pushDataVariableMethod {Result} (lengthBits : nat) (type : Uint)
    (minimum maximum : Z)
    (insufficientLengthBits : ViewedState -> Result)
    (insufficientTotalBits belowMinimumLength aboveMaximumLength valid
       : ViewedState -> Z -> Z -> Result)
    (state : ViewedState) : option Result :=
  let pushBegin := Z.of_nat (ip (inner state)) + Z.of_nat lengthBits in
  if len (script (inner state)) <? pushBegin
  then Some (insufficientLengthBits state)
  else
    match readLittleEndianLength state (ip (inner state)) lengthBits type with
    | None => None
    | Some length =>
        if len (script (inner state)) <? pushBegin + length
        then Some (insufficientTotalBits state pushBegin length)
        else if length <? minimum
        then Some (belowMinimumLength state pushBegin length)
        else if maximum <? length
        then Some (aboveMaximumLength state pushBegin length)
        else Some (valid state pushBegin length)
    end.

Definition stringResult (lengthBits : nat) (type : Uint) (minimum maximum : Z)
    (missing : ViewedState -> string) (print : ViewedState -> Z -> Z -> string)
  : ViewedState -> option string :=
  pushDataVariableMethod lengthBits type minimum maximum missing print print print print.

Definition createPushDataOperator (lengthBits : nat) (type : Uint)
    (minimum maximum : Z) : Operator ViewedState :=
  {| asm := stringResult lengthBits type minimum maximum
       (fun _ => "OP_PUSHDATA" +:+ pretty lengthBits +:+ " [missing "
                   +:+ (match type with
                        | Uint8 => "byte"
                        | _ => pretty lengthBits +:+ " bytes"
                        end) +:+ "]")
       (fun state pushBegin length =>
          "OP_PUSHDATA" +:+ pretty lengthBits +:+ " " +:+ pretty length +:+ " "
            +:+ pushToAsm (script (inner state)) pushBegin (pushBegin + length));
     description := stringResult lengthBits type minimum maximum
       (fun _ => "Read the next "
                   +:+ (match type with Uint8 => "" | _ => "little-endian " end)
                   +:+ uintName type
                   +:+ " (missing) and push that number of bytes onto the stack.")
       (fun state pushBegin length =>
          "Read the next "
            +:+ (match type with Uint8 => "" | _ => "little-endian " end)
            +:+ uintName type +:+ " ("
            +:+ pushToAsm (script (inner state)) (Z.of_nat (ip (inner state))) pushBegin
            +:+ ") and push that number of bytes (" +:+ pretty length
            +:+ ") onto the stack.");
     operation := pushDataVariableMethod lengthBits type minimum maximum
       (fun state => onInner (applyError malformedPush) state)
       (fun state _ _ => onInner (applyError malformedPush) state)
       (fun state _ _ => onInner (applyError nonMinimalPush) state)
       (fun state _ _ => onInner (applyError exceedsMaximumPush) state)
       (fun state pushBegin length =>
          let pushEnd := pushBegin + length in
          onInner (fun inner =>
                     set_ip (Z.to_nat pushEnd)
                            (stack_push (slice (script inner) pushBegin pushEnd) inner))
                  state) |}.

(** A script that spans a buffer of its own, as [slice] makes it. *)
Definition spanning (state : ProgramState) : ViewedState :=
  mkViewedState state (script state) 0.

(** The result of an operation on such a script: pushes never change the
    script, so the buffer behind the result is the same. *)
Definition spanning_result (state : ProgramState) (result : option ProgramState)
  : option ViewedState :=
  match result with
  | Some state' => Some (mkViewedState state' (script state) 0)
  | None => None
  end.

End PushView.

Module ViewSamples.
Import Js State Push BitcoinCash PushView.

(** A script that starts at offset 0 of a longer buffer: OP_PUSHDATA2,
    the length 256 and 256 bytes, followed in the buffer by two bytes
    that are not of the script. *)
Definition prefixViewState : ViewedState :=
  {| inner := set_ip 1 (passState [] Samples.fullState
                          (77 :: 0 :: 1 :: replicate 256 170));
     scriptBuffer := 77 :: 0 :: 1 :: replicate 256 170 ++ [9; 9];
     scriptByteOffset := 0 |}.

Definition prefixViewPushed : ViewedState :=
  onInner (fun inner => set_ip 259 (set_stack [replicate 256 170] inner)) prefixViewState.

(** A script made by [subarray(1)]: OP_PUSHDATA1, the length 77 and 77
    bytes, at offset 1 of its buffer. *)
Definition subarrayViewState : ViewedState :=
  {| inner := set_ip 1 (passState [] Samples.fullState
                          (76 :: 77 :: replicate 77 170));
     scriptBuffer := 0 :: 76 :: 77 :: replicate 77 170;
     scriptByteOffset := 1 |}.

End ViewSamples.

(* ===================================================================== *)
(** * Properties *)
(* ===================================================================== *)

Import Js Utils Common ScriptNumberSpec State.

(** ** Bytes *)

(** A boolean property that holds of each of the 256 bytes holds of every byte. *)
Lemma byte_forallb (P : Z -> bool) :
  forallb P (map Z.of_nat (seq 0 256)) = true ->
  forall b, is_byte b -> P b = true.
Proof.
  intros Hall b [Hlo Hhi].
  rewrite forallb_forall in Hall. apply Hall.
  apply in_map_iff. exists (Z.to_nat b). split; [lia|].
  apply in_seq. lia.
Qed.

Ltac by_byte_cases b Hb :=
  revert b Hb;
  match goal with
  | |- forall b, is_byte b -> @?f b = @?g b =>
      intros b Hb;
      apply Bool.eqb_prop;
      apply (byte_forallb (fun x => Bool.eqb (f x) (g x)));
      [vm_compute; reflexivity | exact Hb]
  end.

Lemma byte_and_127 b :
  is_byte b -> (int32_and (ToInt32 b) 127 =? 0) = (b mod 128 =? 0).
Proof. intros Hb. by_byte_cases b Hb. Qed.

Lemma byte_and_128 b :
  is_byte b -> (int32_and (ToInt32 b) 128 =? 0) = (b <? 128).
Proof. intros Hb. by_byte_cases b Hb. Qed.

Lemma byte_and_128_pos b :
  is_byte b -> (0 <? int32_and (ToInt32 b) 128) = (128 <=? b).
Proof. intros Hb. by_byte_cases b Hb. Qed.

Lemma byte_or_128 b :
  is_byte b -> (int32_or (ToInt32 b) 128 =? b mod 128 + 128) = true.
Proof. intros Hb. by_byte_cases b Hb. Qed.

Lemma byte_lowSevenBitsZero b :
  is_byte b -> lowSevenBitsZero b = (b mod 128 =? 0).
Proof. intros Hb. by_byte_cases b Hb. Qed.

Lemma byte_highBit b :
  is_byte b -> highBit b = (128 <=? b).
Proof. intros Hb. by_byte_cases b Hb. Qed.

Lemma byte_ToUint8 b : is_byte b -> ToUint8 b = b.
Proof. intros [? ?]. unfold ToUint8. apply Z.mod_small. lia. Qed.

(** ** Bitwise facts on integers *)

Lemma testbit_small a k n :
  0 <= a < 2 ^ k -> k <= n -> Z.testbit a n = false.
Proof.
  intros [Ha Hlt] Hkn.
  destruct (Z.eq_dec a 0) as [->|Hne]; [apply Z.bits_0|].
  apply Z.bits_above_log2; [lia|].
  assert (Z.log2 a < k); [|lia].
  apply Z.log2_lt_pow2; lia.
Qed.

Lemma lor_shiftl_add acc b k :
  0 <= k -> 0 <= acc < 2 ^ k -> Z.lor acc (Z.shiftl b k) = acc + Z.shiftl b k.
Proof.
  intros Hk Hacc.
  assert (Hdisjoint : Z.land acc (Z.shiftl b k) = 0).
  { apply Z.bits_inj'. intros n Hn.
    rewrite Z.land_spec, Z.bits_0.
    destruct (Z.lt_ge_cases n k) as [Hlt|Hge].
    - rewrite Z.shiftl_spec_low by lia. apply andb_false_r.
    - rewrite (testbit_small acc k n) by lia. reflexivity. }
  rewrite <- Z.lxor_lor by exact Hdisjoint.
  symmetry. apply Z.add_nocarry_lxor. exact Hdisjoint.
Qed.

Lemma pow2_8_succ i : 0 <= i -> 2 ^ (8 * (i + 1)) = 256 * 2 ^ (8 * i).
Proof.
  intros Hi. replace (8 * (i + 1)) with (8 + 8 * i) by lia.
  rewrite Z.pow_add_r by lia. reflexivity.
Qed.

Lemma magnitudeSum_bound bytes i :
  bytes_ok bytes -> 0 <= i ->
  0 <= magnitudeSum bytes i /\
  magnitudeSum bytes i + 2 ^ (8 * i) <= 2 ^ (8 * (i + len bytes)).
Proof.
  intros Hok. revert i.
  induction Hok as [|b rest Hb Hrest IH]; intros i Hi.
  - cbn [magnitudeSum]. unfold len. cbn [length]. rewrite Z.add_0_r. lia.
  - cbn [magnitudeSum].
    destruct (IH (i + 1) ltac:(lia)) as [IHlo IHhi].
    rewrite Z.shiftl_mul_pow2 by lia.
    assert (Hp : 0 < 2 ^ (8 * i)) by (apply Z.pow_pos_nonneg; lia).
    rewrite pow2_8_succ in IHhi by lia.
    replace (i + len (b :: rest)) with (i + 1 + len rest)
      by (unfold len; cbn [length]; lia).
    destruct Hb as [Hb0 Hb1].
    split; [nia|nia].
Qed.

Lemma parseLoop_sum rest i acc :
  bytes_ok rest -> 0 <= i -> 0 <= acc < 2 ^ (8 * i) ->
  parseLoop rest i acc = acc + magnitudeSum rest i.
Proof.
  intros Hok. revert i acc.
  induction Hok as [|b rest Hb Hrest IH]; intros i acc Hi Hacc.
  - cbn [parseLoop magnitudeSum]. lia.
  - cbn [parseLoop magnitudeSum].
    replace (i * 8) with (8 * i) by lia.
    rewrite lor_shiftl_add by lia.
    rewrite IH; [lia|lia|].
    rewrite Z.shiftl_mul_pow2 by lia.
    rewrite pow2_8_succ by lia.
    assert (Hp : 0 < 2 ^ (8 * i)) by (apply Z.pow_pos_nonneg; lia).
    destruct Hb as [Hb0 Hb1].
    split; nia.
Qed.

(** The mask [~(signFlippingByte << (bitsPerByte * (length - 1)))] clears
    the sign bit of the magnitude, for each of the four lengths. *)
Lemma land_lnot_pow2 u j :
  0 <= j -> Z.land u (Z.lnot (2 ^ j)) = Z.clearbit u j.
Proof.
  intros Hj. rewrite <- Z.ldiff_land.
  unfold Z.clearbit. rewrite Z.shiftl_1_l. reflexivity.
Qed.

Lemma land_ones_31 u :
  0 <= u < 2 ^ 32 -> Z.land u 2147483647 = Z.clearbit u 31.
Proof.
  intros Hu. change 2147483647 with (Z.ones 31).
  apply Z.bits_inj'. intros n Hn.
  rewrite Z.land_spec, Z.clearbit_eqb, Z.testbit_ones_nonneg by lia.
  destruct (Z.ltb_spec n 31) as [Hlt|Hge].
  - destruct (Z.eqb_spec 31 n); [lia|]. reflexivity.
  - destruct (Z.eqb_spec 31 n) as [<-|Hne]; [cbn [negb]; rewrite !andb_false_r; reflexivity|].
    rewrite (testbit_small u 32 n) by lia. reflexivity.
Qed.

Lemma sign_mask_clears u length :
  1 <= length <= 4 -> 0 <= u < 2 ^ (8 * length) ->
  Z.land u (int32_not (int32_shl 128 (8 * (length - 1))))
  = Z.clearbit u (8 * length - 1).
Proof.
  intros Hlen Hu.
  assert (Hcases : length = 1 \/ length = 2 \/ length = 3 \/ length = 4) by lia.
  destruct Hcases as [-> | [-> | [-> | ->]]].
  - change (int32_not (int32_shl 128 (8 * (1 - 1)))) with (Z.lnot (2 ^ 7)).
    apply land_lnot_pow2. lia.
  - change (int32_not (int32_shl 128 (8 * (2 - 1)))) with (Z.lnot (2 ^ 15)).
    apply land_lnot_pow2. lia.
  - change (int32_not (int32_shl 128 (8 * (3 - 1)))) with (Z.lnot (2 ^ 23)).
    apply land_lnot_pow2. lia.
  - change (int32_not (int32_shl 128 (8 * (4 - 1)))) with 2147483647.
    apply land_ones_31. exact Hu.
Qed.

(** ** Script Numbers: the parser *)

Lemma index_last {A} (a : list A) : index a (len a - 1) = last a.
Proof.
  unfold index, len. rewrite last_lookup.
  destruct a as [|x a]; [reflexivity|].
  cbn [length].
  destruct (Z.ltb_spec (Z.of_nat (S (length a)) - 1) 0); [lia|].
  f_equal. lia.
Qed.

Lemma len_snoc {A} (a : list A) (x : A) : len (a ++ [x]) = len a + 1.
Proof. unfold len. rewrite length_app. cbn [length]. lia. Qed.

Lemma len_nonneg {A} (a : list A) : 0 <= len a.
Proof. unfold len. lia. Qed.

Lemma index_is_byte bytes i b :
  bytes_ok bytes -> index bytes i = Some b -> is_byte b.
Proof.
  unfold index. intros Hok Hi.
  destruct (i <? 0); [discriminate|].
  exact (proj1 (Forall_lookup _ _) Hok _ _ Hi).
Qed.

Lemma second_byte_check (v : option Z) :
  (forall b, v = Some b -> is_byte b) ->
  (int32_and (ToInt32_value v) 128 =? 0) = negb (highBit (default 0 v)).
Proof.
  intros Hv. destruct v as [b|]; [|reflexivity].
  change (default 0 (Some b)) with b. cbn [ToInt32_value].
  rewrite byte_and_128, byte_highBit by auto.
  rewrite Z.leb_antisym, negb_involutive. reflexivity.
Qed.

Lemma parse_refines_spec (bytes : Uint8Array) :
  bytes_ok bytes -> parseBytesAsScriptNumber bytes = parseScriptNumber bytes.
Proof.
  intros Hok.
  destruct bytes as [|b0 rest]; [reflexivity|].
  unfold parseBytesAsScriptNumber, parseScriptNumber. cbv zeta iota.
  remember (b0 :: rest) as bytes eqn:Hbytes.
  assert (Hlen : 1 <= len bytes)
    by (subst bytes; unfold len; cbn [length]; lia).
  destruct (Z.eqb_spec (len bytes) 0) as [|_]; [lia|].
  destruct (Z.ltb_spec 4 (len bytes)) as [|Hle4]; [reflexivity|].
  rewrite index_last.
  destruct (last bytes) as [top|] eqn:Htop;
    [|subst bytes; rewrite last_cons in Htop; destruct (last rest); discriminate].
  assert (Htopb : is_byte top).
  { apply (index_is_byte bytes (len bytes - 1)); [exact Hok|].
    rewrite index_last. exact Htop. }
  change (default 0 (Some top)) with top.
  cbn [ToInt32_value].
  rewrite byte_and_127, byte_and_128 by exact Htopb.
  rewrite <- byte_lowSevenBitsZero by exact Htopb.
  replace (len bytes - 1 - 1) with (len bytes - 2) by lia.
  rewrite second_byte_check by eauto using index_is_byte.
  destruct (lowSevenBitsZero top
            && ((len bytes <=? 1)
                || negb (highBit (default 0 (index bytes (len bytes - 2))))));
    [reflexivity|].
  rewrite parseLoop_sum by (try exact Hok; cbn; lia).
  rewrite Z.add_0_l.
  rewrite byte_highBit, Z.leb_antisym by exact Htopb.
  destruct (top <? 128); cbn [negb]; [reflexivity|].
  rewrite sign_mask_clears; [reflexivity|lia|].
  pose proof (magnitudeSum_bound bytes 0 Hok ltac:(lia)) as [Hlo Hhi].
  rewrite Z.add_0_l in Hhi. change (2 ^ (8 * 0)) with 1 in Hhi. lia.
Qed.


Lemma index_before_last {A} (init : list A) (top : A) :
  index (init ++ [top]) (len (init ++ [top]) - 2) = last init.
Proof.
  destruct init as [|x init] using rev_ind.
  - reflexivity.
  - rewrite last_snoc. unfold index.
    rewrite !len_snoc. pose proof (len_nonneg init).
    destruct (Z.ltb_spec (len init + 1 + 1 - 2) 0) as [Hneg|_]; [lia|].
    replace (Z.to_nat (len init + 1 + 1 - 2)) with (length init) by (unfold len; lia).
    rewrite <- app_assoc. cbn [app]. apply list_lookup_middle. reflexivity.
Qed.

(** C2: [parseBytesAsScriptNumber] classifies every byte array as the
    specification says (it equals the parser written from section 4.3):
    the empty array is 0; more than four bytes are out of range; a
    non-empty array of at most four bytes requires a minimal encoding
    exactly when the low seven bits of its top byte are zero and its
    length is at most 1 or the high bit of the byte below is clear; every
    other input is the little-endian magnitude, negated with the sign bit
    cleared when the 0x80 bit of the top byte is set. *)
Theorem parseBytesAsScriptNumber_classifies (bytes : Uint8Array) :
  bytes_ok bytes ->
  parseBytesAsScriptNumber bytes = parseScriptNumber bytes
  /\ (bytes = [] -> parseBytesAsScriptNumber bytes = inl 0)
  /\ (4 < len bytes -> parseBytesAsScriptNumber bytes = inr outOfRange)
  /\ (forall init top,
        bytes = init ++ [top] -> len bytes <= 4 ->
        let nonMinimal :=
          lowSevenBitsZero top
          && ((len bytes <=? 1) || negb (highBit (default 0 (last init)))) in
        (parseBytesAsScriptNumber bytes = inr requiresMinimal <-> nonMinimal = true)
        /\ (nonMinimal = false ->
            parseBytesAsScriptNumber bytes
            = inl (if highBit top
                   then - Z.clearbit (magnitudeSum bytes 0) (8 * len bytes - 1)
                   else magnitudeSum bytes 0))).
Proof.
  intros Hok. pose proof (parse_refines_spec bytes Hok) as Hspec.
  split; [exact Hspec|]. split; [|split].
  - intros ->. reflexivity.
  - intros Hlong. rewrite Hspec. unfold parseScriptNumber.
    destruct bytes as [|b0 rest]; [unfold len in Hlong; cbn in Hlong; lia|].
    destruct (Z.ltb_spec 4 (len (b0 :: rest))); [reflexivity|lia].
  - intros init top -> Hshort. cbv zeta.
    rewrite Hspec. unfold parseScriptNumber.
    destruct (init ++ [top]) as [|b0 rest] eqn:Hbytes;
      [destruct init; discriminate|].
    rewrite <- Hbytes in *. cbv zeta.
    destruct (Z.ltb_spec 4 (len (init ++ [top]))) as [|_]; [lia|].
    rewrite last_snoc, index_before_last.
    change (default 0 (Some top)) with top.
    destruct (lowSevenBitsZero top && _); split.
    + split; reflexivity.
    + discriminate.
    + split; [|discriminate]. destruct (highBit top); discriminate.
    + intros _. destruct (highBit top); reflexivity.
Qed.

(** The theorem at [0xff 0x80], the encoding of -255. *)
Lemma parseBytesAsScriptNumber_classifies_witness :
  bytes_ok [255; 128]
  /\ parseBytesAsScriptNumber [255; 128] = parseScriptNumber [255; 128]
  /\ parseBytesAsScriptNumber [255; 128] = inl (-255).
Proof.
  assert (Hok : bytes_ok [255; 128])
    by (repeat constructor; unfold is_byte; lia).
  destruct (parseBytesAsScriptNumber_classifies [255; 128] Hok)
    as (Hspec & _ & _ & Hcases).
  split; [exact Hok|]. split; [exact Hspec|].
  destruct (Hcases [255] 128 eq_refl) as [_ Hvalue];
    [vm_compute; discriminate|].
  rewrite Hvalue; reflexivity.
Defined.

(** ** Script Numbers: the encoder *)

Lemma encodeLoop_step remaining bytes :
  0 < remaining ->
  encodeLoop remaining bytes
  = encodeLoop (remaining / 256) (bytes ++ [remaining mod 256]).
Proof.
  intros Hpos. rewrite encodeLoop_equation_1.
  destruct (Z_lt_dec 0 remaining) as [Hlt|Hge]; [|lia].
  rewrite encodeLoop_clause_1_equation_1.
  rewrite Z.shiftr_div_pow2 by lia.
  change 255 with (Z.ones 8). rewrite Z.land_ones by lia.
  reflexivity.
Qed.

Lemma encodeLoop_done remaining bytes :
  remaining <= 0 -> encodeLoop remaining bytes = bytes.
Proof.
  intros Hle. rewrite encodeLoop_equation_1.
  destruct (Z_lt_dec 0 remaining) as [Hlt|Hge]; [lia|reflexivity].
Qed.

Lemma encodeLoop_app remaining :
  0 <= remaining ->
  forall bytes, encodeLoop remaining bytes = bytes ++ encodeLoop remaining [].
Proof.
  revert remaining. apply (Z_lt_induction
    (fun r => forall bytes, encodeLoop r bytes = bytes ++ encodeLoop r [])).
  intros r IH bytes.
  destruct (Z_lt_dec 0 r) as [Hpos|Hzero].
  - assert (Hq : 0 <= r / 256 < r)
      by (split; [apply Z.div_pos; lia | apply Z.div_lt; lia]).
    rewrite (encodeLoop_step r bytes), (encodeLoop_step r []) by exact Hpos.
    rewrite (IH _ Hq (bytes ++ [r mod 256])), (IH _ Hq ([] ++ [r mod 256])).
    rewrite <- app_assoc. reflexivity.
  - rewrite !encodeLoop_done by lia. rewrite app_nil_r. reflexivity.
Qed.

Lemma magnitudeSum_shift bytes i :
  0 <= i -> magnitudeSum bytes (i + 1) = 256 * magnitudeSum bytes i.
Proof.
  revert i. induction bytes as [|b rest IH]; intros i Hi; cbn [magnitudeSum].
  - reflexivity.
  - rewrite (IH (i + 1)) by lia.
    rewrite !Z.shiftl_mul_pow2 by lia.
    rewrite pow2_8_succ by lia. ring.
Qed.

Lemma magnitudeSum_snoc bytes x i :
  0 <= i ->
  magnitudeSum (bytes ++ [x]) i
  = magnitudeSum bytes i + x * 2 ^ (8 * (i + len bytes)).
Proof.
  revert i. induction bytes as [|b rest IH]; intros i Hi.
  - cbn [app magnitudeSum].
    rewrite Z.shiftl_mul_pow2 by lia.
    replace (i + len (@nil Z)) with i by (unfold len; cbn [length]; lia).
    ring.
  - cbn [app magnitudeSum]. rewrite (IH (i + 1)) by lia.
    replace (i + 1 + len rest) with (i + len (b :: rest))
      by (unfold len; cbn [length]; lia).
    ring.
Qed.

(** The bytes the loop emits for a positive magnitude: they end in a
    non-zero byte and their little-endian sum is the magnitude. *)
Lemma encodeLoop_digits remaining :
  0 < remaining ->
  exists init top,
    encodeLoop remaining [] = init ++ [top]
    /\ bytes_ok (init ++ [top])
    /\ 0 < top
    /\ magnitudeSum (init ++ [top]) 0 = remaining.
Proof.
  assert (Hgen : forall r, 0 <= r -> 0 < r ->
    exists init top, encodeLoop r [] = init ++ [top]
      /\ bytes_ok (init ++ [top]) /\ 0 < top
      /\ magnitudeSum (init ++ [top]) 0 = r);
    [|intros; apply Hgen; lia].
  apply (Z_lt_induction (fun r => 0 < r ->
    exists init top, encodeLoop r [] = init ++ [top]
      /\ bytes_ok (init ++ [top]) /\ 0 < top
      /\ magnitudeSum (init ++ [top]) 0 = r)).
  intros r IH Hpos.
  rewrite encodeLoop_step by exact Hpos. cbn [app].
  pose proof (Z.div_mod r 256 ltac:(lia)) as Hdm.
  pose proof (Z.mod_pos_bound r 256 ltac:(lia)) as Hmod.
  destruct (Z_lt_dec 0 (r / 256)) as [Hq|Hq].
  - assert (Hlt : 0 <= r / 256 < r)
      by (split; [lia | apply Z.div_lt; lia]).
    destruct (IH _ Hlt Hq) as (init & top & Henc & Hok & Htop & Hsum).
    exists (r mod 256 :: init), top.
    rewrite encodeLoop_app by lia. rewrite Henc.
    split; [reflexivity|]. split; [|split; [exact Htop|]].
    + constructor; [exact Hmod | exact Hok].
    + cbn [app magnitudeSum].
      rewrite (magnitudeSum_shift _ 0) by lia. rewrite Hsum.
      rewrite Z.shiftl_mul_pow2 by lia. change (2 ^ (8 * 0)) with 1. lia.
  - assert (Hzero : r / 256 = 0) by (pose proof (Z.div_pos r 256); lia).
    exists [], (r mod 256).
    rewrite encodeLoop_done by lia.
    split; [reflexivity|]. split; [|split].
    + constructor; [exact Hmod | constructor].
    + lia.
    + cbn [app magnitudeSum]. rewrite Z.shiftl_mul_pow2 by lia.
      change (2 ^ (8 * 0)) with 1. lia.
Qed.

Lemma clearbit_add_pow2 x j :
  0 <= j -> 0 <= x < 2 ^ j -> Z.clearbit (x + 2 ^ j) j = x.
Proof.
  intros Hj Hx.
  rewrite <- (Z.shiftl_1_l j).
  rewrite <- lor_shiftl_add by lia.
  apply Z.bits_inj'. intros n Hn.
  rewrite Z.clearbit_eqb, Z.lor_spec, Z.shiftl_1_l, Z.pow2_bits_eqb by lia.
  destruct (Z.eqb_spec j n) as [<-|Hne]; cbn [negb].
  - rewrite andb_false_r. symmetry. apply (testbit_small x j j); lia.
  - rewrite orb_false_r, andb_true_r. reflexivity.
Qed.

Lemma index_second_last {A} (a : list A) (x y : A) :
  index ((a ++ [x]) ++ [y]) (len ((a ++ [x]) ++ [y]) - 2) = Some x.
Proof.
  rewrite !len_snoc. unfold index.
  pose proof (len_nonneg a).
  destruct (Z.ltb_spec (len a + 1 + 1 - 2) 0); [lia|].
  replace (Z.to_nat (len a + 1 + 1 - 2)) with (length a) by (unfold len; lia).
  rewrite <- app_assoc. cbn [app]. apply list_lookup_middle. reflexivity.
Qed.

Lemma bytes_ok_snoc init top :
  bytes_ok (init ++ [top]) <-> bytes_ok init /\ is_byte top.
Proof.
  unfold bytes_ok. rewrite Forall_app, Forall_singleton. reflexivity.
Qed.

(** What the parser returns on an encoding that is minimal: its top byte
    has a low bit set, or the byte below carries a high bit. *)
Lemma parse_snoc init top :
  bytes_ok (init ++ [top]) -> len (init ++ [top]) <= 4 ->
  (top mod 128 <> 0 \/ exists l s, init = l ++ [s] /\ 128 <= s) ->
  parseBytesAsScriptNumber (init ++ [top])
  = if 128 <=? top
    then inl (- Z.clearbit (magnitudeSum (init ++ [top]) 0)
                           (8 * len (init ++ [top]) - 1))
    else inl (magnitudeSum (init ++ [top]) 0).
Proof.
  intros Hok Hlen Hminimal.
  rewrite parse_refines_spec by exact Hok.
  assert (Htopb : is_byte top) by apply (proj1 (bytes_ok_snoc _ _) Hok).
  unfold parseScriptNumber.
  destruct (init ++ [top]) as [|b0 rest] eqn:Hbytes;
    [destruct init; discriminate|].
  rewrite <- Hbytes in *. cbv zeta.
  destruct (Z.ltb_spec 4 (len (init ++ [top]))) as [|_]; [lia|].
  rewrite last_snoc. change (default 0 (Some top)) with top.
  rewrite (byte_lowSevenBitsZero top), (byte_highBit top) by exact Htopb.
  replace ((top mod 128 =? 0)
           && ((len (init ++ [top]) <=? 1)
               || negb (highBit (default 0
                    (index (init ++ [top]) (len (init ++ [top]) - 2))))))
    with false; [reflexivity|].
  symmetry. destruct Hminimal as [Hlow | (l & s & -> & Hs)].
  - destruct (Z.eqb_spec (top mod 128) 0); [contradiction|reflexivity].
  - rewrite index_second_last. change (default 0 (Some s)) with s.
    assert (Hsb : is_byte s).
    { apply (proj1 (bytes_ok_snoc l s)). apply (proj1 (bytes_ok_snoc _ _) Hok). }
    rewrite byte_highBit by exact Hsb.
    rewrite !len_snoc. pose proof (len_nonneg l).
    destruct (Z.leb_spec (len l + 1 + 1) 1); [lia|].
    destruct (Z.leb_spec 128 s); [|lia].
    cbn [negb orb]. apply andb_false_r.
Qed.

Lemma map_ToUint8_bytes bytes : bytes_ok bytes -> map ToUint8 bytes = bytes.
Proof.
  induction 1 as [|b rest Hb Hrest IH]; [reflexivity|].
  cbn [map]. rewrite IH, byte_ToUint8 by exact Hb. reflexivity.
Qed.

Lemma pow2_8_add k j :
  0 <= k -> 0 <= j -> 2 ^ (8 * k + j) = 2 ^ j * 2 ^ (8 * k).
Proof. intros. rewrite Z.pow_add_r by lia. ring. Qed.

(** C1: the Script Number codec round-trips over its whole parse range:
    for every integer [n] with |n| <= 2^31 - 1 (zero, encoded as the
    empty array, and the negative values included), parsing the encoding
    of [n] returns [n]. *)
Theorem parse_bigIntToScriptNumber_roundtrip (n : Z) :
  Z.abs n <= 2 ^ 31 - 1 ->
  parseBytesAsScriptNumber (bigIntToScriptNumber n) = inl n.
Proof.
  intros Hrange. unfold bigIntToScriptNumber.
  destruct (Z.eqb_spec n 0) as [->|Hne]; [reflexivity|].
  cbv zeta.
  set (m := if n <? 0 then - n else n).
  assert (Hm : 0 < m <= 2 ^ 31 - 1)
    by (subst m; destruct (Z.ltb_spec n 0); lia).
  assert (Hsgn : (n <? 0) = true /\ n = - m \/ (n <? 0) = false /\ n = m)
    by (subst m; destruct (Z.ltb_spec n 0); [left|right]; split; lia).
  clearbody m.
  destruct (encodeLoop_digits m ltac:(lia))
    as (init & top & Henc & Hok & Htop & Hsum).
  rewrite Henc, index_last, last_snoc. cbn [ToInt32_value].
  destruct (proj1 (bytes_ok_snoc _ _) Hok) as [Hinit Htopb].
  rewrite byte_and_128_pos by exact Htopb.
  rewrite magnitudeSum_snoc in Hsum by lia. rewrite Z.add_0_l in Hsum.
  pose proof (magnitudeSum_bound init 0 Hinit ltac:(lia)) as [Hlo Hhi].
  rewrite Z.add_0_l in Hhi. change (2 ^ (8 * 0)) with 1 in Hhi.
  pose proof (len_nonneg init) as Hlen0.
  set (P := 2 ^ (8 * len init)) in *.
  assert (HP : 0 < P) by (apply Z.pow_pos_nonneg; lia).
  assert (Hlen3 : len init <= 3).
  { destruct (Z.le_gt_cases (len init) 3) as [|Hbig]; [assumption|].
    assert (2 ^ 32 <= P) by (apply Z.pow_le_mono_r; lia). nia. }
  destruct Htopb as [_ Htop256].
  destruct (Z.leb_spec 128 top) as [Hhigh|Hlow].
  - (* the top bit is taken: a sign byte is appended *)
    assert (Hlen2 : len init <= 2).
    { destruct (Z.le_gt_cases (len init) 2) as [|Hbig]; [assumption|].
      assert (2 ^ 24 <= P) by (apply Z.pow_le_mono_r; lia). nia. }
    unfold push.
    assert (Hsign : is_byte (if n <? 0 then 128 else 0))
      by (destruct (n <? 0); unfold is_byte; lia).
    assert (Hok' : bytes_ok ((init ++ [top]) ++ [if n <? 0 then 128 else 0])).
    { apply bytes_ok_snoc. split; [exact Hok|exact Hsign]. }
    rewrite map_ToUint8_bytes by exact Hok'.
    rewrite parse_snoc; [|exact Hok'| rewrite !len_snoc; lia | right; eauto].
    rewrite magnitudeSum_snoc by lia. rewrite magnitudeSum_snoc by lia.
    rewrite !len_snoc, !Z.add_0_l. fold P. rewrite Hsum.
    destruct Hsgn as [[-> ->] | [-> ->]].
    + cbn [Z.leb Z.compare Pos.compare Pos.compare_cont].
      replace (128 * 2 ^ (8 * (len init + 1))) with (2 ^ (8 * (len init + 1 + 1) - 1)).
      * rewrite clearbit_add_pow2; [f_equal; lia | lia |].
        replace (8 * (len init + 1 + 1) - 1) with (8 * len init + 15) by lia.
        rewrite pow2_8_add by lia. fold P. change (2 ^ 15) with 32768. nia.
      * replace (8 * (len init + 1 + 1) - 1) with (8 * (len init + 1) + 7) by lia.
        rewrite pow2_8_add by lia. reflexivity.
    + cbn [Z.leb Z.compare]. f_equal. lia.
  - (* the top bit is free: the sign goes into the top byte *)
    destruct Hsgn as [[-> ->] | [-> ->]].
    + pose proof (byte_or_128 top ltac:(unfold is_byte; lia)) as Hor.
      apply Z.eqb_eq in Hor. rewrite Hor.
      rewrite (Z.mod_small top 128) by lia.
      replace (Z.to_nat (len (init ++ [top]) - 1)) with (length init + 0)%nat
        by (rewrite len_snoc; unfold len; lia).
      rewrite insert_app_r.
      change (<[0%nat := top + 128]> [top]) with [top + 128].
      assert (Hok' : bytes_ok (init ++ [top + 128])).
      { apply bytes_ok_snoc. split; [exact Hinit|unfold is_byte; lia]. }
      rewrite map_ToUint8_bytes by exact Hok'.
      rewrite parse_snoc; [|exact Hok'| rewrite len_snoc; lia |].
      * destruct (Z.leb_spec 128 (top + 128)); [|lia].
        rewrite magnitudeSum_snoc by lia. rewrite len_snoc, Z.add_0_l. fold P.
        replace (magnitudeSum init 0 + (top + 128) * P)
          with (m + 2 ^ (8 * (len init + 1) - 1)).
        -- rewrite clearbit_add_pow2; [f_equal; lia | lia |].
           replace (8 * (len init + 1) - 1) with (8 * len init + 7) by lia.
           rewrite pow2_8_add by lia. fold P. change (2 ^ 7) with 128. nia.
        -- replace (8 * (len init + 1) - 1) with (8 * len init + 7) by lia.
           rewrite pow2_8_add by lia. fold P. change (2 ^ 7) with 128. lia.
      * left. replace (top + 128) with (top + 1 * 128) by lia.
        rewrite Z.mod_add by lia. rewrite Z.mod_small by lia. lia.
    + rewrite map_ToUint8_bytes by exact Hok.
      rewrite parse_snoc; [|exact Hok| rewrite len_snoc; lia |].
      * destruct (Z.leb_spec 128 top); [lia|].
        rewrite magnitudeSum_snoc by lia. rewrite Z.add_0_l. fold P.
        f_equal. lia.
      * left. rewrite Z.mod_small by lia. lia.
Qed.

(** Zero is the empty byte array, and parses back from it. *)
Lemma bigIntToScriptNumber_zero :
  bigIntToScriptNumber 0 = [] /\ parseBytesAsScriptNumber [] = inl 0.
Proof. split; reflexivity. Qed.

(** The round trip at the most negative Script Number. *)
Lemma parse_bigIntToScriptNumber_roundtrip_witness :
  parseBytesAsScriptNumber (bigIntToScriptNumber (-2147483647)) = inl (-2147483647).
Proof.
  apply (parse_bigIntToScriptNumber_roundtrip (-2147483647)).
  vm_compute. discriminate.
Defined.

(** ** VarInt *)

(** A value that fits the one-byte form is read back as written. *)
Lemma varInt_roundtrip_one_byte (v : Z) :
  0 <= v <= 252 ->
  readBitcoinVarInt (bigIntToBitcoinVarInt v) 0
  = Some {| nextOffset := 1; value := v |}.
Proof.
  intros Hv.
  assert (Hb : is_byte v) by (unfold is_byte; lia).
  pose (check := fun v =>
    if v <=? 252
    then match readBitcoinVarInt (bigIntToBitcoinVarInt v) 0 with
         | Some r => (nextOffset r =? 1) && (value r =? v)
         | None => false
         end
    else true).
  assert (Hall : check v = true)
    by (apply (byte_forallb check); [vm_compute; reflexivity | exact Hb]).
  unfold check in Hall.
  destruct (Z.leb_spec v 252); [|lia].
  destruct (readBitcoinVarInt (bigIntToBitcoinVarInt v) 0) as [[next val]|];
    [|discriminate].
  cbn [nextOffset value] in Hall.
  apply andb_true_iff in Hall. destruct Hall as [Hnext Hval].
  apply Z.eqb_eq in Hnext, Hval. subst. reflexivity.
Qed.

(** C6 at the value 0xfd, the first one written with a prefix: the
    encoding is [fd fd 00]; [readBitcoinVarInt] takes the prefix byte for
    the low byte of the value and stops one byte short. *)
Theorem readBitcoinVarInt_prefixed_value :
  bigIntToBitcoinVarInt 253 = [253; 253; 0]
  /\ readBitcoinVarInt (bigIntToBitcoinVarInt 253) 0
     = Some {| nextOffset := 2; value := 65021 |}.
Proof. split; vm_compute; reflexivity. Qed.

(** The encoder, too, departs from the format on large values: [Number]
    rounds a BigInt above 2^53 before its low byte is stored. *)
Lemma bigIntToBitcoinVarInt_max :
  bigIntToBitcoinVarInt 18446744073709551615
  = [255; 0; 0; 255; 255; 255; 255; 255; 255].
Proof. vm_compute. reflexivity. Qed.

(** ** Push operators *)

Import Push.

(** Behind the first guard of [pushDataVariableMethod] the length field
    lies inside the script: the read does not throw. *)
Lemma readLittleEndianLength_guarded script ip lengthBits type :
  (len script <? Z.of_nat ip + Z.of_nat lengthBits) = false ->
  (uintWidth type <= lengthBits)%nat ->
  readLittleEndianLength script ip lengthBits type
  = Some (littleEndian (take (uintWidth type) (take lengthBits (drop ip script)))).
Proof.
  intros Hguard Hwidth. unfold readLittleEndianLength.
  apply Z.ltb_ge in Hguard. unfold len in Hguard.
  destruct (Nat.ltb_spec (length script) (ip + lengthBits)) as [Hlt|_]; [lia|].
  destruct (Nat.ltb_spec lengthBits (uintWidth type)) as [Hlt|_]; [lia|].
  reflexivity.
Qed.

Lemma createPushDataOperator_operation lengthBits type minimum maximum state :
  (uintWidth type <= lengthBits)%nat ->
  operation (createPushDataOperator lengthBits type minimum maximum) state
  = Some (pushDataOutcome lengthBits type minimum maximum state).
Proof.
  intros Hwidth.
  unfold createPushDataOperator, pushDataOutcome, operation, pushDataVariableMethod.
  cbv zeta.
  destruct (len (script state) <? Z.of_nat (ip state) + Z.of_nat lengthBits) eqn:Hguard;
    [reflexivity|].
  rewrite readLittleEndianLength_guarded by assumption.
  repeat match goal with |- context [if ?c then _ else _] => destruct c end;
    reflexivity.
Qed.

(** OP_PUSHDATA1 and OP_PUSHDATA2 as the source builds them: the minimum
    of OP_PUSHDATA1 is [maximumPushDataConstant], 75. *)
Lemma opPushData1_operation state :
  operation opPushData1 state = Some (pushDataOutcome 1 Uint8 75 520 state).
Proof. apply createPushDataOperator_operation. cbn. lia. Qed.

Lemma opPushData2_operation state :
  operation opPushData2 state = Some (pushDataOutcome 2 Uint16 256 520 state).
Proof. apply (createPushDataOperator_operation 2 Uint16). cbn. lia. Qed.

(** C4 at a 75-byte push written with OP_PUSHDATA1: the minimum of the
    one-byte length field is 76 (75 bytes fit OP_DATA_75), so the push
    should fail with NonMinimalPush; the operator pushes the 75 bytes.
    With the minimum 76 the same checks refuse it. *)
Theorem opPushData1_accepts_75 (external : ExternalState) :
  let payload := replicate 75 170 in
  operation opPushData1
    {| error := None; ip := 1; lastCodeSeparator := -1;
       script := 76 :: 75 :: payload; stack := []; external := external |}
  = Some {| error := None; ip := 77; lastCodeSeparator := -1;
            script := 76 :: 75 :: payload; stack := [payload];
            external := external |}
  /\ error (pushDataOutcome 1 Uint8 76 520
              {| error := None; ip := 1; lastCodeSeparator := -1;
                 script := 76 :: 75 :: payload; stack := [];
                 external := external |})
     = Some nonMinimalPush.
Proof. split; vm_compute; reflexivity. Qed.

(** A 74-byte push is refused: the bound is off by one. *)
Lemma opPushData1_refuses_74 (external : ExternalState) :
  error <$> operation opPushData1
    {| error := None; ip := 1; lastCodeSeparator := -1;
       script := 76 :: 74 :: replicate 74 170; stack := []; external := external |}
  = Some (Some nonMinimalPush).
Proof. vm_compute. reflexivity. Qed.

(** C5: OP_PUSHDATA4 never succeeds.  For every program state its result
    carries one of the errors malformedPush, nonMinimalPush and
    exceedsMaximumPush, the stack and [ip] are left as they were, and the
    branch that would push is unreachable: whatever is put in its place,
    the method returns the same. *)
Theorem opPushData4_never_succeeds (state : ProgramState) :
  (exists state',
      operation opPushData4 state = Some state'
      /\ (error state' = Some malformedPush
          \/ error state' = Some nonMinimalPush
          \/ error state' = Some exceedsMaximumPush)
      /\ stack state' = stack state
      /\ ip state' = ip state)
  /\ (forall (Result : Type) (f1 : ProgramState -> Result)
             (f2 f3 f4 valid valid' : ProgramState -> Z -> Z -> Result),
         pushDataVariableMethod 4 Uint32 (highestRepresentableNumberIn 2)
           maximumPushSize f1 f2 f3 f4 valid state
         = pushDataVariableMethod 4 Uint32 (highestRepresentableNumberIn 2)
             maximumPushSize f1 f2 f3 f4 valid' state).
Proof.
  split.
  - unfold opPushData4.
    rewrite createPushDataOperator_operation by (cbn; lia).
    eexists. split; [reflexivity|].
    unfold pushDataOutcome. cbv zeta.
    change (highestRepresentableNumberIn 2) with 65536.
    change maximumPushSize with 520.
    repeat match goal with
           | |- context [if ?a <? ?b then _ else _] => destruct (Z.ltb_spec a b)
           end;
      try (cbn; auto; fail).
    lia.
  - intros Result f1 f2 f3 f4 valid valid'.
    unfold pushDataVariableMethod. cbv zeta.
    change (highestRepresentableNumberIn 2) with 65536.
    change maximumPushSize with 520.
    destruct (len (script state) <? Z.of_nat (ip state) + Z.of_nat 4); [reflexivity|].
    destruct (readLittleEndianLength (script state) (ip state) 4 Uint32) as [length|];
      [|reflexivity].
    repeat match goal with
           | |- context [if ?a <? ?b then _ else _] => destruct (Z.ltb_spec a b)
           end;
      try reflexivity.
    lia.
Qed.

(** ** Stack-reading operators *)

Import Operators.

Lemma pop_nil {A} : pop (@nil A) = (None, []).
Proof. reflexivity. Qed.

Lemma pop_snoc {A} (a : list A) (x : A) : pop (a ++ [x]) = (Some x, a).
Proof. unfold pop. rewrite reverse_snoc, reverse_involutive. reflexivity. Qed.

Lemma pop_single {A} (x : A) : pop [x] = (Some x, []).
Proof. exact (pop_snoc [] x). Qed.

Lemma booleanToScriptNumber_values (value : bool) :
  booleanToScriptNumber value = if value then [1] else [].
Proof. destruct value; vm_compute; reflexivity. Qed.

Lemma stack_pop_snoc state rest x :
  stack state = rest ++ [x] -> stack_pop state = (Some x, set_stack rest state).
Proof. intros Hst. unfold stack_pop. rewrite Hst, pop_snoc. reflexivity. Qed.

Lemma stack_pop_nil state :
  stack state = [] -> stack_pop state = (None, set_stack [] state).
Proof. intros Hst. unfold stack_pop. rewrite Hst. reflexivity. Qed.

Lemma set_stack_set_stack a b state :
  set_stack a (set_stack b state) = set_stack a state.
Proof. reflexivity. Qed.


Section CryptoOperators.

Variable sha256_hash : Uint8Array -> Uint8Array.
Variable verifySignatureDERLowS : Uint8Array -> Uint8Array -> Uint8Array -> bool.
Variable isValidPublicKeyEncoding : Uint8Array -> bool.
Variable isValidSignatureEncoding : Uint8Array -> bool.
Variable decodeBitcoinSignature : Uint8Array -> DecodedSignature.
Variable generateBitcoinCashSigningSerialization :
  Z -> Uint8Array -> Uint8Array -> Uint8Array -> Z -> Uint8Array -> Z -> Z ->
  Uint8Array -> Uint8Array -> Z -> Uint8Array -> Uint8Array.

Local Abbreviation checkSig :=
  (opCheckSig sha256_hash verifySignatureDERLowS isValidPublicKeyEncoding
     isValidSignatureEncoding decodeBitcoinSignature
     generateBitcoinCashSigningSerialization).

Lemma opCheckSig_too_few state :
  (length (stack state) < 2)%nat ->
  operation checkSig state = Some (applyError emptyStack (set_stack [] state)).
Proof.
  intros Hfew. unfold opCheckSig, operation.
  destruct (stack state) as [|x [|y rest]] eqn:Hst; [| |cbn [length] in Hfew; lia].
  - rewrite (stack_pop_nil state Hst).
    rewrite (stack_pop_nil (set_stack [] state) eq_refl). reflexivity.
  - rewrite (stack_pop_snoc state [] x Hst).
    rewrite (stack_pop_nil (set_stack [] state) eq_refl). reflexivity.
Qed.

Lemma opCheckSig_two state rest bitcoinEncodedSignature publicKey :
  stack state = rest ++ [bitcoinEncodedSignature; publicKey] ->
  operation checkSig state
  = Some
      (if negb (isValidPublicKeyEncoding publicKey)
       then applyError invalidPublicKeyEncoding (set_stack rest state)
       else if negb (isValidSignatureEncoding bitcoinEncodedSignature)
       then applyError invalidSignatureEncoding (set_stack rest state)
       else
         let script' := slice_from (script state) (lastCodeSeparator state + 1) in
         let scriptCode := bigIntToBitcoinVarInt (len script') ++ script' in
         let decoded := decodeBitcoinSignature bitcoinEncodedSignature in
         let digest :=
           sha256_hash (sha256_hash
             (generateBitcoinCashSigningSerialization
                (version (external state))
                (transactionOutpointsHash (external state))
                (transactionSequenceNumbersHash (external state))
                (outpointTransactionHash (external state))
                (outpointIndex (external state))
                scriptCode
                (outpointValue (external state))
                (sequenceNumber (external state))
                (correspondingOutputHash (external state))
                (transactionOutputsHash (external state))
                (locktime (external state))
                (signingSerializationType decoded))) in
         set_stack
           (rest ++ [if verifySignatureDERLowS (signature decoded) publicKey digest
                     then [1] else []])
           state).
Proof.
  intros Hst. unfold opCheckSig, operation.
  rewrite (stack_pop_snoc state (rest ++ [bitcoinEncodedSignature]) publicKey)
    by (rewrite Hst, <- app_assoc; reflexivity).
  rewrite (stack_pop_snoc (set_stack (rest ++ [bitcoinEncodedSignature]) state)
             rest bitcoinEncodedSignature eq_refl).
  rewrite set_stack_set_stack.
  destruct (isValidPublicKeyEncoding publicKey); cbn [negb]; [|reflexivity].
  destruct (isValidSignatureEncoding bitcoinEncodedSignature); cbn [negb];
    [|reflexivity].
  cbv zeta. rewrite booleanToScriptNumber_values. reflexivity.
Qed.


(** C10: stack-reading operators are not atomic on failure.  On a stack
    of exactly one element OP_EQUAL returns a state whose error is
    EmptyStack and whose stack is empty: the element it popped is not put
    back.  OP_CHECKSIG does the same, and when it fails on an encoding
    the two elements it popped stay consumed. *)
Theorem opEqual_consumes_lone_element (state : ProgramState) (element : Uint8Array) :
  stack state = [element] ->
  (exists state',
      operation opEqual state = Some state'
      /\ state' = applyError emptyStack (set_stack [] state)
      /\ error state' = Some emptyStack
      /\ stack state' = [])
  /\ (exists state',
         operation checkSig state = Some state'
         /\ error state' = Some emptyStack
         /\ stack state' = [])
  /\ (forall state2 rest bitcoinEncodedSignature publicKey,
         stack state2 = rest ++ [bitcoinEncodedSignature; publicKey] ->
         isValidPublicKeyEncoding publicKey = false ->
         exists state',
           operation checkSig state2 = Some state'
           /\ error state' = Some invalidPublicKeyEncoding
           /\ stack state' = rest).
Proof.
  intros Hst. split; [|split].
  - exists (applyError emptyStack (set_stack [] state)).
    split; [|split; [reflexivity|split; reflexivity]].
    unfold opEqual, operation.
    rewrite (stack_pop_snoc state [] element Hst).
    rewrite (stack_pop_nil (set_stack [] state) eq_refl). reflexivity.
  - exists (applyError emptyStack (set_stack [] state)).
    split; [|split; reflexivity].
    apply opCheckSig_too_few. rewrite Hst. cbn [length]. lia.
  - intros state2 rest sig pk Hst2 Hpk.
    exists (applyError invalidPublicKeyEncoding (set_stack rest state2)).
    split; [|split; reflexivity].
    rewrite (opCheckSig_two state2 rest sig pk Hst2), Hpk. reflexivity.
Qed.

End CryptoOperators.

(** ** The program composer *)

Import VirtualMachine BitcoinCash PushOnlySpec Samples.

Lemma slice_all_id {A} (a : list A) : slice_all a = a.
Proof.
  unfold slice_all, slice.
  pose proof (len_nonneg a) as Hlen.
  assert (Hb : clamp_index (len a) 0 = 0)
    by (unfold clamp_index; destruct (Z.ltb_spec 0 0); lia).
  assert (He : clamp_index (len a) (len a) = len a)
    by (unfold clamp_index; destruct (Z.ltb_spec (len a) 0); lia).
  rewrite Hb, He, Z.sub_0_r. cbn [Z.to_nat drop].
  unfold len. rewrite Nat2Z.id. apply firstn_all.
Qed.

Lemma cloneStack_value (stack : list Uint8Array) : cloneStack stack = stack.
Proof.
  unfold cloneStack.
  assert (Hgen : forall acc,
    fold_left (fun newStack element => push newStack (slice_all element)) stack acc
    = acc ++ stack); [|apply (Hgen [])].
  induction stack as [|element rest IH]; intros acc; cbn [fold_left].
  - rewrite app_nil_r. reflexivity.
  - rewrite IH. unfold push. rewrite slice_all_id, <- app_assoc. reflexivity.
Qed.

Lemma passState_fields stack external script :
  ip (passState stack external script) = 0%nat
  /\ lastCodeSeparator (passState stack external script) = -1
  /\ error (passState stack external script) = None
  /\ State.stack (passState stack external script) = stack
  /\ State.script (passState stack external script) = script
  /\ State.external (passState stack external script) = external.
Proof. repeat split. Qed.

Section ComposerProperties.

Variable vm_debug : ProgramState -> string -> option (list (DebuggingStep ProgramState)).

Variable program : AuthenticationProgram.

Local Abbreviation compose := (debugBitcoinCashAuthenticationProgram vm_debug program).

Local Abbreviation unlockingPass :=
  (vm_debug (passState [] (programState program) (unlockingScript program))
            "Begin unlocking script evaluation.").

Local Abbreviation lockingPass unlockingFinal :=
  (vm_debug (passState (stack unlockingFinal) (programState program) (lockingScript program))
            "Begin locking script evaluation.").

Lemma composer_unlocking_error unlockingResult unlockingFinal e :
  unlockingPass = Some unlockingResult ->
  finalState unlockingResult = Some unlockingFinal ->
  error unlockingFinal = Some e ->
  compose = Some unlockingResult.
Proof.
  unfold debugBitcoinCashAuthenticationProgram.
  intros -> Hfinal He. cbn [mbind option_bind].
  rewrite Hfinal. cbn [mbind option_bind]. rewrite He. reflexivity.
Qed.

Lemma composer_after_locking unlockingResult unlockingFinal lockingResult lockingFinal :
  unlockingPass = Some unlockingResult ->
  finalState unlockingResult = Some unlockingFinal ->
  error unlockingFinal = None ->
  lockingPass unlockingFinal = Some lockingResult ->
  finalState lockingResult = Some lockingFinal ->
  compose
  = if isPayToScriptHash (lockingScript program)
    then
      if negb (isPushOnly (unlockingScript program))
      then Some (unlockingResult ++ lockingResult
                   ++ [p2shError "P2SH error: unlockingScript must be push-only."
                                 lockingFinal])
      else if len (stack unlockingFinal) =? 0
      then Some (unlockingResult ++ lockingResult
                   ++ [p2shError "P2SH error: unlockingScript must not leave an empty stack."
                                 lockingFinal])
      else
        let '(p2shScript, p2shStack) := pop (stack unlockingFinal) in
        p2shScript ← p2shScript;
        p2shScriptResult ←
          vm_debug (passState p2shStack (programState program) p2shScript)
                   "Begin P2SH script evaluation.";
        Some (unlockingResult ++ lockingResult ++ p2shScriptResult)
    else Some (unlockingResult ++ lockingResult).
Proof.
  unfold debugBitcoinCashAuthenticationProgram.
  intros -> Hfinal He Hlocking Hfinal2. cbn [mbind option_bind].
  rewrite Hfinal. cbn [mbind option_bind]. rewrite He, Hlocking.
  cbn [mbind option_bind]. rewrite Hfinal2. cbn [mbind option_bind].
  rewrite cloneStack_value. reflexivity.
Qed.

(** The gate as the composer has it: on a P2SH locking script the
    synthetic step is appended exactly when some byte of the unlocking
    script, opcode or payload, is OP_16 or more. *)
Lemma composer_p2sh_gate unlockingResult unlockingFinal lockingResult lockingFinal :
  unlockingPass = Some unlockingResult ->
  finalState unlockingResult = Some unlockingFinal ->
  error unlockingFinal = None ->
  lockingPass unlockingFinal = Some lockingResult ->
  finalState lockingResult = Some lockingFinal ->
  isPayToScriptHash (lockingScript program) = true ->
  isPushOnly (unlockingScript program) = false ->
  compose = Some (unlockingResult ++ lockingResult
                    ++ [p2shError "P2SH error: unlockingScript must be push-only."
                                  lockingFinal]).
Proof.
  intros H1 H2 H3 H4 H5 Hp2sh Hpush.
  rewrite (composer_after_locking _ _ _ _ H1 H2 H3 H4 H5), Hp2sh, Hpush.
  reflexivity.
Qed.

(** C8: every pass starts from [ip = 0] and [lastCodeSeparator = -1], and
    only a stack goes from one pass to the next.  The unlocking pass
    starts on the empty stack.  When its final state has an error, the
    composer returns its trace alone.  Otherwise the locking pass starts
    on the final stack of the unlocking pass; and on a P2SH locking script
    with an unlocking script the gate lets through, the third pass runs
    the top element of the unlocking-final stack as its script, on a copy
    of the elements below it. *)
Theorem composer_passes unlockingResult unlockingFinal :
  unlockingPass = Some unlockingResult ->
  finalState unlockingResult = Some unlockingFinal ->
  (forall stack script,
      let start := passState stack (programState program) script in
      ip start = 0%nat /\ lastCodeSeparator start = -1 /\ error start = None
      /\ State.stack start = stack /\ State.script start = script
      /\ external start = programState program)
  /\ (error unlockingFinal <> None -> compose = Some unlockingResult)
  /\ (error unlockingFinal = None ->
      forall lockingResult lockingFinal,
        vm_debug (passState (stack unlockingFinal) (programState program)
                            (lockingScript program))
                 "Begin locking script evaluation." = Some lockingResult ->
        finalState lockingResult = Some lockingFinal ->
        (isPayToScriptHash (lockingScript program) = false ->
         compose = Some (unlockingResult ++ lockingResult))
        /\ (isPayToScriptHash (lockingScript program) = true ->
            isPushOnly (unlockingScript program) = true ->
            forall below top p2shResult,
              stack unlockingFinal = below ++ [top] ->
              vm_debug (passState (cloneStack below) (programState program) top)
                       "Begin P2SH script evaluation." = Some p2shResult ->
              compose = Some (unlockingResult ++ lockingResult ++ p2shResult))).
Proof.
  intros Hunlock Hfinal. split; [|split].
  - intros stack script. apply passState_fields.
  - intros He. destruct (error unlockingFinal) as [e|] eqn:Heq; [|contradiction].
    exact (composer_unlocking_error _ _ e Hunlock Hfinal Heq).
  - intros He lockingResult lockingFinal Hlock Hfinal2.
    pose proof (composer_after_locking _ _ _ _ Hunlock Hfinal He Hlock Hfinal2) as Hc.
    split.
    + intros Hp2sh. rewrite Hc, Hp2sh. reflexivity.
    + intros Hp2sh Hpush below top p2shResult Hstack Hthird.
      rewrite Hc, Hp2sh, Hpush, Hstack. cbn [negb].
      rewrite len_snoc. pose proof (len_nonneg below).
      destruct (Z.eqb_spec (len below + 1) 0); [lia|].
      rewrite pop_snoc. cbn [mbind option_bind].
      rewrite cloneStack_value in Hthird. rewrite Hthird. reflexivity.
Qed.

End ComposerProperties.

Section GateOnConcreteScript.

Variable sha256_hash : Uint8Array -> Uint8Array.
Variable ripemd160_hash : Uint8Array -> Uint8Array.
Variable verifySignatureDERLowS : Uint8Array -> Uint8Array -> Uint8Array -> bool.
Variable isValidPublicKeyEncoding : Uint8Array -> bool.
Variable isValidSignatureEncoding : Uint8Array -> bool.
Variable decodeBitcoinSignature : Uint8Array -> DecodedSignature.
Variable generateBitcoinCashSigningSerialization :
  Z -> Uint8Array -> Uint8Array -> Uint8Array -> Z -> Uint8Array -> Z -> Z ->
  Uint8Array -> Uint8Array -> Z -> Uint8Array -> Uint8Array.

(** C7 at the unlocking script [01 ff], one OP_DATA_1 push: it is
    push-only in the sense of the specification, yet the byte scan of
    [isPushOnly] reads the payload 0xff as an opcode, and against a P2SH
    locking script the composer ends the trace with the synthetic step
    "P2SH error: unlockingScript must be push-only.".  The scan refuses
    the opcode OP_16 as well. *)
Theorem p2sh_gate_refuses_push_only_script (external : ExternalState) :
  let program :=
    {| lockingScript := p2shLockingScript [];
       programState := external;
       unlockingScript := pushOfFF |} in
  isPayToScriptHash (lockingScript program) = true
  /\ topLevelPushOnly (unlockingScript program) = true
  /\ isPushOnly (unlockingScript program) = false
  /\ (fun trace => step_description <$> last trace)
       <$> debugBitcoinCashAuthenticationProgram
             (bitcoinCashDebug sha256_hash ripemd160_hash verifySignatureDERLowS
                isValidPublicKeyEncoding isValidSignatureEncoding
                decodeBitcoinSignature generateBitcoinCashSigningSerialization)
             program
     = Some (Some "P2SH error: unlockingScript must be push-only."%string)
  /\ topLevelPushOnly [BitcoinCashOpCodes.OP_16] = true
  /\ isPushOnly [BitcoinCashOpCodes.OP_16] = false.
Proof. repeat split; vm_compute; reflexivity. Qed.

End GateOnConcreteScript.

(** ** The theorems at sample inputs *)

Lemma composer_passes_witness :
  debugBitcoinCashAuthenticationProgram debug_standIn p2shProgram
  = Some (unlockingTrace ++ lockingTrace ++ p2shTrace).
Proof.
  destruct (composer_passes debug_standIn p2shProgram unlockingTrace unlockingFinal)
    as (_ & _ & Hpasses).
  - vm_compute. reflexivity.
  - vm_compute. reflexivity.
  - destruct (Hpasses eq_refl lockingTrace lockingFinal) as [_ Hp2sh].
    + vm_compute. reflexivity.
    + vm_compute. reflexivity.
    + apply (Hp2sh eq_refl eq_refl [[1]] redeemScript p2shTrace).
      * reflexivity.
      * vm_compute. reflexivity.
Defined.


Lemma opEqual_consumes_lone_element_witness :
  exists state',
    operation opEqual loneElementState = Some state'
    /\ state' = applyError emptyStack (set_stack [] loneElementState)
    /\ error state' = Some emptyStack
    /\ stack state' = [].
Proof.
  apply (opEqual_consumes_lone_element sha256_standIn verify_standIn publicKey_standIn
           signature_standIn decode_standIn serialization_standIn
           loneElementState [1]).
  reflexivity.
Defined.

(** ** Cloning: what is copied and what is shared *)

Module HeapProperties.
Import Heap.

Lemma extends_refl st : extends st st.
Proof. split; reflexivity. Qed.

Lemma extends_trans st1 st2 st3 : extends st1 st2 -> extends st2 st3 -> extends st1 st3.
Proof. intros [? ?] [? ?]. split; etrans; eassumption. Qed.

Lemma fresh_not_in_store (m : gmap ref Uint8Array) : m !! fresh (dom m) = None.
Proof. apply not_elem_of_dom. apply is_fresh. Qed.

Lemma fresh_not_in_arrays (m : gmap ref (list ref)) : m !! fresh (dom m) = None.
Proof. apply not_elem_of_dom. apply is_fresh. Qed.

Lemma sliceTyped_spec r st r' st' :
  sliceTyped r st = Some (r', st') ->
  extends st st' /\ typedArrays st !! r' = None.
Proof.
  unfold sliceTyped, mbind, M_bind, readTyped, allocTyped.
  destruct (typedArrays st !! r) as [bytes|]; [|discriminate].
  intros [= <- <-]. cbn [typedArrays arrays]. split; [split|].
  - apply insert_subseteq. apply fresh_not_in_store.
  - reflexivity.
  - apply fresh_not_in_store.
Qed.

Lemma sliceArray_spec r st r' st' :
  sliceArray r st = Some (r', st') -> extends st st'.
Proof.
  unfold sliceArray, mbind, M_bind, readArray, allocArray.
  destruct (arrays st !! r) as [elements|]; [|discriminate].
  intros [= <- <-]. cbn [typedArrays arrays]. split.
  - reflexivity.
  - apply insert_subseteq. apply fresh_not_in_arrays.
Qed.

Lemma extends_fresh st st' r :
  extends st st' -> typedArrays st' !! r = None -> typedArrays st !! r = None.
Proof.
  intros [Hsub _] Hnone.
  destruct (typedArrays st !! r) as [bytes|] eqn:Hr; [|reflexivity].
  rewrite (lookup_weaken _ _ _ _ Hr Hsub) in Hnone. discriminate.
Qed.

Lemma mapM_lookup_weaken (m m' : gmap ref Uint8Array) elements values :
  m ⊆ m' ->
  mapM (fun element => m !! element) elements = Some values ->
  mapM (fun element => m' !! element) elements = Some values.
Proof.
  intros Hsub. rewrite !mapM_Some.
  intros Hall. eapply Forall2_impl; [exact Hall|].
  intros element value Hlook. cbn in *. exact (lookup_weaken _ _ _ _ Hlook Hsub).
Qed.

(** A state whose references all resolve keeps its value in every store
    that extends the one it lives in. *)
Lemma valueOf_extends st st' state value :
  extends st st' -> valueOf st state = Some value -> valueOf st' state = Some value.
Proof.
  intros [Htyped Harrays]. unfold valueOf.
  repeat match goal with
         | |- context [typedArrays st !! ?r ≫= _] =>
             destruct (typedArrays st !! r) eqn:?Hlook; cbn [mbind option_bind];
             [|discriminate]
         | |- context [arrays st !! ?r ≫= _] =>
             destruct (arrays st !! r) eqn:?Hlook; cbn [mbind option_bind];
             [|discriminate]
         | |- context [mapM ?f ?l ≫= _] =>
             destruct (mapM f l) eqn:?Hmap; cbn [mbind option_bind];
             [|discriminate]
         end.
  intros Hvalue.
  repeat match goal with
         | H : typedArrays st !! _ = Some _ |- _ =>
             rewrite (lookup_weaken _ _ _ _ H Htyped); clear H
         | H : arrays st !! _ = Some _ |- _ =>
             rewrite (lookup_weaken _ _ _ _ H Harrays); clear H
         end.
  cbn [mbind option_bind].
  erewrite mapM_lookup_weaken by eassumption.
  cbn [mbind option_bind]. exact Hvalue.
Qed.

Lemma writeByte_fresh_extends st st1 r i v st2 :
  extends st st1 -> typedArrays st !! r = None ->
  writeByte r i v st1 = Some (tt, st2) ->
  extends st st2.
Proof.
  intros [Htyped Harrays] Hfresh. unfold writeByte.
  destruct (typedArrays st1 !! r) as [bytes|]; [|discriminate].
  intros [= <-]. cbn [typedArrays arrays]. split; [|exact Harrays].
  apply insert_subseteq_r; assumption.
Qed.

Lemma bind_Some {A B} (c : M A) (k : A -> M B) st b st' :
  (c ≫= k) st = Some (b, st') ->
  exists a s1, c st = Some (a, s1) /\ k a s1 = Some (b, st').
Proof.
  unfold mbind, M_bind. destruct (c st) as [[a s1]|]; [|discriminate].
  intros Hk. exists a, s1. split; [reflexivity|exact Hk].
Qed.

(** [clone] only adds objects to the store, and the script and the hashes
    of the clone are among the objects it adds. *)
Lemma clone_fresh st state state' st1 :
  clone state st = Some (state', st1) ->
  extends st st1
  /\ Forall (fun r => typedArrays st !! r = None) (scriptAndHashes state').
Proof.
  unfold clone. intros Hclone.
  apply bind_Some in Hclone as (r1 & s1 & H1 & Hclone).
  apply bind_Some in Hclone as (r2 & s2 & H2 & Hclone).
  apply bind_Some in Hclone as (r3 & s3 & H3 & Hclone).
  apply bind_Some in Hclone as (r4 & s4 & H4 & Hclone).
  apply bind_Some in Hclone as (r5 & s5 & H5 & Hclone).
  apply bind_Some in Hclone as (r6 & s6 & H6 & Hclone).
  apply bind_Some in Hclone as (r7 & s7 & H7 & Hclone).
  injection Hclone as <- <-.
  apply sliceTyped_spec in H1 as [E1 F1].
  apply sliceTyped_spec in H2 as [E2 F2].
  apply sliceTyped_spec in H3 as [E3 F3].
  apply sliceArray_spec in H4 as E4.
  apply sliceTyped_spec in H5 as [E5 F5].
  apply sliceTyped_spec in H6 as [E6 F6].
  apply sliceTyped_spec in H7 as [E7 F7].
  pose proof (extends_trans _ _ _ E1 E2) as E02.
  pose proof (extends_trans _ _ _ E02 E3) as E03.
  pose proof (extends_trans _ _ _ E03 E4) as E04.
  pose proof (extends_trans _ _ _ E04 E5) as E05.
  pose proof (extends_trans _ _ _ E05 E6) as E06.
  pose proof (extends_trans _ _ _ E06 E7) as E07.
  split; [exact E07|].
  unfold scriptAndHashes. cbn.
  repeat constructor; eauto using extends_fresh.
Qed.

(** The part of clone isolation that holds: a write to the script or to a
    hash of the clone leaves the original as it was. *)
Lemma clone_isolates_script_and_hashes st state value state' st1 r i v st2 :
  valueOf st state = Some value ->
  clone state st = Some (state', st1) ->
  r ∈ scriptAndHashes state' ->
  writeByte r i v st1 = Some (tt, st2) ->
  valueOf st2 state = Some value.
Proof.
  intros Hvalue Hclone Hr Hwrite.
  destruct (clone_fresh _ _ _ _ Hclone) as [Hext Hfresh].
  rewrite Forall_forall in Hfresh.
  apply (valueOf_extends st st2); [|exact Hvalue].
  eapply writeByte_fresh_extends; eauto.
Qed.

(** C3 on a state whose stack holds one element: [clone] copies the stack
    array but not the element in it, so the clone and the original share
    that [Uint8Array].  After [clone.stack[0][0] = 2] the original, whose
    stack element was the byte 01, reads 02: the clone is not isolated. *)
Theorem clone_shares_stack_elements :
  stack <$> valueOf Samples.sampleStore Samples.sampleObject = Some [[1]]
  /\ Samples.originalStackAfterWrite = Some [[2]]
  /\ ~ cloneIsolated Samples.sampleStore Samples.sampleObject.
Proof.
  split; [vm_compute; reflexivity|].
  split; [vm_compute; reflexivity|].
  intros Hisolated.
  assert (Hafter : Samples.originalStackAfterWrite = Some [[2]])
    by (vm_compute; reflexivity).
  unfold Samples.originalStackAfterWrite in Hafter.
  destruct (clone Samples.sampleObject Samples.sampleStore) as [[clone' st1]|] eqn:Hclone;
    [|discriminate].
  destruct (stackElements st1 clone') as [|element rest] eqn:Helements; [discriminate|].
  destruct (writeByte element 0 2 st1) as [[[] st2]|] eqn:Hwrite; [|discriminate].
  assert (Hin : element ∈ scriptAndHashes clone' ++ stackElements st1 clone').
  { rewrite Helements. apply elem_of_app. right. left. }
  rewrite (Hisolated clone' st1 Hclone element 0 2 st2 Hin Hwrite) in Hafter.
  vm_compute in Hafter. discriminate.
Qed.

(** [cloneStack] of common.ts, the copy the composer uses, does copy the
    elements: on the sample store its result holds a new object. *)
Lemma cloneStack_copies_elements :
  match cloneStack (o_stack Samples.sampleObject) Samples.sampleStore with
  | Some (copy, st1) => arrays st1 !! copy
  | None => None
  end = Some [8%positive]
  /\ arrays Samples.sampleStore !! o_stack Samples.sampleObject = Some [7%positive].
Proof. split; vm_compute; reflexivity. Qed.

End HeapProperties.

(** ** The Bitcoin Cash runtime always returns a trace *)

Lemma littleEndian_nonneg bytes : bytes_ok bytes -> 0 <= littleEndian bytes.
Proof.
  induction 1 as [|b rest [Hb _] _ IH]; cbn [littleEndian]; lia.
Qed.

Lemma bytes_ok_take n bytes : bytes_ok bytes -> bytes_ok (take n bytes).
Proof. apply Forall_take. Qed.

Lemma bytes_ok_drop n bytes : bytes_ok bytes -> bytes_ok (drop n bytes).
Proof. apply Forall_drop. Qed.

Lemma stack_pop_frame state element state' :
  stack_pop state = (element, state') ->
  script state' = script state /\ ip state' = ip state.
Proof.
  unfold stack_pop. destruct (pop (stack state)) as [e rest].
  intros [= _ <-]. split; reflexivity.
Qed.

Lemma constant_is_Some {S} (text : string) (state : S) : is_Some (constant text state).
Proof. eexists. reflexivity. Qed.

Ltac frame_of_pops :=
  repeat match goal with
         | H : stack_pop _ = (_, _) |- _ =>
             apply stack_pop_frame in H; destruct H as [? ?]
         end.

Ltac solve_frame :=
  eexists; split; [reflexivity|]; cbn; frame_of_pops; split; [congruence|lia].

Lemma opPushNumber_wellBehaved value : wellBehaved (opPushNumber value).
Proof.
  intros state _. split; [apply constant_is_Some|]. split; [apply constant_is_Some|].
  cbn. solve_frame.
Qed.

Lemma opPushDataConstant_wellBehaved value :
  0 <= value -> wellBehaved (opPushDataConstant value).
Proof.
  intros Hvalue state _. split; [eexists; reflexivity|].
  split; [apply constant_is_Some|].
  unfold opPushDataConstant, operation, pushDataConstantMethod.
  destruct (len (script state) <? Z.of_nat (ip state) + value).
  - solve_frame.
  - eexists. split; [reflexivity|]. cbn. split; [reflexivity|lia].
Qed.

Lemma pushDataVariableMethod_total {Result} lengthBits type minimum maximum
    (f1 : ProgramState -> Result) (f2 f3 f4 f5 : ProgramState -> Z -> Z -> Result) state :
  (uintWidth type <= lengthBits)%nat ->
  is_Some (pushDataVariableMethod lengthBits type minimum maximum f1 f2 f3 f4 f5 state).
Proof.
  intros Hwidth. unfold pushDataVariableMethod. cbv zeta.
  destruct (len (script state) <? Z.of_nat (ip state) + Z.of_nat lengthBits) eqn:Hguard;
    [eexists; reflexivity|].
  rewrite readLittleEndianLength_guarded by assumption.
  repeat match goal with |- context [if ?c then _ else _] => destruct c end;
    eexists; reflexivity.
Qed.

Lemma createPushDataOperator_wellBehaved lengthBits type minimum maximum :
  (uintWidth type <= lengthBits)%nat ->
  wellBehaved (createPushDataOperator lengthBits type minimum maximum).
Proof.
  intros Hwidth state Hok.
  split; [apply pushDataVariableMethod_total; exact Hwidth|].
  split; [apply pushDataVariableMethod_total; exact Hwidth|].
  rewrite createPushDataOperator_operation by exact Hwidth.
  eexists. split; [reflexivity|].
  unfold pushDataOutcome. cbv zeta.
  pose proof (littleEndian_nonneg
    (take (uintWidth type) (take lengthBits (drop (ip state) (script state))))
    ltac:(auto using bytes_ok_take, bytes_ok_drop)) as Hlength.
  repeat match goal with |- context [if ?c then _ else _] => destruct c end;
    cbn; (split; [reflexivity|lia]).
Qed.

Lemma opEqual_wellBehaved : wellBehaved opEqual.
Proof.
  intros state _. split; [apply constant_is_Some|]. split; [apply constant_is_Some|].
  unfold opEqual, operation.
  destruct (stack_pop state) as [element1 state1] eqn:Hpop1.
  destruct (stack_pop state1) as [element2 state2] eqn:Hpop2.
  destruct element1, element2; solve_frame.
Qed.

Lemma opVerify_wellBehaved : wellBehaved opVerify.
Proof.
  intros state _. split; [apply constant_is_Some|]. split; [apply constant_is_Some|].
  unfold opVerify, operation.
  destruct (stack_pop state) as [element state1] eqn:Hpop.
  destruct element as [element|]; [destruct (stackElementIsTruthy element)|];
    solve_frame.
Qed.

Lemma opEqualVerify_wellBehaved : wellBehaved opEqualVerify.
Proof.
  intros state Hok. split; [apply constant_is_Some|]. split; [apply constant_is_Some|].
  destruct (opEqual_wellBehaved state Hok) as (_ & _ & state1 & Hequal & Hscript1 & Hip1).
  destruct (opVerify_wellBehaved state1 ltac:(rewrite Hscript1; exact Hok))
    as (_ & _ & state2 & Hverify & Hscript2 & Hip2).
  exists state2. cbn [opEqualVerify operation]. rewrite Hequal.
  split; [exact Hverify|]. split; [congruence|lia].
Qed.

Lemma opDup_wellBehaved : wellBehaved opDup.
Proof.
  intros state _. split; [apply constant_is_Some|]. split; [apply constant_is_Some|].
  unfold opDup, operation.
  destruct (Z.ltb_spec (len (stack state)) 1) as [|Hfull]; [solve_frame|].
  rewrite index_last.
  destruct (stack state) as [|x rest] eqn:Hstack using rev_ind;
    [unfold len in Hfull; cbn in Hfull; lia|].
  rewrite last_snoc. solve_frame.
Qed.

Lemma undefinedOperator_wellBehaved : wellBehaved undefinedOperator.
Proof.
  intros state _. split; [eexists; reflexivity|]. split; [eexists; reflexivity|].
  cbn. solve_frame.
Qed.

Lemma spread_lookup {V} (group current : gmap Z V) k v :
  spread group current !! k = Some v ->
  current !! k = Some v \/ group !! k = Some v.
Proof. unfold spread. rewrite lookup_union_Some_raw. tauto. Qed.

Lemma fold_spread_lookup {V} (maps : list (gmap Z V)) acc k v :
  fold_left spread maps acc !! k = Some v ->
  acc !! k = Some v \/ exists m, m ∈ maps /\ m !! k = Some v.
Proof.
  revert acc. induction maps as [|m maps IH]; intros acc; cbn [fold_left].
  - auto.
  - intros Hlook. apply IH in Hlook as [Hlook | (m' & Hin & Hm')].
    + apply spread_lookup in Hlook as [Hcurrent | Hacc].
      * right. exists m. split; [left|exact Hcurrent].
      * left. exact Hacc.
    + right. exists m'. split; [right; exact Hin|exact Hm'].
Qed.

(** An entry of a table built from a list of opcodes is the operator of
    one of the positions of the list. *)
Lemma operatorsOf_lookup {V} opcodes (f : Z -> V) k v :
  operatorsOf opcodes f !! k = Some v -> exists i, 0 <= i /\ v = f i.
Proof.
  unfold operatorsOf. intros Hlook.
  apply fold_spread_lookup in Hlook as [Hempty | (m & Hin & Hm)].
  - rewrite lookup_empty in Hempty. discriminate.
  - apply elem_of_lookup_imap in Hin as (i & opcode & -> & _).
    apply lookup_singleton_Some in Hm as [_ <-].
    exists (Z.of_nat i). split; [lia|reflexivity].
Qed.

Section RuntimeTotal.

Variable sha256_hash : Uint8Array -> Uint8Array.
Variable ripemd160_hash : Uint8Array -> Uint8Array.
Variable verifySignatureDERLowS : Uint8Array -> Uint8Array -> Uint8Array -> bool.
Variable isValidPublicKeyEncoding : Uint8Array -> bool.
Variable isValidSignatureEncoding : Uint8Array -> bool.
Variable decodeBitcoinSignature : Uint8Array -> DecodedSignature.
Variable generateBitcoinCashSigningSerialization :
  Z -> Uint8Array -> Uint8Array -> Uint8Array -> Z -> Uint8Array -> Z -> Z ->
  Uint8Array -> Uint8Array -> Z -> Uint8Array -> Uint8Array.

Local Abbreviation instructionSet :=
  (bitcoinCashInstructionSet sha256_hash ripemd160_hash verifySignatureDERLowS
     isValidPublicKeyEncoding isValidSignatureEncoding decodeBitcoinSignature
     generateBitcoinCashSigningSerialization).

Lemma opHash160_wellBehaved : wellBehaved (opHash160 sha256_hash ripemd160_hash).
Proof.
  intros state _. split; [apply constant_is_Some|]. split; [apply constant_is_Some|].
  unfold opHash160, operation.
  destruct (stack_pop state) as [element state1] eqn:Hpop.
  destruct element; solve_frame.
Qed.

Lemma opCheckSig_wellBehaved :
  wellBehaved (opCheckSig sha256_hash verifySignatureDERLowS isValidPublicKeyEncoding
                 isValidSignatureEncoding decodeBitcoinSignature
                 generateBitcoinCashSigningSerialization).
Proof.
  intros state _. split; [apply constant_is_Some|]. split; [apply constant_is_Some|].
  unfold opCheckSig, operation.
  destruct (stack_pop state) as [publicKey state1] eqn:Hpop1.
  destruct (stack_pop state1) as [bitcoinEncodedSignature state2] eqn:Hpop2.
  destruct publicKey as [publicKey|], bitcoinEncodedSignature as [bitcoinEncodedSignature|];
    try solve_frame.
  destruct (isValidPublicKeyEncoding publicKey); cbn [negb]; [|solve_frame].
  destruct (isValidSignatureEncoding bitcoinEncodedSignature); cbn [negb]; solve_frame.
Qed.

Lemma commonOperators_wellBehaved k operator :
  operators instructionSet !! k = Some operator -> wellBehaved operator.
Proof.
  cbn [operators bitcoinCashInstructionSet]. unfold commonOperators.
  intros Hlook.
  repeat match type of Hlook with
         | spread _ _ !! _ = Some _ => apply spread_lookup in Hlook as [Hlook|Hlook]
         end.
  - unfold stackOperators in Hlook.
    apply lookup_singleton_Some in Hlook as [_ <-]. apply opDup_wellBehaved.
  - unfold flowControlOperators in Hlook.
    apply lookup_singleton_Some in Hlook as [_ <-]. apply opVerify_wellBehaved.
  - unfold cryptoOperators in Hlook.
    apply lookup_insert_Some in Hlook as [[_ <-] | [_ Hlook]];
      [apply opHash160_wellBehaved|].
    apply lookup_singleton_Some in Hlook as [_ <-]. apply opCheckSig_wellBehaved.
  - unfold bitwiseOperators in Hlook.
    apply lookup_insert_Some in Hlook as [[_ <-] | [_ Hlook]];
      [apply opEqual_wellBehaved|].
    apply lookup_singleton_Some in Hlook as [_ <-]. apply opEqualVerify_wellBehaved.
  - unfold pushDataVariableOperators in Hlook.
    apply lookup_insert_Some in Hlook as [[_ <-] | [_ Hlook]];
      [apply createPushDataOperator_wellBehaved; cbn; lia|].
    apply lookup_insert_Some in Hlook as [[_ <-] | [_ Hlook]];
      [apply (createPushDataOperator_wellBehaved 2 Uint16); cbn; lia|].
    apply lookup_singleton_Some in Hlook as [_ <-].
    apply (createPushDataOperator_wellBehaved 4 Uint32). cbn. lia.
  - apply operatorsOf_lookup in Hlook as (i & Hi & ->).
    apply opPushDataConstant_wellBehaved. lia.
  - apply operatorsOf_lookup in Hlook as (i & Hi & ->).
    apply opPushNumber_wellBehaved.
Qed.

Lemma getOperator_wellBehaved state : wellBehaved (getOperator instructionSet state).
Proof.
  unfold getOperator.
  destruct (index (state_script state) (Z.of_nat (state_ip state) - 1)) as [opcode|];
    [|apply undefinedOperator_wellBehaved].
  destruct (operators instructionSet !! opcode) as [operator|] eqn:Hlook.
  - exact (commonOperators_wellBehaved opcode operator Hlook).
  - apply undefinedOperator_wellBehaved.
Qed.

Lemma cloneState_value state : cloneState state = state.
Proof.
  destruct state as [e i l s st [? ? ? ? ? ? ? ? ? ? ? ?]].
  unfold cloneState. cbn. rewrite !slice_all_id. reflexivity.
Qed.

(** With one unit of fuel per byte of the script left, the loop of [debug]
    ends by itself: it is neither cut off nor interrupted by an exception. *)
Lemma debugLoop_returns fuel state trace :
  bytes_ok (script state) ->
  (length (script state) - ip state <= fuel)%nat ->
  exists result, debugLoop instructionSet fuel state trace = Returned result.
Proof.
  revert state trace. induction fuel as [|fuel IH]; intros state trace Hok Hfuel.
  - cbn [debugLoop continue bitcoinCashInstructionSet].
    destruct (error state); [eexists; reflexivity|].
    destruct (Z.ltb_spec (Z.of_nat (ip state)) (len (script state))) as [Hlt|];
      [unfold len in Hlt; lia|eexists; reflexivity].
  - cbn [debugLoop continue bitcoinCashInstructionSet].
    destruct (error state); [eexists; reflexivity|].
    destruct (Z.ltb_spec (Z.of_nat (ip state)) (len (script state))) as [Hlt|];
      [|eexists; reflexivity].
    cbn [clone bitcoinCashInstructionSet]. rewrite cloneState_value.
    set (state1 := before instructionSet state).
    assert (Hscript1 : script state1 = script state) by reflexivity.
    assert (Hip1 : ip state1 = S (ip state)) by reflexivity.
    destruct (getOperator_wellBehaved state1 state1 ltac:(rewrite Hscript1; exact Hok))
      as ([a Ha] & [d Hd] & state' & Hop & Hscript & Hip).
    fold state1. rewrite Ha, Hd, Hop.
    apply IH.
    + rewrite Hscript, Hscript1. exact Hok.
    + rewrite Hscript, Hscript1. unfold len in Hlt. lia.
Qed.

(** The [debug] method of the Bitcoin Cash virtual machine returns a
    trace for every state whose script is made of bytes. *)
Lemma bitcoinCashDebug_total state initialDescription :
  bytes_ok (script state) ->
  is_Some (bitcoinCashDebug sha256_hash ripemd160_hash verifySignatureDERLowS
             isValidPublicKeyEncoding isValidSignatureEncoding decodeBitcoinSignature
             generateBitcoinCashSigningSerialization state initialDescription).
Proof.
  intros Hok. unfold bitcoinCashDebug, debug.
  cbn [clone bitcoinCashInstructionSet]. rewrite !cloneState_value.
  destruct (debugLoop_returns (length (script state)) state
              [mkDebuggingStep ""%string initialDescription state] Hok ltac:(lia))
    as [result Hresult].
  rewrite Hresult. eexists. reflexivity.
Qed.

End RuntimeTotal.

(** ** The trace of a pass starts with its banner *)

Section TraceShape.
Context {S : Type} `{MinimumProgramState S}.
Variable instructionSet : InstructionSet S.

Lemma debugLoop_extends fuel state trace result :
  debugLoop instructionSet fuel state trace = Returned result ->
  exists more, result = trace ++ more.
Proof.
  revert state trace. induction fuel as [|fuel IH]; intros state trace;
    cbn [debugLoop]; destruct (continue instructionSet state).
  - discriminate.
  - intros [= <-]. exists []. rewrite app_nil_r. reflexivity.
  - destruct (asm _ _); [|discriminate].
    destruct (description _ _); [|discriminate].
    destruct (operation _ _) as [state'|]; [|discriminate].
    intros Hloop. apply IH in Hloop as [more ->].
    eexists. rewrite <- app_assoc. reflexivity.
  - intros [= <-]. exists []. rewrite app_nil_r. reflexivity.
Qed.

(** The first step of every trace is the synthetic one: the banner, on a
    copy of the state the pass was started from. *)
Lemma debug_first_step fuel state initialDescription result :
  debug instructionSet fuel state initialDescription = Returned result ->
  exists more,
    result = mkDebuggingStep ""%string initialDescription
               (clone instructionSet (clone instructionSet state)) :: more.
Proof.
  unfold debug. intros Hdebug.
  apply debugLoop_extends in Hdebug as [more ->].
  exists more. reflexivity.
Qed.

End TraceShape.

(** ** The tests of the sources, replayed *)

Module TestsReplayed.
Import SimpleVm.

(** utils.spec.ts. *)
Example bigIntToBinUint64LE_test :
  bigIntToBinUint64LE 305419896 = [120; 86; 52; 18; 0; 0; 0; 0]
  /\ binToBigIntUint64LE [120; 86; 52; 18; 0; 0; 0; 0] = Some 305419896
  /\ binToHex [0; 1; 2; 42; 100; 101; 102; 255] = "0001022a646566ff"%string.
Proof. repeat split; vm_compute; reflexivity. Qed.

(** virtual-machine.spec.ts: the stacks and instruction pointers of the
    trace of [0, 1, 1, 171, 0, 2, 3], and the description the OP_ADD step
    carries. *)
Example simple_debug_test :
  let script := serializeScript [0; 1; 1] [0; 2; 3] in
  let trace := debug simpleInstructionSet 7 (mkSimpleState None 0 script [])
                     "Begin script evaluation." in
  (map (fun step => (Z.of_nat (s_ip (step_state step)), s_stack (step_state step)))
     <$> returned trace)
  = Some [(0, []); (1, [0]); (2, [1]); (3, [2]); (4, [2]); (5, [2; 0]);
          (6, [2; -1]); (7, [1])]
  /\ (map step_asm <$> returned trace)
     = Some [""; "OP_0"; "OP_INCREMENT"; "OP_INCREMENT"; "OP_CODESEPARATOR(ip: 4)";
             "OP_0"; "OP_DECREMENT"; "OP_ADD"]%string
  /\ (step_description <$> (returned trace ≫= last))
     = Some "Pop the top two items off the stack (-1, 2) and push their sum onto the stack."%string
  /\ evaluate simpleInstructionSet 7 (mkSimpleState None 0 script [])
     = Returned (mkSimpleState None 7 script [1])
  /\ step simpleInstructionSet (mkSimpleState None 6 script [2; -1])
     = Some (mkSimpleState None 7 script [1]).
Proof. repeat split; vm_compute; reflexivity. Qed.

(** The operator tests: OP_PUSHDATA1 with 100 bytes, OP_DATA_3, and the
    non-minimal OP_PUSHDATA1 of two bytes. *)
Example push_tests :
  let run script :=
    (fun trace => (fun step => (ip (step_state step), stack (step_state step),
                                error (step_state step))) <$> last trace)
      <$> debug_standIn (passState [] fullState script) "Begin script evaluation." in
  run (76 :: 100 :: map Z.of_nat (seq 0 100))
  = Some (Some (102%nat, [map Z.of_nat (seq 0 100)], None))
  /\ run [3; 170; 187; 204] = Some (Some (4%nat, [[170; 187; 204]], None))
  /\ run [76; 2; 170; 187] = Some (Some (1%nat, [], Some nonMinimalPush))
  /\ run [118] = Some (Some (1%nat, [], Some emptyStack)).
Proof. repeat split; vm_compute; reflexivity. Qed.

End TestsReplayed.

(* ===================================================================== *)
(** * Further properties: the codecs of utils.ts *)
(* ===================================================================== *)

Module CodecProperties.
Import Numbers Hex.

(** ** Little-endian sums *)

Lemma littleEndian_bound bytes :
  bytes_ok bytes -> 0 <= littleEndian bytes < 256 ^ len bytes.
Proof.
  induction 1 as [|b rest [Hb0 Hb1] _ IH]; cbn [littleEndian].
  - unfold len. cbn. lia.
  - replace (len (b :: rest)) with (Z.succ (len rest))
      by (unfold len; cbn [length]; lia).
    rewrite Z.pow_succ_r by apply len_nonneg. lia.
Qed.

Lemma pow256 n : 256 ^ n = 2 ^ (8 * n).
Proof.
  destruct (Z.le_gt_cases 0 n) as [Hn|Hn].
  - change 256 with (2 ^ 8). rewrite <- Z.pow_mul_r by lia. reflexivity.
  - rewrite !Z.pow_neg_r by lia. reflexivity.
Qed.

(** ** [Number] of a BigInt below 2^53 *)

Lemma roundMagnitude_exact m : 0 <= m < 2 ^ 53 -> roundMagnitude m = m.
Proof.
  intros [Hm0 Hm]. unfold roundMagnitude. cbv zeta.
  destruct (Z.leb_spec (Z.log2 m + 1) 53) as [|Hbig]; [reflexivity|].
  destruct (Z.eq_dec m 0) as [->|Hne]; [cbn in Hbig; lia|].
  assert (Z.log2 m < 53) by (apply Z.log2_lt_pow2; lia). lia.
Qed.

Lemma NumberOfBigInt_exact v : - 2 ^ 53 < v < 2 ^ 53 -> NumberOfBigInt v = Some v.
Proof.
  intros Hv. unfold NumberOfBigInt. cbv zeta.
  rewrite roundMagnitude_exact by lia.
  assert (2 ^ 53 < 2 ^ 1024) by (apply Z.pow_lt_mono_r; lia).
  destruct (Z.leb_spec (2 ^ 1024) (Z.abs v)); [lia|].
  f_equal. lia.
Qed.

Lemma ofInteger_exact v : - 2 ^ 53 < v < 2 ^ 53 -> ofInteger v = Finite v.
Proof. intros Hv. unfold ofInteger. rewrite NumberOfBigInt_exact by exact Hv. reflexivity. Qed.

(** ** [bigIntToBinUintLE] *)

Lemma bigIntToBinUintLE_digits bytes value :
  - 2 ^ 53 < value < 2 ^ 53 ->
  length (bigIntToBinUintLE value bytes) = bytes
  /\ bytes_ok (bigIntToBinUintLE value bytes)
  /\ littleEndian (bigIntToBinUintLE value bytes) = value mod 256 ^ Z.of_nat bytes.
Proof.
  unfold bigIntToBinUintLE. revert value.
  induction bytes as [|bytes IH]; intros value Hvalue; cbn [bigIntToBinUintLE_loop].
  - repeat split; [constructor|]. cbn. rewrite Z.mod_1_r. reflexivity.
  - rewrite NumberOfBigInt_exact by exact Hvalue. cbn [storeUint8].
    rewrite Z.shiftr_div_pow2 by lia. change (2 ^ 8) with 256.
    assert (Hq : - 2 ^ 53 < value / 256 < 2 ^ 53).
    { split.
      - apply Z.lt_le_trans with (- 2 ^ 53 / 256); [reflexivity|].
        apply Z.div_le_mono; lia.
      - apply Z.div_lt_upper_bound; lia. }
    destruct (IH (value / 256) Hq) as (Hlen & Hok & Hsum).
    split; [cbn [length]; rewrite Hlen; reflexivity|]. split.
    + constructor; [|exact Hok]. unfold ToUint8, is_byte.
      apply Z.mod_pos_bound. lia.
    + cbn [littleEndian]. rewrite Hsum. unfold ToUint8.
      rewrite Nat2Z.inj_succ, Z.pow_succ_r by lia.
      rewrite Z.rem_mul_r; [reflexivity|lia|].
      apply Z.pow_pos_nonneg; lia.
Qed.

(** ** [binToBigIntUintLE] *)

Lemma scaledByte_Some bin offset b :
  index bin offset = Some b -> 8 * offset < 1024 ->
  scaledByte bin offset = Some (b * 2 ^ (8 * offset)).
Proof.
  intros Hb Hoff. unfold scaledByte. rewrite Hb.
  destruct (Z.leb_spec 1024 (8 * offset)); [lia|reflexivity].
Qed.

Lemma index_drop {A} (bin : list A) (offset : nat) b rest :
  drop offset bin = b :: rest -> index bin (Z.of_nat offset) = Some b.
Proof.
  intros Hdrop. unfold index.
  destruct (Z.ltb_spec (Z.of_nat offset) 0); [lia|].
  rewrite Nat2Z.id. rewrite <- (Nat.add_0_r offset), <- lookup_drop, Hdrop.
  reflexivity.
Qed.

Lemma binToBigIntUintLE_loop_sum bin count (offset : nat) value :
  (offset + count <= length bin)%nat -> (offset + count <= 128)%nat ->
  binToBigIntUintLE_loop bin count (Z.of_nat offset) value
  = Some (value + 256 ^ Z.of_nat offset * littleEndian (take count (drop offset bin))).
Proof.
  revert offset value. induction count as [|count IH]; intros offset value Hlen Hmax.
  - cbn [binToBigIntUintLE_loop take littleEndian].
    rewrite Z.mul_0_r, Z.add_0_r. reflexivity.
  - cbn [binToBigIntUintLE_loop].
    destruct (drop offset bin) as [|b rest] eqn:Hdrop.
    { apply (f_equal length) in Hdrop. rewrite length_drop in Hdrop.
      cbn in Hdrop. lia. }
    rewrite (scaledByte_Some bin (Z.of_nat offset) b)
      by (eauto using index_drop; lia).
    replace (Z.of_nat offset + 1) with (Z.of_nat (S offset)) by lia.
    rewrite IH by lia.
    assert (Hrest : drop (S offset) bin = rest).
    { replace (S offset) with (offset + 1)%nat by lia.
      rewrite <- drop_drop, Hdrop. reflexivity. }
    rewrite Hrest. cbn [take littleEndian].
    rewrite Nat2Z.inj_succ, Z.pow_succ_r by lia.
    rewrite <- pow256. f_equal. ring.
Qed.

Lemma binToBigIntUintLE_loop_None bin count (offset : nat) value :
  (0 < count)%nat ->
  (length bin < offset + count)%nat \/ (128 < offset + count)%nat ->
  binToBigIntUintLE_loop bin count (Z.of_nat offset) value = None.
Proof.
  revert offset value. induction count as [|count IH]; intros offset value Hpos Hout;
    [lia|].
  cbn [binToBigIntUintLE_loop].
  destruct (scaledByte bin (Z.of_nat offset)) as [term|] eqn:Hterm; [|reflexivity].
  unfold scaledByte, index in Hterm.
  destruct (Z.ltb_spec (Z.of_nat offset) 0); [lia|].
  rewrite Nat2Z.id in Hterm.
  destruct (bin !! offset) as [b|] eqn:Hb; [|discriminate].
  apply lookup_lt_Some in Hb.
  destruct (Z.leb_spec 1024 (8 * Z.of_nat offset)); [discriminate|].
  replace (Z.of_nat offset + 1) with (Z.of_nat (S offset)) by lia.
  apply IH; lia.
Qed.

Lemma binToBigIntUintLE_take (bin : Uint8Array) (bytes : nat) :
  binToBigIntUintLE bin bytes
  = if (bytes <=? length bin)%nat && (bytes <=? 128)%nat
    then Some (littleEndian (take bytes bin))
    else None.
Proof.
  unfold binToBigIntUintLE. change 0 with (Z.of_nat 0) at 1.
  destruct (Nat.leb_spec bytes (length bin)) as [Hlen|Hlen];
    [destruct (Nat.leb_spec bytes 128) as [Hmax|Hmax]|]; cbn [andb].
  - rewrite binToBigIntUintLE_loop_sum by lia.
    cbn [drop Z.of_nat]. rewrite Z.pow_0_r, Z.mul_1_l, Z.add_0_l. reflexivity.
  - apply binToBigIntUintLE_loop_None; lia.
  - apply binToBigIntUintLE_loop_None; lia.
Qed.

(** X1: [binToBigIntUintLE(bin, bytes)] throws exactly when [bin] is shorter
    than [bytes] or [bytes] exceeds 128 (the power [2 ** 1024] is an
    infinity); otherwise it is the little-endian value of the first
    [bytes] bytes of [bin], whatever follows them. *)
Theorem binToBigIntUintLE_value (bin : Uint8Array) (bytes : nat) :
  (binToBigIntUintLE bin bytes = None
   <-> (length bin < bytes)%nat \/ (128 < bytes)%nat)
  /\ (forall v, binToBigIntUintLE bin bytes = Some v ->
       v = littleEndian (take bytes bin)).
Proof.
  rewrite binToBigIntUintLE_take.
  destruct (Nat.leb_spec bytes (length bin)) as [Hlen|Hlen];
    [destruct (Nat.leb_spec bytes 128) as [Hmax|Hmax]|]; cbn [andb].
  - split; [split; [discriminate|lia]|]. intros v [= <-]. reflexivity.
  - split; [split; [lia|reflexivity]|]. discriminate.
  - split; [split; [lia|reflexivity]|]. discriminate.
Qed.

(** X2: A BigInt of at most 53 bits written with [bigIntToBinUintLE] is read
    back by [binToBigIntUintLE], modulo 2^(8 bytes). *)
Theorem bigIntToBinUintLE_roundtrip (value : Z) (bytes : nat) :
  - 2 ^ 53 < value < 2 ^ 53 -> (bytes <= 128)%nat ->
  binToBigIntUintLE (bigIntToBinUintLE value bytes) bytes
  = Some (value mod 2 ^ (8 * Z.of_nat bytes)).
Proof.
  intros Hvalue Hbytes.
  destruct (bigIntToBinUintLE_digits bytes value Hvalue) as (Hlen & _ & Hsum).
  rewrite binToBigIntUintLE_take, Hlen.
  destruct (Nat.leb_spec bytes bytes); [|lia].
  destruct (Nat.leb_spec bytes 128); [|lia]. cbn [andb].
  rewrite <- Hlen at 1. rewrite firstn_all, Hsum, pow256. reflexivity.
Qed.

Lemma bigIntToBinUintLE_roundtrip_witness :
  binToBigIntUintLE (bigIntToBinUintLE 305419896 8) 8 = Some 305419896.
Proof.
  rewrite (bigIntToBinUintLE_roundtrip 305419896 8); [reflexivity| |lia].
  vm_compute. split; reflexivity.
Defined.

(** ** VarInt *)

Lemma slice_in_range {A} (a : list A) (offset : Z) (size : nat) :
  0 <= offset -> offset + Z.of_nat size <= len a ->
  slice a offset (offset + Z.of_nat size) = take size (drop (Z.to_nat offset) a).
Proof.
  intros Hoff Hend. unfold slice, clamp_index.
  destruct (Z.ltb_spec offset 0); [lia|].
  destruct (Z.ltb_spec (offset + Z.of_nat size) 0); [lia|].
  rewrite !Z.min_l by lia.
  f_equal. lia.
Qed.

Lemma slice_length_short {A} (a : list A) (offset : Z) (size : nat) :
  0 <= offset -> (0 < size)%nat -> len a < offset + Z.of_nat size ->
  (length (slice a offset (offset + Z.of_nat size)) < size)%nat.
Proof.
  intros Hoff Hpos Hend. unfold slice, clamp_index.
  destruct (Z.ltb_spec offset 0); [lia|].
  destruct (Z.ltb_spec (offset + Z.of_nat size) 0); [lia|].
  rewrite length_take, length_drop. unfold len in *. lia.
Qed.

Lemma varIntPrefixToSize_cases firstByte :
  let size := varIntPrefixToSize firstByte in
  (size = 1 \/ size = 2 \/ size = 4 \/ size = 8)%nat.
Proof.
  destruct firstByte as [[|p|p]|]; cbn; auto.
  repeat (destruct p as [p|p|]; cbn; auto).
Qed.

(** X3: What [readBitcoinVarInt] reads: the width [size] it takes from the
    byte at [offset] (1, 2, 4 or 8), and then the little-endian value of
    the [size] bytes that start at [offset], the first byte included.  It
    throws when fewer than [size] bytes are left. *)
Theorem readBitcoinVarInt_reads (bin : Uint8Array) (offset : Z) :
  0 <= offset ->
  let size := varIntPrefixToSize (index bin offset) in
  readBitcoinVarInt bin offset
  = if offset + Z.of_nat size <=? len bin
    then Some {| nextOffset := offset + Z.of_nat size;
                 value := littleEndian (take size (drop (Z.to_nat offset) bin)) |}
    else None.
Proof.
  intros Hoff size. unfold readBitcoinVarInt. fold size.
  rewrite binToBigIntUintLE_take.
  assert (Hsize : (0 < size <= 128)%nat)
    by (destruct (varIntPrefixToSize_cases (index bin offset)) as [H|[H|[H|H]]];
        fold size in H; lia).
  destruct (Z.leb_spec (offset + Z.of_nat size) (len bin)) as [Hin|Hout].
  - rewrite slice_in_range by lia.
    assert (Hlen : length (take size (drop (Z.to_nat offset) bin)) = size)
      by (rewrite length_take, length_drop; unfold len in Hin; lia).
    rewrite Hlen.
    destruct (Nat.leb_spec size size); [|lia].
    destruct (Nat.leb_spec size 128); [|lia]. cbn [andb].
    rewrite take_take, Nat.min_id. reflexivity.
  - pose proof (slice_length_short bin offset size Hoff ltac:(lia) Hout) as Hshort.
    destruct (Nat.leb_spec size (length (slice bin offset (offset + Z.of_nat size))));
      [lia|reflexivity].
Qed.

Lemma readBitcoinVarInt_reads_witness :
  readBitcoinVarInt [7; 254; 1; 0; 0; 0; 9] 1
  = Some {| nextOffset := 5; value := 510 |}.
Proof.
  rewrite (readBitcoinVarInt_reads [7; 254; 1; 0; 0; 0; 9] 1); [reflexivity|lia].
Defined.

(** X4: The format [bigIntToBitcoinVarInt] writes, for a value of at most 53
    bits: the value itself up to 0xfc, else the prefix 0xfd, 0xfe or 0xff
    followed by the value in 2, 4 or 8 little-endian bytes; the first byte
    alone tells the width. *)
Theorem bigIntToBitcoinVarInt_format (v : Z) :
  0 <= v < 2 ^ 53 ->
  exists prefix body,
    bigIntToBitcoinVarInt v = prefix ++ body
    /\ bytes_ok body
    /\ littleEndian body = v
    /\ ((v <= 252 /\ prefix = [] /\ length body = 1%nat)
        \/ (252 < v <= 65535 /\ prefix = [253] /\ length body = 2%nat)
        \/ (65535 < v <= 4294967295 /\ prefix = [254] /\ length body = 4%nat)
        \/ (4294967295 < v /\ prefix = [255] /\ length body = 8%nat)).
Proof.
  intros Hv. unfold bigIntToBitcoinVarInt.
  unfold Uint8MaxValue, Uint16MaxValue, Uint32MaxValue, Uint16Prefix, Uint32Prefix,
    Uint64Prefix.
  assert (Hdigits : forall bytes, v < 256 ^ Z.of_nat bytes ->
    length (bigIntToBinUintLE v bytes) = bytes
    /\ bytes_ok (bigIntToBinUintLE v bytes)
    /\ littleEndian (bigIntToBinUintLE v bytes) = v).
  { intros bytes Hfit.
    destruct (bigIntToBinUintLE_digits bytes v ltac:(lia)) as (Hlen & Hok & Hsum).
    rewrite Z.mod_small in Hsum by lia. auto. }
  destruct (Z.leb_spec v 252) as [H1|H1];
    [|destruct (Z.leb_spec v 65535) as [H2|H2];
      [|destruct (Z.leb_spec v 4294967295) as [H3|H3]]].
  - destruct (Hdigits 1%nat ltac:(cbn; lia)) as (Hlen & Hok & Hsum).
    exists [], (bigIntToBinUintLE v 1). auto 10.
  - destruct (Hdigits 2%nat ltac:(cbn; lia)) as (Hlen & Hok & Hsum).
    exists [253], (bigIntToBinUintLE v 2). split; [reflexivity|]. auto 10.
  - destruct (Hdigits 4%nat ltac:(cbn; lia)) as (Hlen & Hok & Hsum).
    exists [254], (bigIntToBinUintLE v 4). split; [reflexivity|]. auto 10.
  - destruct (Hdigits 8%nat ltac:(cbn; lia)) as (Hlen & Hok & Hsum).
    exists [255], (bigIntToBinUintLE v 8). split; [reflexivity|]. auto 10.
Qed.

Lemma bigIntToBitcoinVarInt_format_witness :
  exists prefix body,
    bigIntToBitcoinVarInt 70000 = prefix ++ body
    /\ bytes_ok body
    /\ littleEndian body = 70000
    /\ ((70000 <= 252 /\ prefix = [] /\ length body = 1%nat)
        \/ (252 < 70000 <= 65535 /\ prefix = [253] /\ length body = 2%nat)
        \/ (65535 < 70000 <= 4294967295 /\ prefix = [254] /\ length body = 4%nat)
        \/ (4294967295 < 70000 /\ prefix = [255] /\ length body = 8%nat)).
Proof.
  apply (bigIntToBitcoinVarInt_format 70000). vm_compute. split; [discriminate|reflexivity].
Defined.

(** ** [numberToBinUintLE] and [binToNumberUintLE] *)

Lemma numberToBinUintLE_loop_small bytes w :
  0 <= w < 2 ^ 32 ->
  length (numberToBinUintLE_loop bytes w) = bytes
  /\ bytes_ok (numberToBinUintLE_loop bytes w)
  /\ littleEndian (numberToBinUintLE_loop bytes w) = w mod 256 ^ Z.of_nat bytes.
Proof.
  revert w. induction bytes as [|bytes IH]; intros w Hw; cbn [numberToBinUintLE_loop].
  - repeat split; [constructor|]. cbn. rewrite Z.mod_1_r. reflexivity.
  - unfold ToUint32. rewrite (Z.mod_small w) by lia.
    rewrite Z.shiftr_div_pow2 by lia. change (2 ^ 8) with 256.
    assert (Hq : 0 <= w / 256 < 2 ^ 32).
    { split; [apply Z.div_pos; lia|]. apply Z.div_lt_upper_bound; lia. }
    destruct (IH (w / 256) Hq) as (Hlen & Hok & Hsum).
    split; [cbn [length]; rewrite Hlen; reflexivity|]. split.
    + constructor; [|exact Hok]. unfold ToUint8, is_byte.
      apply Z.mod_pos_bound. lia.
    + cbn [littleEndian]. rewrite Hsum. unfold ToUint8.
      rewrite Nat2Z.inj_succ, Z.pow_succ_r by lia.
      rewrite Z.rem_mul_r; [reflexivity|lia|].
      apply Z.pow_pos_nonneg; lia.
Qed.

Lemma numberToBinUintLE_digits (value : Z) (bytes : nat) :
  length (numberToBinUintLE value bytes) = bytes
  /\ bytes_ok (numberToBinUintLE value bytes)
  /\ littleEndian (numberToBinUintLE value bytes)
     = (value mod 2 ^ 32) mod 256 ^ Z.of_nat bytes.
Proof.
  unfold numberToBinUintLE. destruct bytes as [|bytes]; cbn [numberToBinUintLE_loop].
  - repeat split; [constructor|]. cbn. rewrite Z.mod_1_r. reflexivity.
  - set (w := value mod 2 ^ 32).
    assert (Hw : 0 <= w < 2 ^ 32) by (apply Z.mod_pos_bound; lia).
    unfold ToUint32. fold w.
    rewrite Z.shiftr_div_pow2 by lia. change (2 ^ 8) with 256.
    assert (Hq : 0 <= w / 256 < 2 ^ 32).
    { split; [apply Z.div_pos; lia|]. apply Z.div_lt_upper_bound; lia. }
    destruct (numberToBinUintLE_loop_small bytes (w / 256) Hq) as (Hlen & Hok & Hsum).
    split; [cbn [length]; rewrite Hlen; reflexivity|]. split.
    + constructor; [|exact Hok]. unfold ToUint8, is_byte.
      apply Z.mod_pos_bound. lia.
    + cbn [littleEndian]. rewrite Hsum. unfold ToUint8.
      rewrite Nat2Z.inj_succ, Z.pow_succ_r by lia.
      rewrite Z.rem_mul_r; [|lia|apply Z.pow_pos_nonneg; lia].
      f_equal. subst w. symmetry. apply Z.mod_mod_divide.
      exists 16777216. reflexivity.
Qed.

(** [numberToBinUintLE(value, bytes)] writes [bytes] bytes whose
    little-endian value is [value] modulo 2^32 (the effect of [>>>]),
    modulo 2^(8 bytes): an integer is wrapped, not refused. *)
Theorem numberToBinUintLE_value (value : Z) (bytes : nat) :
  length (numberToBinUintLE value bytes) = bytes
  /\ bytes_ok (numberToBinUintLE value bytes)
  /\ littleEndian (numberToBinUintLE value bytes)
     = (value mod 2 ^ 32) mod 256 ^ Z.of_nat bytes.
Proof. exact (numberToBinUintLE_digits value bytes). Qed.

Lemma binToNumberUintLE_loop_NaN bin count offset :
  binToNumberUintLE_loop bin count offset NaN = NaN.
Proof.
  revert offset. induction count as [|count IH]; intros offset; [reflexivity|].
  cbn [binToNumberUintLE_loop add]. apply IH.
Qed.

Lemma add_NaN_r a : add a NaN = NaN.
Proof. destruct a; reflexivity. Qed.

Lemma binToNumberUintLE_loop_short bin count (offset : nat) value :
  (0 < count)%nat -> (length bin < offset + count)%nat ->
  binToNumberUintLE_loop bin count (Z.of_nat offset) value = NaN.
Proof.
  revert offset value. induction count as [|count IH]; intros offset value Hpos Hout;
    [lia|].
  cbn [binToNumberUintLE_loop].
  destruct (index bin (Z.of_nat offset)) as [b|] eqn:Hb.
  - unfold index in Hb. destruct (Z.ltb_spec (Z.of_nat offset) 0); [lia|].
    rewrite Nat2Z.id in Hb. apply lookup_lt_Some in Hb.
    replace (Z.of_nat offset + 1) with (Z.of_nat (S offset)) by lia.
    apply IH; lia.
  - cbn [ofElement mul]. rewrite add_NaN_r. apply binToNumberUintLE_loop_NaN.
Qed.

Lemma binToNumberUintLE_loop_sum bin count (offset : nat) value :
  bytes_ok bin ->
  (offset + count <= length bin)%nat -> (offset + count <= 128)%nat ->
  0 <= value ->
  value + 256 ^ Z.of_nat offset * littleEndian (take count (drop offset bin)) < 2 ^ 53 ->
  binToNumberUintLE_loop bin count (Z.of_nat offset) (Finite value)
  = Finite (value + 256 ^ Z.of_nat offset * littleEndian (take count (drop offset bin))).
Proof.
  intros Hok. revert offset value.
  induction count as [|count IH]; intros offset value Hlen Hmax Hvalue Hfit.
  - cbn [binToNumberUintLE_loop take littleEndian].
    rewrite Z.mul_0_r, Z.add_0_r. reflexivity.
  - cbn [binToNumberUintLE_loop].
    destruct (drop offset bin) as [|b rest] eqn:Hdrop.
    { apply (f_equal length) in Hdrop. rewrite length_drop in Hdrop.
      cbn in Hdrop. lia. }
    assert (Hrest : drop (S offset) bin = rest).
    { replace (S offset) with (offset + 1)%nat by lia.
      rewrite <- drop_drop, Hdrop. reflexivity. }
    assert (Hdropok : bytes_ok (b :: rest))
      by (rewrite <- Hdrop; apply bytes_ok_drop; exact Hok).
    apply Forall_cons in Hdropok as [[Hb0 Hb1] Hrestok].
    pose proof (littleEndian_bound (take count rest) (bytes_ok_take _ _ Hrestok)) as [Hle _].
    cbn [take littleEndian] in Hfit.
    assert (Hpow : 0 < 256 ^ Z.of_nat offset) by (apply Z.pow_pos_nonneg; lia).
    rewrite (index_drop bin offset b rest Hdrop). cbn [ofElement].
    unfold powerOfTwo.
    destruct (Z.leb_spec 1024 (8 * Z.of_nat offset)); [lia|].
    cbn [mul]. rewrite <- pow256.
    rewrite ofInteger_exact by nia.
    cbn [add]. rewrite ofInteger_exact by nia.
    replace (Z.of_nat offset + 1) with (Z.of_nat (S offset)) by lia.
    rewrite IH; rewrite ?Hrest; rewrite ?Nat2Z.inj_succ, ?Z.pow_succ_r by lia;
      try lia; try nia.
    cbn [take littleEndian]. f_equal. ring.
Qed.

Lemma binToNumberUintLE_exact bin bytes :
  bytes_ok bin -> (bytes <= length bin)%nat -> (bytes <= 128)%nat ->
  littleEndian (take bytes bin) < 2 ^ 53 ->
  binToNumberUintLE bin bytes = Finite (littleEndian (take bytes bin)).
Proof.
  intros Hok Hlen Hmax Hfit. unfold binToNumberUintLE.
  change 0 with (Z.of_nat 0) at 1.
  rewrite binToNumberUintLE_loop_sum; cbn [drop Z.of_nat];
    rewrite ?Z.pow_0_r, ?Z.mul_1_l, ?Z.add_0_l; auto; lia.
Qed.

(** X5: [binToNumberUintLE(bin, bytes)] never throws: it is the little-endian
    value of the first [bytes] bytes when that value is below 2^53 (no
    rounding), and NaN when [bin] is shorter than [bytes]. *)
Theorem binToNumberUintLE_value (bin : Uint8Array) (bytes : nat) :
  bytes_ok bin -> (bytes <= 128)%nat ->
  littleEndian (take bytes bin) < 2 ^ 53 ->
  binToNumberUintLE bin bytes
  = if (bytes <=? length bin)%nat
    then Finite (littleEndian (take bytes bin))
    else NaN.
Proof.
  intros Hok Hmax Hfit.
  destruct (Nat.leb_spec bytes (length bin)) as [Hlen|Hlen].
  - apply binToNumberUintLE_exact; assumption.
  - unfold binToNumberUintLE. change 0 with (Z.of_nat 0) at 1.
    apply binToNumberUintLE_loop_short; lia.
Qed.

Lemma binToNumberUintLE_value_witness :
  binToNumberUintLE [120; 86; 52; 18; 7] 4 = Finite 305419896
  /\ binToNumberUintLE [120; 86] 4 = NaN.
Proof.
  split.
  - rewrite (binToNumberUintLE_value [120; 86; 52; 18; 7] 4);
      [reflexivity| |lia|reflexivity].
    repeat constructor; unfold is_byte; lia.
  - rewrite (binToNumberUintLE_value [120; 86] 4);
      [reflexivity| |lia|reflexivity].
    repeat constructor; unfold is_byte; lia.
Defined.

(** X6: An integer written with [numberToBinUintLE] is read back by
    [binToNumberUintLE] modulo 2^32 and modulo 2^(8 bytes): exactly, when
    it is a uint32 that fits the width. *)
Theorem numberToBinUintLE_roundtrip (value : Z) (bytes : nat) :
  (bytes <= 128)%nat ->
  binToNumberUintLE (numberToBinUintLE value bytes) bytes
  = Finite ((value mod 2 ^ 32) mod 256 ^ Z.of_nat bytes).
Proof.
  intros Hmax.
  destruct (numberToBinUintLE_digits value bytes) as (Hlen & Hok & Hsum).
  assert (Htake : take bytes (numberToBinUintLE value bytes) = numberToBinUintLE value bytes)
    by (rewrite <- Hlen at 1; apply firstn_all).
  assert (Hw : 0 <= value mod 2 ^ 32 < 2 ^ 32) by (apply Z.mod_pos_bound; lia).
  assert (Hpow : 0 < 256 ^ Z.of_nat bytes) by (apply Z.pow_pos_nonneg; lia).
  pose proof (Z.mod_le (value mod 2 ^ 32) (256 ^ Z.of_nat bytes) ltac:(lia) Hpow) as Hle.
  rewrite binToNumberUintLE_exact; rewrite ?Htake, ?Hsum; auto; try lia.
Qed.

Lemma numberToBinUintLE_roundtrip_witness :
  binToNumberUintLE (numberToBinUintLE 4660 2) 2 = Finite 4660.
Proof. rewrite (numberToBinUintLE_roundtrip 4660 2); [reflexivity|lia]. Defined.

End CodecProperties.

(* ===================================================================== *)
(** * Further properties: hexadecimal strings *)
(* ===================================================================== *)

Module HexProperties.
Import Numbers Hex.

Lemma append_cons (x : Ascii.ascii) (a b : string) :
  String x a +:+ b = String x (a +:+ b).
Proof. reflexivity. Qed.

Lemma append_nil (b : string) : EmptyString +:+ b = b.
Proof. reflexivity. Qed.

Lemma append_assoc (a b c : string) : (a +:+ b) +:+ c = a +:+ (b +:+ c).
Proof.
  induction a as [|x a IH]; [reflexivity|].
  rewrite !append_cons, IH. reflexivity.
Qed.

Lemma append_empty_r (a : string) : a +:+ EmptyString = a.
Proof.
  induction a as [|x a IH]; [reflexivity|].
  rewrite append_cons, IH. reflexivity.
Qed.

Lemma binToHex_fold (bytes : Uint8Array) (acc : string) :
  fold_left (fun str byte => str +:+ hexDigit (byte / 16) +:+ hexDigit (byte mod 16))
            bytes acc
  = acc +:+ binToHex bytes.
Proof.
  unfold binToHex. revert acc.
  induction bytes as [|byte rest IH]; intros acc; cbn [fold_left].
  - rewrite append_empty_r. reflexivity.
  - rewrite IH. rewrite (IH (EmptyString +:+ _)).
    rewrite append_nil, !append_assoc. reflexivity.
Qed.

Lemma binToHex_cons (byte : Z) (rest : Uint8Array) :
  binToHex (byte :: rest)
  = hexDigit (byte / 16) +:+ hexDigit (byte mod 16) +:+ binToHex rest.
Proof.
  unfold binToHex at 1. cbn [fold_left]. rewrite binToHex_fold.
  rewrite append_nil, append_assoc. reflexivity.
Qed.

Lemma hexDigit_single d : exists c, hexDigit d = String c EmptyString.
Proof.
  unfold hexDigit.
  destruct d as [|p|p]; eauto.
  do 4 (destruct p as [p|p|]; eauto).
Qed.

Lemma binToHex_length (bytes : Uint8Array) :
  String.length (binToHex bytes) = (2 * length bytes)%nat.
Proof.
  induction bytes as [|byte rest IH]; [reflexivity|].
  rewrite binToHex_cons.
  destruct (hexDigit_single (byte / 16)) as [c1 ->].
  destruct (hexDigit_single (byte mod 16)) as [c2 ->].
  rewrite !append_cons, !append_nil.
  cbn [String.length length]. rewrite IH. lia.
Qed.

Lemma binToHex_chunk (bytes : Uint8Array) (i : nat) (byte : Z) :
  bytes !! i = Some byte ->
  String.substring (2 * i) 2 (binToHex bytes)
  = hexDigit (byte / 16) +:+ hexDigit (byte mod 16).
Proof.
  revert i. induction bytes as [|b rest IH]; intros i Hi; [discriminate|].
  rewrite binToHex_cons.
  destruct (hexDigit_single (b / 16)) as [c1 Hc1].
  destruct (hexDigit_single (b mod 16)) as [c2 Hc2].
  destruct i as [|i].
  - injection Hi as <-. rewrite Hc1, Hc2, !append_cons, !append_nil.
    cbn [Nat.mul String.substring]. destruct (binToHex rest); reflexivity.
  - rewrite Hc1, Hc2, !append_cons, !append_nil.
    replace (2 * S i)%nat with (S (S (2 * i))) by lia.
    cbn [String.substring]. apply IH. exact Hi.
Qed.

Lemma parseInt16_hexDigits byte :
  is_byte byte ->
  toUint8 (parseInt16 (hexDigit (byte / 16) +:+ hexDigit (byte mod 16))) = byte.
Proof.
  intros Hb. apply Z.eqb_eq.
  apply (byte_forallb
    (fun x => toUint8 (parseInt16 (hexDigit (x / 16) +:+ hexDigit (x mod 16))) =? x));
    [vm_compute; reflexivity|exact Hb].
Qed.

Lemma range_small (n : nat) :
  Z.of_nat n <= 4294967295 ->
  range (Finite (Z.of_nat n)) 0 = Some (map Z.of_nat (seq 0 n)).
Proof.
  intros Hn. unfold range.
  destruct (Z.leb_spec (Z.of_nat n) 0) as [H0|H0].
  - replace n with 0%nat by lia. reflexivity.
  - destruct (Z.ltb_spec 4294967295 (Z.of_nat n)); [lia|].
    rewrite Nat2Z.id. reflexivity.
Qed.

Lemma hexToBin_binToHex (bytes : Uint8Array) :
  bytes_ok bytes -> len bytes <= 4294967295 ->
  hexToBin (binToHex bytes) = Some bytes.
Proof.
  intros Hok Hlen. unfold hexToBin, splitEvery.
  rewrite binToHex_length. unfold ceilOfQuotient.
  change (2 =? 0) with false. cbv iota.
  replace (- (- Z.of_nat (2 * length bytes) / 2)) with (Z.of_nat (length bytes)).
  2:{ replace (- Z.of_nat (2 * length bytes)) with ((- Z.of_nat (length bytes)) * 2) by lia.
      rewrite Z.div_mul by lia. lia. }
  rewrite range_small by exact Hlen. cbn [mbind option_bind].
  f_equal. rewrite !map_map.
  apply list_eq. intros i. rewrite list_lookup_fmap.
  destruct (bytes !! i) as [byte|] eqn:Hbyte.
  - pose proof (lookup_lt_Some _ _ _ Hbyte) as Hi.
    rewrite lookup_seq_lt by exact Hi. cbn [fmap option_fmap option_map Nat.add].
    f_equal. unfold stringSlice. rewrite binToHex_length. unfold clamp_index.
    destruct (Z.ltb_spec (Z.of_nat i * 2) 0); [lia|].
    destruct (Z.ltb_spec (Z.of_nat i * 2 + 2) 0); [lia|].
    rewrite !Z.min_l by lia.
    replace (Z.to_nat (Z.of_nat i * 2)) with (2 * i)%nat by lia.
    replace (Z.to_nat (Z.of_nat i * 2 + 2 - Z.of_nat i * 2)) with 2%nat by lia.
    rewrite (binToHex_chunk bytes i byte Hbyte).
    rewrite parseInt16_hexDigits
      by exact (proj1 (Forall_lookup _ _) Hok i byte Hbyte).
    symmetry. exact Hbyte.
  - pose proof (proj1 (lookup_ge_None _ _) Hbyte) as Hge.
    rewrite lookup_seq_ge by exact Hge. symmetry. exact Hbyte.
Qed.

(** X7: [hexToBin] undoes [binToHex], and [swapEndianness] of the hexadecimal
    text of some bytes is the text of the same bytes in reverse order. *)
Theorem hexToBin_binToHex_roundtrip (bytes : Uint8Array) :
  bytes_ok bytes -> len bytes <= 4294967295 ->
  hexToBin (binToHex bytes) = Some bytes
  /\ swapEndianness (binToHex bytes) = Some (binToHex (reverse bytes)).
Proof.
  intros Hok Hlen. unfold swapEndianness.
  rewrite hexToBin_binToHex by assumption. split; reflexivity.
Qed.

Lemma hexToBin_binToHex_roundtrip_witness :
  hexToBin (binToHex [42; 100; 255]) = Some [42; 100; 255]
  /\ swapEndianness (binToHex [42; 100; 255]) = Some (binToHex (reverse [42; 100; 255])).
Proof.
  apply (hexToBin_binToHex_roundtrip [42; 100; 255]).
  - repeat constructor; unfold is_byte; lia.
  - vm_compute. discriminate.
Defined.

Lemma toUint8_is_byte x : is_byte (toUint8 x).
Proof.
  destruct x; cbn [toUint8]; unfold is_byte, ToUint8; try lia.
  apply Z.mod_pos_bound. lia.
Qed.

Lemma parsed_chunks_bytes (chunks : list string) :
  bytes_ok (map (fun byte => toUint8 (parseInt16 byte)) chunks).
Proof.
  induction chunks as [|chunk chunks IH]; constructor;
    [apply toUint8_is_byte|exact IH].
Qed.

(** [parseInt] reads nothing from a text whose first character is
    neither white space, nor a sign, nor a hexadecimal digit. *)
Lemma parseInt16_unreadable (c : Ascii.ascii) (rest : string) :
  isWhiteSpace c = false ->
  codeUnit c <> 45%nat -> codeUnit c <> 43%nat ->
  digitValue c = None ->
  parseInt16 (String c rest) = NaN.
Proof.
  intros Hspace Hminus Hplus Hdigit.
  unfold parseInt16. cbn [trimStart]. rewrite Hspace.
  unfold stripSign.
  destruct (Nat.eqb_spec (codeUnit c) 45); [contradiction|].
  destruct (Nat.eqb_spec (codeUnit c) 43); [contradiction|].
  assert (Hzero : (codeUnit c =? 48)%nat = false).
  { apply Nat.eqb_neq. intros H48. unfold digitValue in Hdigit.
    unfold codeUnit in H48. rewrite H48 in Hdigit. discriminate. }
  assert (Hprefix : stripHexPrefix (String c rest) = String c rest).
  { unfold stripHexPrefix. destruct rest as [|d rest']; [reflexivity|].
    rewrite Hzero. reflexivity. }
  rewrite Hprefix. cbn [digitsPrefix]. rewrite Hdigit. reflexivity.
Qed.

(** X8: [hexToBin] validates nothing: any string of up to 2 (2^32 - 1)
    characters is decoded, to one byte per started pair of characters.
    The byte of a pair is what [parseInt] reads from it, modulo 256, and
    0 when [parseInt] cannot read it (NaN): so it is when the pair starts
    with a character that is neither white space, nor a sign, nor a
    hexadecimal digit. *)
Theorem hexToBin_accepts_any (hex : string) :
  Z.of_nat (String.length hex) <= 8589934590 ->
  exists bin,
    hexToBin hex = Some bin
    /\ bytes_ok bin
    /\ len bin = (Z.of_nat (String.length hex) + 1) / 2
    /\ forall i : nat,
         Z.of_nat i < len bin ->
         let pair := stringSlice hex (Z.of_nat i * 2) (Z.of_nat i * 2 + 2) in
         bin !! i = Some (toUint8 (parseInt16 pair))
         /\ (parseInt16 pair = NaN -> bin !! i = Some 0)
         /\ (forall c rest,
               pair = String c rest ->
               isWhiteSpace c = false ->
               codeUnit c <> 45%nat -> codeUnit c <> 43%nat ->
               digitValue c = None ->
               bin !! i = Some 0).
Proof.
  intros Hlen. unfold hexToBin, splitEvery, ceilOfQuotient.
  change (2 =? 0) with false. cbv iota.
  set (n := Z.of_nat (String.length hex)) in *.
  assert (Hceil : - (- n / 2) = (n + 1) / 2).
  { pose proof (Z.div_mod (- n) 2 ltac:(lia)) as H1.
    pose proof (Z.mod_pos_bound (- n) 2 ltac:(lia)) as H2.
    pose proof (Z.div_mod (n + 1) 2 ltac:(lia)) as H3.
    pose proof (Z.mod_pos_bound (n + 1) 2 ltac:(lia)) as H4. lia. }
  rewrite Hceil.
  assert (Hq : 0 <= (n + 1) / 2 <= 4294967295).
  { assert (0 <= n) by (subst n; lia).
    split; [apply Z.div_pos; lia|].
    assert ((n + 1) / 2 < 4294967296) by (apply Z.div_lt_upper_bound; lia). lia. }
  replace (Finite ((n + 1) / 2)) with (Finite (Z.of_nat (Z.to_nat ((n + 1) / 2))))
    by (f_equal; lia).
  rewrite range_small by lia. cbn [mbind option_bind].
  eexists. split; [reflexivity|].
  assert (Hcount : len (map (fun byte => toUint8 (parseInt16 byte))
                     (map (fun begin => stringSlice hex begin (begin + 2))
                        (map (fun index => index * 2)
                           (map Z.of_nat (seq 0 (Z.to_nat ((n + 1) / 2)))))))
                   = (n + 1) / 2)
    by (unfold len; rewrite !length_map, length_seq; lia).
  split; [|split; [exact Hcount|]].
  - apply parsed_chunks_bytes.
  - intros i Hi. rewrite Hcount in Hi.
    set (pair := stringSlice hex (Z.of_nat i * 2) (Z.of_nat i * 2 + 2)).
    assert (Hbyte : map (fun byte => toUint8 (parseInt16 byte))
                      (map (fun begin => stringSlice hex begin (begin + 2))
                         (map (fun index => index * 2)
                            (map Z.of_nat (seq 0 (Z.to_nat ((n + 1) / 2))))))
                    !! i = Some (toUint8 (parseInt16 pair))).
    { rewrite !map_map, list_lookup_fmap.
      rewrite lookup_seq_lt by lia. reflexivity. }
    split; [exact Hbyte|]. split.
    + intros Hnan. rewrite Hnan in Hbyte. exact Hbyte.
    + intros c rest Hpair Hspace Hminus Hplus Hdigit.
      rewrite Hpair in Hbyte.
      rewrite (parseInt16_unreadable c rest Hspace Hminus Hplus Hdigit) in Hbyte.
      exact Hbyte.
Qed.

(** The theorem at [zz1]: the pair [zz] cannot be read and gives the byte
    0, the single character [1] gives the byte 1. *)
Lemma hexToBin_accepts_any_witness :
  hexToBin "zz1" = Some [0; 1]
  /\ exists bin,
       hexToBin "zz1" = Some bin
       /\ bytes_ok bin
       /\ len bin = (Z.of_nat (String.length "zz1") + 1) / 2
       /\ forall i : nat,
            Z.of_nat i < len bin ->
            let pair := stringSlice "zz1" (Z.of_nat i * 2) (Z.of_nat i * 2 + 2) in
            bin !! i = Some (toUint8 (parseInt16 pair))
            /\ (parseInt16 pair = NaN -> bin !! i = Some 0)
            /\ (forall c rest,
                  pair = String c rest ->
                  isWhiteSpace c = false ->
                  codeUnit c <> 45%nat -> codeUnit c <> 43%nat ->
                  digitValue c = None ->
                  bin !! i = Some 0).
Proof.
  split; [reflexivity|].
  apply (hexToBin_accepts_any "zz1"). vm_compute. discriminate.
Defined.

End HexProperties.

(* ===================================================================== *)
(** * Further properties: Script Numbers *)
(* ===================================================================== *)

Module ScriptNumberProperties.

(** An encoding from the digits of the magnitude: the sign goes into the
    high bit of the top digit or, when that bit is taken, into a byte of
    its own. *)
Lemma bigIntToScriptNumber_of_digits (n : Z) (init : list Z) (top : Z) :
  n <> 0 ->
  encodeLoop (Z.abs n) [] = init ++ [top] ->
  bytes_ok (init ++ [top]) ->
  bigIntToScriptNumber n
  = if 128 <=? top
    then (init ++ [top]) ++ [if n <? 0 then 128 else 0]
    else init ++ [if n <? 0 then top + 128 else top].
Proof.
  intros Hne Henc Hok. unfold bigIntToScriptNumber.
  destruct (Z.eqb_spec n 0) as [|_]; [contradiction|].
  cbv zeta.
  replace (if n <? 0 then - n else n) with (Z.abs n)
    by (destruct (Z.ltb_spec n 0); lia).
  rewrite Henc, index_last, last_snoc. cbn [ToInt32_value].
  destruct (proj1 (bytes_ok_snoc _ _) Hok) as [Hinit Htopb].
  rewrite byte_and_128_pos by exact Htopb.
  destruct Htopb as [Htop0 Htop256].
  destruct (Z.leb_spec 128 top) as [Hhigh|Hlow].
  - unfold push. apply map_ToUint8_bytes.
    apply bytes_ok_snoc. split; [exact Hok|].
    destruct (n <? 0); unfold is_byte; lia.
  - destruct (n <? 0).
    + pose proof (byte_or_128 top ltac:(unfold is_byte; lia)) as Hor.
      apply Z.eqb_eq in Hor. rewrite Hor.
      rewrite (Z.mod_small top 128) by lia.
      replace (Z.to_nat (len (init ++ [top]) - 1)) with (length init + 0)%nat
        by (rewrite len_snoc; unfold len; lia).
      rewrite insert_app_r.
      change (<[0%nat := top + 128]> [top]) with [top + 128].
      apply map_ToUint8_bytes.
      apply bytes_ok_snoc. split; [exact Hinit|unfold is_byte; lia].
    + apply map_ToUint8_bytes. exact Hok.
Qed.

(** The shape of an encoding: the base-256 digits of the magnitude, the
    last of them not zero, and the sign. *)
Lemma bigIntToScriptNumber_shape (n : Z) :
  n <> 0 ->
  exists init top,
    bytes_ok (init ++ [top]) /\ 0 < top
    /\ magnitudeSum (init ++ [top]) 0 = Z.abs n
    /\ bigIntToScriptNumber n
       = if 128 <=? top
         then (init ++ [top]) ++ [if n <? 0 then 128 else 0]
         else init ++ [if n <? 0 then top + 128 else top].
Proof.
  intros Hne.
  destruct (encodeLoop_digits (Z.abs n) ltac:(lia))
    as (init & top & Henc & Hok & Htop & Hsum).
  exists init, top. repeat split; try assumption.
  apply bigIntToScriptNumber_of_digits; assumption.
Qed.

Lemma magnitudeSum_digits_pos (digits : list Z) (top : Z) :
  bytes_ok (digits ++ [top]) -> 0 < top -> 0 < magnitudeSum (digits ++ [top]) 0.
Proof.
  intros Hok Htop.
  destruct (proj1 (bytes_ok_snoc _ _) Hok) as [Hdigits _].
  rewrite magnitudeSum_snoc by lia.
  pose proof (magnitudeSum_bound digits 0 Hdigits ltac:(lia)) as [Hlo _].
  pose proof (len_nonneg digits).
  assert (0 < 2 ^ (8 * (0 + len digits))) by (apply Z.pow_pos_nonneg; lia).
  nia.
Qed.

(** The encoding loop returns the digits it is given the sum of. *)
Lemma encodeLoop_of_digits (digits : list Z) (top : Z) :
  bytes_ok (digits ++ [top]) -> 0 < top ->
  encodeLoop (magnitudeSum (digits ++ [top]) 0) [] = digits ++ [top].
Proof.
  induction digits as [|b digits IH]; intros Hok Htop.
  - apply Forall_cons in Hok as [[_ Htop256] _].
    cbn [app magnitudeSum]. rewrite Z.shiftl_mul_pow2 by lia.
    change (2 ^ (8 * 0)) with 1. rewrite Z.mul_1_r, Z.add_0_r.
    rewrite encodeLoop_step by exact Htop.
    rewrite Z.div_small, Z.mod_small by lia.
    apply encodeLoop_done. lia.
  - apply Forall_cons in Hok as [[Hb0 Hb256] Hok].
    pose proof (magnitudeSum_digits_pos digits top Hok Htop) as Hpos.
    cbn [app magnitudeSum]. rewrite (magnitudeSum_shift _ 0) by lia.
    rewrite Z.shiftl_mul_pow2 by lia.
    change (2 ^ (8 * 0)) with 1. rewrite Z.mul_1_r.
    set (rest := magnitudeSum (digits ++ [top]) 0) in *.
    rewrite encodeLoop_step by lia.
    replace ((b + 256 * rest) / 256) with rest
      by (rewrite Z.add_comm, Z.mul_comm, Z.div_add_l by lia;
          rewrite (Z.div_small b 256) by lia; lia).
    replace ((b + 256 * rest) mod 256) with b
      by (rewrite Z.mul_comm, Z.mod_add by lia;
          rewrite Z.mod_small by lia; reflexivity).
    rewrite encodeLoop_app by lia. subst rest. rewrite IH by assumption.
    reflexivity.
Qed.

(** ** Truth of a stack element *)

Lemma truthy_loop_false_iff (rest : list Z) (i length : Z) :
  i + len rest = length ->
  stackElementIsTruthy_loop rest i length = false
  <-> Forall (eq 0) rest \/ exists init, rest = init ++ [128] /\ Forall (eq 0) init.
Proof.
  revert i. induction rest as [|b rest IH]; intros i Hlen.
  - cbn [stackElementIsTruthy_loop]. split; [left; constructor|reflexivity].
  - cbn [stackElementIsTruthy_loop].
    assert (Hlen' : i + 1 + len rest = length)
      by (unfold len in *; cbn [List.length] in Hlen; lia).
    destruct (Z.eqb_spec b 0) as [->|Hb]; cbn [negb].
    + rewrite (IH (i + 1) Hlen'). split.
      * intros [Hall|(init & -> & Hinit)].
        -- left. constructor; [reflexivity|exact Hall].
        -- right. exists (0 :: init). split; [reflexivity|].
           constructor; [reflexivity|exact Hinit].
      * intros [Hall|(init & Heq & Hinit)].
        -- left. apply Forall_cons in Hall as [_ Hall]. exact Hall.
        -- destruct init as [|x init]; [discriminate|].
           injection Heq as <- ->.
           right. exists init. split; [reflexivity|].
           apply Forall_cons in Hinit as [_ Hinit]. exact Hinit.
    + destruct ((i =? length - 1) && (b =? 128)) eqn:Hlast.
      * apply andb_true_iff in Hlast as [Hi H128].
        apply Z.eqb_eq in Hi, H128. subst b.
        assert (rest = []) as ->.
        { destruct rest; [reflexivity|].
          unfold len in Hlen'. cbn [List.length] in Hlen'. lia. }
        split; [|reflexivity]. intros _. right. exists []. split; [reflexivity|constructor].
      * split; [discriminate|].
        intros [Hall|(init & Heq & Hinit)].
        -- apply Forall_cons in Hall as [Hzero _]. congruence.
        -- destruct init as [|x init].
           ++ cbn [app] in Heq. injection Heq as Hb128 Hrest. subst b rest.
              unfold len in Hlen'. cbn [List.length] in Hlen'.
              apply andb_false_iff in Hlast as [Hi|H128].
              ** apply Z.eqb_neq in Hi. lia.
              ** discriminate.
           ++ cbn [app] in Heq. injection Heq as Hbx _. subst x.
              apply Forall_cons in Hinit as [Hzero _]. congruence.
Qed.

(** X9: [stackElementIsTruthy] is false exactly on the byte arrays that hold
    zeros only, or zeros followed by a last byte 0x80 (negative zero). *)
Theorem stackElementIsTruthy_false_iff (element : Uint8Array) :
  stackElementIsTruthy element = false
  <-> Forall (eq 0) element
      \/ exists init, element = init ++ [128] /\ Forall (eq 0) init.
Proof. unfold stackElementIsTruthy. apply truthy_loop_false_iff. lia. Qed.

Lemma truthy_of_encoding (n : Z) :
  stackElementIsTruthy (bigIntToScriptNumber n) = negb (n =? 0).
Proof.
  destruct (Z.eqb_spec n 0) as [->|Hne]; [reflexivity|]. cbn [negb].
  destruct (bigIntToScriptNumber_shape n Hne) as (init & top & Hok & Htop & _ & ->).
  destruct (proj1 (bytes_ok_snoc _ _) Hok) as [_ [_ Htop256]].
  apply not_false_iff_true. unfold stackElementIsTruthy.
  rewrite truthy_loop_false_iff by lia.
  intros [Hall|(zeros & Heq & Hzeros)].
  - destruct (128 <=? top).
    + apply Forall_app in Hall as [Hall _].
      apply Forall_app in Hall as [_ Hall].
      apply Forall_cons in Hall as [Hall _]. lia.
    + apply Forall_app in Hall as [_ Hall].
      apply Forall_cons in Hall as [Hall _]. destruct (n <? 0); lia.
  - destruct (Z.leb_spec 128 top).
    + apply app_inj_tail in Heq as [<- _].
      apply Forall_app in Hzeros as [_ Hall].
      apply Forall_cons in Hall as [Hall _]. lia.
    + apply app_inj_tail in Heq as [_ Heq]. destruct (n <? 0); lia.
Qed.

(** X10: The encoding of an integer is truthy exactly when the integer is not
    zero, however large it is. *)
Theorem bigIntToScriptNumber_truthy (n : Z) :
  stackElementIsTruthy (bigIntToScriptNumber n) = negb (n =? 0).
Proof. exact (truthy_of_encoding n). Qed.

(** ** Outside the parse range *)

(** X11: An integer of magnitude 2^31 or more is encoded in more than four
    bytes, so the parser refuses its encoding as out of range. *)
Theorem parse_bigIntToScriptNumber_outOfRange (n : Z) :
  2 ^ 31 <= Z.abs n ->
  parseBytesAsScriptNumber (bigIntToScriptNumber n) = inr outOfRange.
Proof.
  intros Hbig.
  destruct (bigIntToScriptNumber_shape n ltac:(lia))
    as (init & top & Hok & Htop & Hsum & Henc).
  destruct (proj1 (bytes_ok_snoc _ _) Hok) as [Hinit [_ Htop256]].
  rewrite magnitudeSum_snoc in Hsum by lia. rewrite Z.add_0_l in Hsum.
  pose proof (magnitudeSum_bound init 0 Hinit ltac:(lia)) as [Hlo Hhi].
  rewrite Z.add_0_l in Hhi. change (2 ^ (8 * 0)) with 1 in Hhi.
  pose proof (len_nonneg init) as Hlen0.
  set (P := 2 ^ (8 * len init)) in *.
  assert (Hlong : 4 < len (bigIntToScriptNumber n)).
  { rewrite Henc. destruct (Z.leb_spec 128 top) as [Hhigh|Hlow].
    - rewrite !len_snoc.
      destruct (Z.le_gt_cases (len init) 2) as [Hshort|]; [|lia].
      assert (P <= 2 ^ 16) by (apply Z.pow_le_mono_r; lia).
      change (2 ^ 31) with 2147483648 in Hbig. change (2 ^ 16) with 65536 in *. nia.
    - rewrite len_snoc.
      destruct (Z.le_gt_cases (len init) 3) as [Hshort|]; [|lia].
      assert (P <= 2 ^ 24) by (apply Z.pow_le_mono_r; lia).
      change (2 ^ 31) with 2147483648 in Hbig. change (2 ^ 24) with 16777216 in *. nia. }
  unfold parseBytesAsScriptNumber. cbv zeta.
  destruct (Z.eqb_spec (len (bigIntToScriptNumber n)) 0); [lia|].
  destruct (Z.ltb_spec 4 (len (bigIntToScriptNumber n))); [reflexivity|lia].
Qed.

Lemma parse_bigIntToScriptNumber_outOfRange_witness :
  parseBytesAsScriptNumber (bigIntToScriptNumber (-2147483648)) = inr outOfRange.
Proof.
  apply (parse_bigIntToScriptNumber_outOfRange (-2147483648)).
  vm_compute. discriminate.
Defined.

(** ** Every accepted byte array is the encoding of its value *)

Lemma parse_snoc_nonMinimal init top :
  bytes_ok (init ++ [top]) -> len (init ++ [top]) <= 4 ->
  top mod 128 = 0 ->
  (init = [] \/ exists l s, init = l ++ [s] /\ s < 128) ->
  parseBytesAsScriptNumber (init ++ [top]) = inr requiresMinimal.
Proof.
  intros Hok Hlen Hlow Hbelow.
  rewrite parse_refines_spec by exact Hok.
  assert (Htopb : is_byte top) by apply (proj1 (bytes_ok_snoc _ _) Hok).
  unfold parseScriptNumber.
  destruct (init ++ [top]) as [|b0 rest] eqn:Hbytes;
    [destruct init; discriminate|].
  rewrite <- Hbytes in *. cbv zeta.
  destruct (Z.ltb_spec 4 (len (init ++ [top]))) as [|_]; [lia|].
  rewrite last_snoc. change (default 0 (Some top)) with top.
  rewrite (byte_lowSevenBitsZero top) by exact Htopb.
  destruct (Z.eqb_spec (top mod 128) 0); [|contradiction]. cbn [andb].
  destruct Hbelow as [->|(l & s & -> & Hs)].
  - reflexivity.
  - rewrite index_second_last. change (default 0 (Some s)) with s.
    assert (Hsb : is_byte s).
    { apply (proj1 (bytes_ok_snoc l s)). apply (proj1 (bytes_ok_snoc _ _) Hok). }
    rewrite byte_highBit by exact Hsb.
    destruct (Z.leb_spec 128 s); [lia|].
    cbn [negb]. rewrite orb_true_r. reflexivity.
Qed.

Lemma bigIntToScriptNumber_of_parse (bytes : Uint8Array) (n : Z) :
  bytes_ok bytes ->
  parseBytesAsScriptNumber bytes = inl n ->
  bigIntToScriptNumber n = bytes /\ Z.abs n <= 2 ^ 31 - 1.
Proof.
  intros Hok Hparse.
  destruct bytes as [|top init _] using rev_ind.
  { injection Hparse as <-. split; [reflexivity|cbn; lia]. }
  assert (Hlen : len (init ++ [top]) <= 4).
  { destruct (Z.le_gt_cases (len (init ++ [top])) 4) as [|Hlong]; [assumption|].
    unfold parseBytesAsScriptNumber in Hparse. cbv zeta in Hparse.
    destruct (Z.eqb_spec (len (init ++ [top])) 0); [lia|].
    destruct (Z.ltb_spec 4 (len (init ++ [top]))); [discriminate|lia]. }
  destruct (proj1 (bytes_ok_snoc _ _) Hok) as [Hinit [Htop0 Htop256]].
  rewrite len_snoc in Hlen. pose proof (len_nonneg init) as Hlen0.
  pose proof (magnitudeSum_bound init 0 Hinit ltac:(lia)) as [Hlo Hhi].
  rewrite Z.add_0_l in Hhi. change (2 ^ (8 * 0)) with 1 in Hhi.
  assert (HP : 0 < 2 ^ (8 * len init)) by (apply Z.pow_pos_nonneg; lia).
  assert (HP24 : 2 ^ (8 * len init) <= 2 ^ 24) by (apply Z.pow_le_mono_r; lia).
  change (2 ^ 24) with 16777216 in HP24. change (2 ^ 31) with 2147483648.
  destruct (Z.eq_dec (top mod 128) 0) as [Hlow|Hlow].
  - (* the top byte is a sign byte: 0x00 or 0x80 *)
    destruct init as [|s l _] using rev_ind.
    { rewrite parse_snoc_nonMinimal in Hparse;
        [discriminate|exact Hok|rewrite len_snoc; lia|exact Hlow|left; reflexivity]. }
    destruct (proj1 (bytes_ok_snoc _ _) Hinit) as [Hl [Hs0 Hs256]].
    destruct (Z.lt_ge_cases s 128) as [Hs|Hs].
    { rewrite parse_snoc_nonMinimal in Hparse;
        [discriminate|exact Hok|rewrite len_snoc; lia|exact Hlow|right; eauto]. }
    rewrite parse_snoc in Hparse;
      [|exact Hok|rewrite len_snoc; lia|right; eauto].
    pose proof (magnitudeSum_digits_pos l s Hinit ltac:(lia)) as Hpos.
    pose proof (encodeLoop_of_digits l s Hinit ltac:(lia)) as Hdigits.
    rewrite magnitudeSum_snoc in Hparse by lia. rewrite Z.add_0_l in Hparse.
    set (m := magnitudeSum (l ++ [s]) 0) in *.
    set (P := 2 ^ (8 * len (l ++ [s]))) in *.
    assert (Hvalue : n = if 128 <=? top then - m else m).
    { destruct (Z.leb_spec 128 top) as [Hhigh|Hfree].
      - assert (top = 128) as -> by
          (pose proof (Z.div_mod top 128 ltac:(lia)) as Hdm;
           assert (top / 128 < 2) by (apply Z.div_lt_upper_bound; lia);
           assert (0 <= top / 128) by (apply Z.div_pos; lia); lia).
        injection Hparse as <-. f_equal.
        replace (128 * P) with (2 ^ (8 * len ((l ++ [s]) ++ [128]) - 1)).
        + apply clearbit_add_pow2; [rewrite len_snoc; lia|].
          rewrite len_snoc.
          replace (8 * (len (l ++ [s]) + 1) - 1) with (8 * len (l ++ [s]) + 7) by lia.
          rewrite pow2_8_add by lia. fold P. change (2 ^ 7) with 128. lia.
        + rewrite len_snoc.
          replace (8 * (len (l ++ [s]) + 1) - 1) with (8 * len (l ++ [s]) + 7) by lia.
          rewrite pow2_8_add by lia. reflexivity.
      - assert (top = 0) as -> by
          (pose proof (Z.div_mod top 128 ltac:(lia)) as Hdm;
           rewrite (Z.div_small top 128) in Hdm by lia; lia).
        injection Hparse as <-. lia. }
    assert (Habs : Z.abs n = m) by (destruct (128 <=? top); lia).
    split.
    + rewrite (bigIntToScriptNumber_of_digits n l s);
        [|destruct (128 <=? top); lia|rewrite Habs; exact Hdigits|exact Hinit].
      destruct (Z.leb_spec 128 s); [|lia].
      f_equal. f_equal. subst n.
      destruct (Z.leb_spec 128 top) as [Hhigh|Hfree].
      * destruct (Z.ltb_spec (- m) 0); [|lia].
        pose proof (Z.div_mod top 128 ltac:(lia)) as Hdm.
        assert (top / 128 < 2) by (apply Z.div_lt_upper_bound; lia).
        assert (0 <= top / 128) by (apply Z.div_pos; lia). lia.
      * destruct (Z.ltb_spec m 0); [lia|].
        pose proof (Z.div_mod top 128 ltac:(lia)) as Hdm.
        rewrite (Z.div_small top 128) in Hdm by lia. lia.
    + rewrite Habs. rewrite len_snoc in Hlen.
      assert (P <= 2 ^ 24) by (apply Z.pow_le_mono_r; rewrite ?len_snoc; lia).
      change (2 ^ 24) with 16777216 in *. lia.
  - (* the top byte carries a digit *)
    rewrite parse_snoc in Hparse; [|exact Hok|rewrite len_snoc; lia|left; exact Hlow].
    rewrite magnitudeSum_snoc in Hparse by lia. rewrite Z.add_0_l in Hparse.
    set (P := 2 ^ (8 * len init)) in *.
    set (digit := top mod 128) in *.
    assert (Hdigit : 0 < digit < 128)
      by (pose proof (Z.mod_pos_bound top 128 ltac:(lia)); lia).
    assert (Hdok : bytes_ok (init ++ [digit]))
      by (apply bytes_ok_snoc; split; [exact Hinit|unfold is_byte; lia]).
    pose proof (encodeLoop_of_digits init digit Hdok ltac:(lia)) as Hdigits.
    pose proof (magnitudeSum_digits_pos init digit Hdok ltac:(lia)) as Hpos.
    rewrite magnitudeSum_snoc in Hdigits, Hpos by lia.
    rewrite Z.add_0_l in Hdigits, Hpos. fold P in Hdigits, Hpos.
    set (m := magnitudeSum init 0 + digit * P) in *.
    assert (Htop : top = if 128 <=? top then digit + 128 else digit).
    { pose proof (Z.div_mod top 128 ltac:(lia)) as Hdm. fold digit in Hdm.
      destruct (Z.leb_spec 128 top).
      - assert (top / 128 < 2) by (apply Z.div_lt_upper_bound; lia).
        assert (0 < top / 128) by (apply Z.div_str_pos; lia). lia.
      - rewrite (Z.div_small top 128) in Hdm by lia. lia. }
    assert (Hvalue : n = if 128 <=? top then - m else m).
    { destruct (Z.leb_spec 128 top) as [Hhigh|Hfree].
      - injection Hparse as <-. f_equal.
        replace (magnitudeSum init 0 + top * P)
          with (m + 2 ^ (8 * len (init ++ [top]) - 1)).
        + apply clearbit_add_pow2; [rewrite len_snoc; lia|].
          rewrite len_snoc.
          replace (8 * (len init + 1) - 1) with (8 * len init + 7) by lia.
          rewrite pow2_8_add by lia. fold P. change (2 ^ 7) with 128.
          subst m. nia.
        + rewrite len_snoc.
          replace (8 * (len init + 1) - 1) with (8 * len init + 7) by lia.
          rewrite pow2_8_add by lia. fold P. change (2 ^ 7) with 128.
          subst m. rewrite Htop. lia.
      - injection Hparse as <-. subst m. rewrite Htop. reflexivity. }
    assert (Habs : Z.abs n = m) by (destruct (128 <=? top); lia).
    split.
    + rewrite (bigIntToScriptNumber_of_digits n init digit);
        [|destruct (128 <=? top); lia|rewrite Habs; exact Hdigits|exact Hdok].
      destruct (Z.leb_spec 128 digit); [lia|].
      f_equal. f_equal. subst n. revert Htop.
      destruct (Z.leb_spec 128 top); intros Htop.
      * destruct (Z.ltb_spec (- m) 0); lia.
      * destruct (Z.ltb_spec m 0); lia.
    + rewrite Habs. subst m. unfold P in *. nia.
Qed.

(** X12: The encoding is canonical: a byte array that [parseBytesAsScriptNumber]
    accepts is the encoding [bigIntToScriptNumber] gives of the parsed
    value, and that value is within 2^31 - 1 of zero. *)
Theorem bigIntToScriptNumber_parse_roundtrip (bytes : Uint8Array) (n : Z) :
  bytes_ok bytes ->
  parseBytesAsScriptNumber bytes = inl n ->
  bigIntToScriptNumber n = bytes /\ - 2 ^ 31 < n < 2 ^ 31.
Proof.
  intros Hok Hparse.
  destruct (bigIntToScriptNumber_of_parse bytes n Hok Hparse) as [Henc Hrange].
  split; [exact Henc|lia].
Qed.

Lemma bigIntToScriptNumber_parse_roundtrip_witness :
  bigIntToScriptNumber (-128) = [128; 128] /\ - 2 ^ 31 < -128 < 2 ^ 31.
Proof.
  apply (bigIntToScriptNumber_parse_roundtrip [128; 128] (-128)).
  - repeat constructor; unfold is_byte; lia.
  - vm_compute. reflexivity.
Defined.

End ScriptNumberProperties.

(* ===================================================================== *)
(** * Further properties: the operators *)
(* ===================================================================== *)

Module OperatorProperties.
Import Push Operators BitcoinCash.

(** ** OP_EQUAL, OP_EQUALVERIFY and OP_DUP *)

Lemma areEqual_loop_eq (a b : list Z) :
  length a = length b -> areEqual_loop a b = true <-> a = b.
Proof.
  revert b. induction a as [|x a IH]; intros [|y b] Hlen; try discriminate.
  - split; reflexivity.
  - cbn [areEqual_loop]. injection Hlen as Hlen.
    destruct (Z.eqb_spec x y) as [->|Hne]; cbn [negb].
    + rewrite (IH b Hlen). split; [intros ->; reflexivity|intros [= ->]; reflexivity].
    + split; [discriminate|intros [= ? _]; contradiction].
Qed.

Lemma areEqual_eq (a b : Uint8Array) : areEqual a b = true <-> a = b.
Proof.
  unfold areEqual, len.
  destruct (Z.eqb_spec (Z.of_nat (length a)) (Z.of_nat (length b))) as [Hlen|Hlen];
    cbn [negb].
  - apply areEqual_loop_eq. lia.
  - split; [discriminate|]. intros ->. contradiction.
Qed.

(** [areEqual] decides the equality of two byte arrays. *)
Theorem areEqual_decides (a b : Uint8Array) :
  areEqual a b = bool_decide (a = b).
Proof.
  destruct (areEqual a b) eqn:Hequal; symmetry.
  - apply bool_decide_eq_true. apply areEqual_eq. exact Hequal.
  - apply bool_decide_eq_false. intros Heq. apply areEqual_eq in Heq. congruence.
Qed.

Lemma areEqual_bool_decide (a b : Uint8Array) :
  areEqual b a = bool_decide (a = b).
Proof.
  destruct (areEqual b a) eqn:Hequal; symmetry.
  - apply bool_decide_eq_true. symmetry. apply areEqual_eq. exact Hequal.
  - apply bool_decide_eq_false. intros Heq. symmetry in Heq.
    apply areEqual_eq in Heq. congruence.
Qed.

Lemma opEqual_two state rest a b :
  stack state = rest ++ [a; b] ->
  operation opEqual state
  = Some (set_stack (rest ++ [if bool_decide (a = b) then [1] else []]) state).
Proof.
  intros Hstack. unfold opEqual, operation.
  rewrite (stack_pop_snoc state (rest ++ [a]) b)
    by (rewrite Hstack, <- app_assoc; reflexivity).
  rewrite (stack_pop_snoc (set_stack (rest ++ [a]) state) rest a) by reflexivity.
  rewrite booleanToScriptNumber_values, areEqual_bool_decide.
  reflexivity.
Qed.

Lemma opEqual_short state :
  (length (stack state) < 2)%nat ->
  operation opEqual state = Some (applyError emptyStack (set_stack [] state)).
Proof.
  intros Hshort. unfold opEqual, operation.
  destruct (stack state) as [|x [|y rest]] eqn:Hstack; [| |cbn in Hshort; lia].
  - rewrite (stack_pop_nil state Hstack).
    rewrite (stack_pop_nil (set_stack [] state)) by reflexivity. reflexivity.
  - rewrite (stack_pop_snoc state [] x Hstack).
    rewrite (stack_pop_nil (set_stack [] state)) by reflexivity. reflexivity.
Qed.

(** X13: OP_EQUAL replaces the two top elements by the Script Number 1 (the
    byte 0x01) when they hold the same bytes and by 0 (the empty array)
    otherwise; on fewer than two elements it empties the stack and sets
    the error "empty stack". *)
Theorem opEqual_compares (state : ProgramState) :
  (forall rest a b,
     stack state = rest ++ [a; b] ->
     operation opEqual state
     = Some (set_stack (rest ++ [if bool_decide (a = b) then [1] else []]) state))
  /\ ((length (stack state) < 2)%nat ->
      operation opEqual state = Some (applyError emptyStack (set_stack [] state))).
Proof. split; [apply opEqual_two|apply opEqual_short]. Qed.

Lemma opEqualVerify_two state rest a b :
  stack state = rest ++ [a; b] ->
  operation opEqualVerify state
  = Some (if bool_decide (a = b)
          then set_stack rest state
          else applyError failedVerify (set_stack rest state)).
Proof.
  intros Hstack.
  change (operation opEqualVerify state)
    with (match operation opEqual state with
          | Some state' => operation opVerify state'
          | None => None
          end).
  rewrite (opEqual_two state rest a b Hstack).
  unfold opVerify, operation.
  rewrite (stack_pop_snoc _ rest (if bool_decide (a = b) then [1] else []))
    by reflexivity.
  destruct (bool_decide (a = b)); reflexivity.
Qed.



Lemma opDup_top state rest top :
  stack state = rest ++ [top] ->
  operation opDup state = Some (set_stack (rest ++ [top; top]) state).
Proof.
  intros Hstack. unfold opDup, operation. rewrite Hstack.
  pose proof (len_nonneg rest). pose proof (len_snoc rest top).
  destruct (Z.ltb_spec (len (rest ++ [top])) 1); [lia|].
  rewrite index_last, last_snoc, slice_all_id.
  unfold stack_push, push. rewrite Hstack, <- app_assoc. reflexivity.
Qed.

(** X15: OP_DUP pushes a copy of the top element, and sets the error "empty
    stack" on an empty stack, leaving the rest of the state as it was. *)
Theorem opDup_duplicates (state : ProgramState) :
  (forall rest top,
     stack state = rest ++ [top] ->
     operation opDup state = Some (set_stack (rest ++ [top; top]) state))
  /\ (stack state = [] -> operation opDup state = Some (applyError emptyStack state)).
Proof.
  split; [apply opDup_top|].
  intros Hstack. unfold opDup, operation. rewrite Hstack. reflexivity.
Qed.

(** X16: OP_DUP followed by OP_EQUALVERIFY never fails on a stack that is not
    empty: the copy equals its original, and both are consumed. *)
Theorem opDup_then_opEqualVerify (state : ProgramState) (rest : list Uint8Array)
    (top : Uint8Array) :
  stack state = rest ++ [top] ->
  operation opDup state ≫= operation opEqualVerify = Some (set_stack rest state).
Proof.
  intros Hstack.
  rewrite (opDup_top state rest top Hstack). cbn [mbind option_bind].
  rewrite (opEqualVerify_two _ rest top top) by reflexivity.
  rewrite bool_decide_eq_true_2 by reflexivity.
  reflexivity.
Qed.

Lemma opEqual_compares_witness :
  operation opEqual (passState [[7]; [1; 2]; [1; 2]] Samples.fullState [])
  = Some (set_stack ([[7]] ++ [if bool_decide ([1; 2] = [1; 2]) then [1] else []])
            (passState [[7]; [1; 2]; [1; 2]] Samples.fullState []))
  /\ operation opEqual (passState [[7]] Samples.fullState [])
     = Some (applyError emptyStack (set_stack [] (passState [[7]] Samples.fullState []))).
Proof.
  split.
  - apply (proj1 (opEqual_compares (passState [[7]; [1; 2]; [1; 2]] Samples.fullState []))).
    reflexivity.
  - apply (proj2 (opEqual_compares (passState [[7]] Samples.fullState []))).
    cbn. lia.
Defined.


Lemma opDup_duplicates_witness :
  operation opDup (passState [[7]; [1; 2]] Samples.fullState [])
  = Some (set_stack ([[7]] ++ [[1; 2]; [1; 2]])
            (passState [[7]; [1; 2]] Samples.fullState []))
  /\ operation opDup (passState [] Samples.fullState [])
     = Some (applyError emptyStack (passState [] Samples.fullState [])).
Proof.
  split.
  - apply (proj1 (opDup_duplicates (passState [[7]; [1; 2]] Samples.fullState []))).
    reflexivity.
  - apply (proj2 (opDup_duplicates (passState [] Samples.fullState []))).
    reflexivity.
Defined.

Lemma opDup_then_opEqualVerify_witness :
  operation opDup (passState [[7]; [1; 2]] Samples.fullState [])
    ≫= operation opEqualVerify
  = Some (set_stack [[7]] (passState [[7]; [1; 2]] Samples.fullState [])).
Proof.
  apply (opDup_then_opEqualVerify (passState [[7]; [1; 2]] Samples.fullState [])
           [[7]] [1; 2]).
  reflexivity.
Defined.

(** ** Pushes *)



(** ** The table of operators *)

Lemma elem_of_range (a n : nat) (x : Z) :
  x ∈ map Z.of_nat (seq a n) <-> Z.of_nat a <= x < Z.of_nat a + Z.of_nat n.
Proof.
  rewrite list_elem_of_In, in_map_iff. split.
  - intros (i & <- & Hin). apply in_seq in Hin. lia.
  - intros Hx. exists (Z.to_nat x). split; [lia|]. apply in_seq. lia.
Qed.

Section Table.

Variable sha256_hash : Uint8Array -> Uint8Array.
Variable ripemd160_hash : Uint8Array -> Uint8Array.
Variable verifySignatureDERLowS : Uint8Array -> Uint8Array -> Uint8Array -> bool.
Variable isValidPublicKeyEncoding : Uint8Array -> bool.
Variable isValidSignatureEncoding : Uint8Array -> bool.
Variable decodeBitcoinSignature : Uint8Array -> DecodedSignature.
Variable generateBitcoinCashSigningSerialization :
  Z -> Uint8Array -> Uint8Array -> Uint8Array -> Z -> Uint8Array -> Z -> Z ->
  Uint8Array -> Uint8Array -> Z -> Uint8Array -> Uint8Array.

Local Abbreviation table :=
  (commonOperators sha256_hash ripemd160_hash verifySignatureDERLowS
     isValidPublicKeyEncoding isValidSignatureEncoding decodeBitcoinSignature
     generateBitcoinCashSigningSerialization).

Lemma commonOperators_dom :
  dom table
  = list_to_set (map Z.of_nat (seq 0 80) ++ map Z.of_nat (seq 81 16)
                   ++ [105; 118; 135; 136; 169; 172]).
Proof. vm_compute. reflexivity. Qed.

(** X19: The opcodes [commonOperators] has an operator for: the pushes 0 to
    79 (OP_0, OP_DATA_1 to OP_DATA_75, OP_PUSHDATA1, 2 and 4,
    OP_1NEGATE), OP_1 to OP_16, and OP_VERIFY, OP_DUP, OP_EQUAL,
    OP_EQUALVERIFY, OP_HASH160 and OP_CHECKSIG.  Every other opcode, 80
    (OP_RESERVED) included, is left to the undefined operator. *)
Theorem commonOperators_opcodes (opcode : Z) :
  is_Some (commonOperators sha256_hash ripemd160_hash verifySignatureDERLowS
             isValidPublicKeyEncoding isValidSignatureEncoding decodeBitcoinSignature
             generateBitcoinCashSigningSerialization !! opcode)
  <-> 0 <= opcode <= 79 \/ 81 <= opcode <= 96
      \/ opcode ∈ [105; 118; 135; 136; 169; 172].
Proof.
  rewrite <- elem_of_dom, commonOperators_dom, elem_of_list_to_set.
  rewrite !elem_of_app, !elem_of_range.
  split; (intros [H|[H|H]]; [left; lia|right; left; lia|right; right; exact H]).
Qed.

(** X20: No operator of the table throws on a script of bytes, whatever the
    state; none changes the script, and none moves [ip] back. *)
Theorem commonOperators_never_throw (opcode : Z) (operator : Operator ProgramState)
    (state : ProgramState) :
  table !! opcode = Some operator ->
  bytes_ok (script state) ->
  exists state',
    operation operator state = Some state'
    /\ script state' = script state
    /\ (ip state <= ip state')%nat.
Proof.
  intros Hlook Hok.
  pose proof (commonOperators_wellBehaved sha256_hash ripemd160_hash
                verifySignatureDERLowS isValidPublicKeyEncoding isValidSignatureEncoding
                decodeBitcoinSignature generateBitcoinCashSigningSerialization
                opcode operator Hlook) as Hbehaved.
  destruct (Hbehaved state Hok) as (_ & _ & Hrun). exact Hrun.
Qed.

(** X21: OP_1NEGATE, OP_0 and OP_1 to OP_16 push a Script Number that parses
    back to -1, 0 and 1 to 16. *)
Theorem pushNumber_opcodes (n : Z) :
  -1 <= n <= 16 ->
  let opcode :=
    if n =? -1 then BitcoinCashOpCodes.OP_1NEGATE
    else if n =? 0 then BitcoinCashOpCodes.OP_0
    else BitcoinCashOpCodes.OP_1 + (n - 1) in
  exists operator,
    table !! opcode = Some operator
    /\ forall state, exists element,
         operation operator state = Some (stack_push element state)
         /\ parseBytesAsScriptNumber element = inl n.
Proof.
  intros Hn opcode. subst opcode.
  assert (Hcases : exists i : nat, (i < 18)%nat /\ n = Z.of_nat i - 1)
    by (exists (Z.to_nat (n + 1)); lia).
  destruct Hcases as (i & Hi & ->).
  do 18 (destruct i as [|i];
         [eexists; split; [vm_compute; reflexivity|];
          intros state; eexists; split; [reflexivity|vm_compute; reflexivity]|]).
  lia.
Qed.

(** X22: OP_DATA_1 to OP_DATA_75 are bound to the push of that many bytes,
    and the opcodes 76, 77 and 78 to OP_PUSHDATA1, 2 and 4. *)
Theorem pushData_opcodes (n : Z) :
  1 <= n <= 75 ->
  table !! n = Some (opPushDataConstant n)
  /\ table !! BitcoinCashOpCodes.OP_PUSHDATA1 = Some opPushData1
  /\ table !! BitcoinCashOpCodes.OP_PUSHDATA2 = Some opPushData2
  /\ table !! BitcoinCashOpCodes.OP_PUSHDATA4 = Some opPushData4.
Proof.
  intros Hn.
  split; [|repeat split; vm_compute; reflexivity].
  assert (Hcases : exists i : nat, (i < 75)%nat /\ n = Z.of_nat i + 1)
    by (exists (Z.to_nat (n - 1)); lia).
  destruct Hcases as (i & Hi & ->).
  do 75 (destruct i as [|i]; [reflexivity|]).
  lia.
Qed.

End Table.

Lemma pushData_opcodes_witness :
  commonOperators Samples.sha256_standIn Samples.ripemd160_standIn
    Samples.verify_standIn Samples.publicKey_standIn Samples.signature_standIn
    Samples.decode_standIn Samples.serialization_standIn !! 75
  = Some (opPushDataConstant 75)
  /\ commonOperators Samples.sha256_standIn Samples.ripemd160_standIn
       Samples.verify_standIn Samples.publicKey_standIn Samples.signature_standIn
       Samples.decode_standIn Samples.serialization_standIn
       !! BitcoinCashOpCodes.OP_PUSHDATA1 = Some opPushData1
  /\ commonOperators Samples.sha256_standIn Samples.ripemd160_standIn
       Samples.verify_standIn Samples.publicKey_standIn Samples.signature_standIn
       Samples.decode_standIn Samples.serialization_standIn
       !! BitcoinCashOpCodes.OP_PUSHDATA2 = Some opPushData2
  /\ commonOperators Samples.sha256_standIn Samples.ripemd160_standIn
       Samples.verify_standIn Samples.publicKey_standIn Samples.signature_standIn
       Samples.decode_standIn Samples.serialization_standIn
       !! BitcoinCashOpCodes.OP_PUSHDATA4 = Some opPushData4.
Proof.
  apply (pushData_opcodes Samples.sha256_standIn Samples.ripemd160_standIn
           Samples.verify_standIn Samples.publicKey_standIn Samples.signature_standIn
           Samples.decode_standIn Samples.serialization_standIn 75).
  lia.
Defined.

Lemma commonOperators_never_throw_witness :
  exists state',
    operation opDup (passState [[7]] Samples.fullState [118]) = Some state'
    /\ script state' = script (passState [[7]] Samples.fullState [118])
    /\ le (ip (passState [[7]] Samples.fullState [118])) (ip state').
Proof.
  apply (commonOperators_never_throw Samples.sha256_standIn Samples.ripemd160_standIn
           Samples.verify_standIn Samples.publicKey_standIn Samples.signature_standIn
           Samples.decode_standIn Samples.serialization_standIn
           118 opDup (passState [[7]] Samples.fullState [118])).
  - vm_compute. reflexivity.
  - repeat constructor; unfold is_byte; lia.
Defined.

Lemma pushNumber_opcodes_witness :
  exists operator,
    commonOperators Samples.sha256_standIn Samples.ripemd160_standIn
      Samples.verify_standIn Samples.publicKey_standIn Samples.signature_standIn
      Samples.decode_standIn Samples.serialization_standIn
      !! BitcoinCashOpCodes.OP_16 = Some operator
    /\ forall state, exists element,
         operation operator state = Some (stack_push element state)
         /\ parseBytesAsScriptNumber element = inl 16.
Proof.
  apply (pushNumber_opcodes Samples.sha256_standIn Samples.ripemd160_standIn
           Samples.verify_standIn Samples.publicKey_standIn Samples.signature_standIn
           Samples.decode_standIn Samples.serialization_standIn 16).
  lia.
Defined.


(** ** Pay-to-script-hash *)

(** X24: [isPayToScriptHash] accepts exactly the scripts OP_HASH160,
    OP_DATA_20, twenty bytes, OP_EQUAL. *)
Theorem isPayToScriptHash_pattern (lockingScript : Uint8Array) :
  isPayToScriptHash lockingScript = true
  <-> exists hash,
        length hash = 20%nat
        /\ lockingScript
           = [BitcoinCashOpCodes.OP_HASH160; BitcoinCashOpCodes.OP_DATA_20]
               ++ hash ++ [BitcoinCashOpCodes.OP_EQUAL].
Proof.
  unfold isPayToScriptHash, PayToScriptHash_length, PayToScriptHash_lastElement.
  rewrite !andb_true_iff, !bool_decide_eq_true, Z.eqb_eq. split.
  - intros [[[Hlen H0] H1] H22].
    destruct lockingScript as [|a [|b rest]]; try discriminate.
    destruct rest as [|c hash _] using rev_ind;
      [unfold len in Hlen; cbn in Hlen; lia|].
    unfold index in H0, H1, H22. cbn in H0, H1.
    injection H0 as ->. injection H1 as ->.
    assert (Hhash : length hash = 20%nat).
    { unfold len in Hlen. cbn [length] in Hlen. rewrite length_app in Hlen.
      cbn [length] in Hlen. lia. }
    change (22 <? 0) with false in H22. cbv iota in H22.
    change (BitcoinCashOpCodes.OP_HASH160 :: BitcoinCashOpCodes.OP_DATA_20 :: hash ++ [c])
      with ((BitcoinCashOpCodes.OP_HASH160 :: BitcoinCashOpCodes.OP_DATA_20 :: hash) ++ [c])
      in H22.
    rewrite (list_lookup_middle _ [] c (Z.to_nat 22)) in H22
      by (cbn [length]; rewrite Hhash; reflexivity).
    injection H22 as ->.
    exists hash. split; [exact Hhash|reflexivity].
  - intros (hash & Hhash & ->).
    repeat split.
    + unfold len. cbn [app length]. rewrite length_app. cbn [length]. lia.
    + unfold index. change (22 <? 0) with false. cbv iota.
      change ([BitcoinCashOpCodes.OP_HASH160; BitcoinCashOpCodes.OP_DATA_20]
                ++ hash ++ [BitcoinCashOpCodes.OP_EQUAL])
        with ((BitcoinCashOpCodes.OP_HASH160 :: BitcoinCashOpCodes.OP_DATA_20 :: hash)
                ++ [BitcoinCashOpCodes.OP_EQUAL]).
      apply list_lookup_middle. cbn [length]. rewrite Hhash. reflexivity.
Qed.

Section PayToScriptHash.

Variable sha256_hash : Uint8Array -> Uint8Array.
Variable ripemd160_hash : Uint8Array -> Uint8Array.
Variable verifySignatureDERLowS : Uint8Array -> Uint8Array -> Uint8Array -> bool.
Variable isValidPublicKeyEncoding : Uint8Array -> bool.
Variable isValidSignatureEncoding : Uint8Array -> bool.
Variable decodeBitcoinSignature : Uint8Array -> DecodedSignature.
Variable generateBitcoinCashSigningSerialization :
  Z -> Uint8Array -> Uint8Array -> Uint8Array -> Z -> Uint8Array -> Z -> Z ->
  Uint8Array -> Uint8Array -> Z -> Uint8Array -> Uint8Array.

Local Abbreviation instructionSet :=
  (bitcoinCashInstructionSet sha256_hash ripemd160_hash verifySignatureDERLowS
     isValidPublicKeyEncoding isValidSignatureEncoding decodeBitcoinSignature
     generateBitcoinCashSigningSerialization).

Lemma table_OP_HASH160 :
  operators instructionSet !! 169 = Some (opHash160 sha256_hash ripemd160_hash).
Proof. vm_compute. reflexivity. Qed.

Lemma table_OP_DATA_20 :
  operators instructionSet !! 20 = Some (opPushDataConstant 20).
Proof. vm_compute. reflexivity. Qed.

Lemma table_OP_EQUAL : operators instructionSet !! 135 = Some opEqual.
Proof. vm_compute. reflexivity. Qed.

Lemma p2sh_script_length (hash : Uint8Array) :
  length hash = 20%nat -> len (169 :: 20 :: hash ++ [135]) = 23.
Proof.
  intros Hhash. unfold len. cbn [length]. rewrite length_app, Hhash. reflexivity.
Qed.

Lemma p2sh_script_last (hash : Uint8Array) :
  length hash = 20%nat -> index (169 :: 20 :: hash ++ [135]) 22 = Some 135.
Proof.
  intros Hhash. unfold index. change (22 <? 0) with false. cbv iota.
  change (169 :: 20 :: hash ++ [135]) with ((169 :: 20 :: hash) ++ [135]).
  apply list_lookup_middle. cbn [length]. rewrite Hhash. reflexivity.
Qed.

Lemma p2sh_script_hash (hash : Uint8Array) :
  length hash = 20%nat -> slice (169 :: 20 :: hash ++ [135]) 2 22 = hash.
Proof.
  intros Hhash.
  change 22 with (2 + Z.of_nat 20).
  rewrite (CodecProperties.slice_in_range (169 :: 20 :: hash ++ [135]) 2 20)
    by (rewrite ?p2sh_script_length by exact Hhash; lia).
  change (Z.to_nat 2) with 2%nat. cbn [drop].
  rewrite <- Hhash. apply take_app_length.
Qed.

Lemma stepMutate_OP_HASH160 (hash element : Uint8Array) rest external :
  stepMutate instructionSet
    (passState (rest ++ [element]) external (169 :: 20 :: hash ++ [135]))
  = Some {| error := None; ip := 1; lastCodeSeparator := -1;
            script := 169 :: 20 :: hash ++ [135];
            stack := rest ++ [ripemd160_hash (sha256_hash element)];
            external := external |}.
Proof.
  unfold stepMutate, getOperator.
  cbn [before bitcoinCashInstructionSet state_ip state_script ProgramState_minimum
       set_ip ip script error stack lastCodeSeparator State.external passState].
  change (index (169 :: 20 :: hash ++ [135]) (Z.of_nat 1 - 1)) with (Some 169).
  cbv iota. rewrite table_OP_HASH160. cbn [from_option]. unfold id.
  unfold opHash160. cbn [operation].
  erewrite stack_pop_snoc by reflexivity. reflexivity.
Qed.

Lemma stepMutate_OP_DATA_20 (hash : Uint8Array) stack external :
  length hash = 20%nat ->
  stepMutate instructionSet
    {| error := None; ip := 1; lastCodeSeparator := -1;
       script := 169 :: 20 :: hash ++ [135]; stack := stack; external := external |}
  = Some {| error := None; ip := 22; lastCodeSeparator := -1;
            script := 169 :: 20 :: hash ++ [135];
            stack := stack ++ [hash];
            external := external |}.
Proof.
  intros Hhash. unfold stepMutate, getOperator.
  cbn [before bitcoinCashInstructionSet state_ip state_script ProgramState_minimum
       set_ip ip script error State.stack lastCodeSeparator State.external].
  change (index (169 :: 20 :: hash ++ [135]) (Z.of_nat 2 - 1)) with (Some 20).
  cbv iota. rewrite table_OP_DATA_20. cbn [from_option]. unfold id.
  unfold opPushDataConstant. cbn [operation].
  unfold pushDataConstantMethod.
  cbn [set_ip ip script State.stack error lastCodeSeparator State.external].
  rewrite (p2sh_script_length hash Hhash).
  change (23 <? Z.of_nat 2 + 20) with false. cbv iota zeta.
  change (Z.of_nat 2 + 20) with 22. change (Z.of_nat 2) with 2.
  rewrite (p2sh_script_hash hash Hhash). reflexivity.
Qed.

Lemma stepMutate_OP_EQUAL (hash a b : Uint8Array) rest external :
  length hash = 20%nat ->
  stepMutate instructionSet
    {| error := None; ip := 22; lastCodeSeparator := -1;
       script := 169 :: 20 :: hash ++ [135]; stack := rest ++ [a; b];
       external := external |}
  = Some {| error := None; ip := 23; lastCodeSeparator := -1;
            script := 169 :: 20 :: hash ++ [135];
            stack := rest ++ [if bool_decide (a = b) then [1] else []];
            external := external |}.
Proof.
  intros Hhash. unfold stepMutate, getOperator.
  cbn [before bitcoinCashInstructionSet state_ip state_script ProgramState_minimum
       set_ip ip script error State.stack lastCodeSeparator State.external].
  change (Z.of_nat 23 - 1) with 22.
  rewrite (p2sh_script_last hash Hhash), table_OP_EQUAL. cbn [from_option]. unfold id.
  erewrite opEqual_two by reflexivity. reflexivity.
Qed.

Lemma evaluateLoop_step (fuel : nat) (state : ProgramState) :
  evaluateLoop instructionSet (S fuel) state
  = if continue instructionSet state
    then match stepMutate instructionSet state with
         | None => Thrown
         | Some state' => evaluateLoop instructionSet fuel state'
         end
    else Returned state.
Proof. reflexivity. Qed.

Lemma evaluateLoop_stop (fuel : nat) (state : ProgramState) :
  continue instructionSet state = false ->
  evaluateLoop instructionSet fuel state = Returned state.
Proof. intros Hstop. destruct fuel; cbn [evaluateLoop]; rewrite Hstop; reflexivity. Qed.

(** X25: The evaluation of a pay-to-script-hash locking script, as
    [bitcoinCashInstructionSet] runs it on a stack that is not empty: the
    three instructions replace the top element by the Script Number 1
    when its HASH160 is the hash of the script, and by 0 otherwise, and
    the evaluation ends there without an error. *)
Theorem p2sh_locking_script_evaluates (hash element : Uint8Array)
    (rest : list Uint8Array) (external : ExternalState) (fuel : nat) :
  length hash = 20%nat -> (3 <= fuel)%nat ->
  let lockingScript :=
    [BitcoinCashOpCodes.OP_HASH160; BitcoinCashOpCodes.OP_DATA_20]
      ++ hash ++ [BitcoinCashOpCodes.OP_EQUAL] in
  evaluate instructionSet fuel (passState (rest ++ [element]) external lockingScript)
  = Returned
      {| error := None; ip := 23; lastCodeSeparator := -1; script := lockingScript;
         stack := rest ++ [if bool_decide (ripemd160_hash (sha256_hash element) = hash)
                           then [1] else []];
         external := external |}.
Proof.
  intros Hhash Hfuel lockingScript.
  change lockingScript with (169 :: 20 :: hash ++ [135]). clear lockingScript.
  pose proof (p2sh_script_length hash Hhash) as Hlen.
  destruct fuel as [|[|[|fuel]]]; try lia.
  unfold evaluate. cbn [clone bitcoinCashInstructionSet].
  rewrite cloneState_value.
  assert (Hcontinue : forall i stack,
    continue instructionSet
      {| error := None; ip := i; lastCodeSeparator := -1;
         script := 169 :: 20 :: hash ++ [135]; stack := stack; external := external |}
    = (Z.of_nat i <? 23)).
  { intros i stack. cbn [continue bitcoinCashInstructionSet error ip script].
    rewrite Hlen. reflexivity. }
  rewrite evaluateLoop_step. unfold passState at 1. rewrite Hcontinue.
  change (Z.of_nat 0 <? 23) with true. cbv iota.
  fold (passState (rest ++ [element]) external (169 :: 20 :: hash ++ [135])).
  rewrite stepMutate_OP_HASH160.
  rewrite evaluateLoop_step, Hcontinue.
  change (Z.of_nat 1 <? 23) with true. cbv iota.
  rewrite (stepMutate_OP_DATA_20 hash _ _ Hhash).
  rewrite evaluateLoop_step, Hcontinue.
  change (Z.of_nat 22 <? 23) with true. cbv iota.
  rewrite <- app_assoc. cbn [app].
  rewrite (stepMutate_OP_EQUAL hash _ _ _ _ Hhash).
  apply evaluateLoop_stop. rewrite Hcontinue. reflexivity.
Qed.

End PayToScriptHash.

Lemma p2sh_locking_script_evaluates_witness :
  let hash := Samples.ripemd160_standIn (Samples.sha256_standIn [81]) in
  let lockingScript :=
    [BitcoinCashOpCodes.OP_HASH160; BitcoinCashOpCodes.OP_DATA_20]
      ++ hash ++ [BitcoinCashOpCodes.OP_EQUAL] in
  evaluate
    (bitcoinCashInstructionSet Samples.sha256_standIn Samples.ripemd160_standIn
       Samples.verify_standIn Samples.publicKey_standIn Samples.signature_standIn
       Samples.decode_standIn Samples.serialization_standIn)
    3 (passState ([[1]] ++ [[81]]) Samples.fullState lockingScript)
  = Returned
      {| error := None; ip := 23; lastCodeSeparator := -1; script := lockingScript;
         stack := [[1]] ++ [if bool_decide
                                (Samples.ripemd160_standIn (Samples.sha256_standIn [81])
                                 = hash)
                            then [1] else []];
         external := Samples.fullState |}.
Proof.
  apply (p2sh_locking_script_evaluates Samples.sha256_standIn Samples.ripemd160_standIn
           Samples.verify_standIn Samples.publicKey_standIn Samples.signature_standIn
           Samples.decode_standIn Samples.serialization_standIn
           (Samples.ripemd160_standIn (Samples.sha256_standIn [81])) [81] [[1]]
           Samples.fullState 3).
  - reflexivity.
  - lia.
Defined.

End OperatorProperties.

(* ===================================================================== *)
(** * Further properties: what the copies of a state share *)
(* ===================================================================== *)

Module CloneProperties.
Import Heap HeapProperties.

Lemma sliceTyped_value r st r' st' bytes :
  typedArrays st !! r = Some bytes ->
  sliceTyped r st = Some (r', st') ->
  typedArrays st' !! r' = Some bytes.
Proof.
  unfold sliceTyped, mbind, M_bind, readTyped, allocTyped.
  intros ->. intros [= <- <-]. cbn [typedArrays].
  rewrite lookup_insert_eq, slice_all_id. reflexivity.
Qed.

Lemma sliceArray_value r st r' st' elements :
  arrays st !! r = Some elements ->
  sliceArray r st = Some (r', st') ->
  arrays st' !! r' = Some elements.
Proof.
  unfold sliceArray, mbind, M_bind, readArray, allocArray.
  intros ->. intros [= <- <-]. cbn [arrays].
  rewrite lookup_insert_eq, slice_all_id. reflexivity.
Qed.

Lemma typed_weaken st st' r bytes :
  extends st st' -> typedArrays st !! r = Some bytes -> typedArrays st' !! r = Some bytes.
Proof. intros [Hsub _] Hlook. exact (lookup_weaken _ _ _ _ Hlook Hsub). Qed.

Lemma arrays_weaken st st' r elements :
  extends st st' -> arrays st !! r = Some elements -> arrays st' !! r = Some elements.
Proof. intros [_ Hsub] Hlook. exact (lookup_weaken _ _ _ _ Hlook Hsub). Qed.

(** ** [cloneStack] of common.ts *)

Lemma cloneElements_spec elements st copies st1 values :
  mapM (fun element => typedArrays st !! element) elements = Some values ->
  cloneElements elements st = Some (copies, st1) ->
  extends st st1
  /\ mapM (fun element => typedArrays st1 !! element) copies = Some values
  /\ Forall (fun copy => typedArrays st !! copy = None) copies.
Proof.
  revert st copies st1 values.
  induction elements as [|element rest IH]; intros st copies st1 values Hvalues Hclone.
  - injection Hclone as <- <-. cbn in Hvalues. injection Hvalues as <-.
    split; [apply extends_refl|]. split; [reflexivity|constructor].
  - apply mapM_Some in Hvalues.
    destruct values as [|bytes values]; [inversion Hvalues|].
    apply Forall2_cons in Hvalues as [Hbytes Hvalues].
    apply mapM_Some in Hvalues.
    cbn [cloneElements] in Hclone.
    apply bind_Some in Hclone as (copy & s1 & Hcopy & Hclone).
    apply bind_Some in Hclone as (copies' & s2 & Hrest & Hclone).
    injection Hclone as <- <-.
    pose proof (sliceTyped_value _ _ _ _ _ Hbytes Hcopy) as Hcopied.
    apply sliceTyped_spec in Hcopy as [E1 F1].
    destruct (IH s1 copies' s2 values
                (mapM_lookup_weaken _ _ _ _ (proj1 E1) Hvalues) Hrest)
      as (E2 & Hcopies & Hfresh).
    split; [exact (extends_trans _ _ _ E1 E2)|]. split.
    + apply mapM_Some. apply Forall2_cons. split.
      * exact (typed_weaken _ _ _ _ E2 Hcopied).
      * apply mapM_Some. exact Hcopies.
    + constructor; [exact F1|].
      eapply Forall_impl; [exact Hfresh|].
      intros c Hc. exact (extends_fresh _ _ _ E1 Hc).
Qed.

(** X26: [cloneStack] copies a stack deeply: the copy holds the same bytes in
    new objects, so a write to any element of the copy leaves the
    original stack and the bytes of its elements as they were. *)
Theorem cloneStack_isolates (r : ref) (st : Store) (copy : ref) (st1 : Store)
    (elements : list ref) (values : list Uint8Array) :
  arrays st !! r = Some elements ->
  mapM (fun element => typedArrays st !! element) elements = Some values ->
  cloneStack r st = Some (copy, st1) ->
  exists copies,
    arrays st1 !! copy = Some copies
    /\ mapM (fun element => typedArrays st1 !! element) copies = Some values
    /\ forall c i v st2,
         c ∈ copies -> writeByte c i v st1 = Some (tt, st2) ->
         arrays st2 !! r = Some elements
         /\ mapM (fun element => typedArrays st2 !! element) elements = Some values.
Proof.
  intros Helements Hvalues Hclone. unfold cloneStack in Hclone.
  apply bind_Some in Hclone as (elements' & s0 & Hread & Hclone).
  unfold readArray in Hread. rewrite Helements in Hread. injection Hread as <- <-.
  apply bind_Some in Hclone as (copies & s1 & Hcopies & Halloc).
  destruct (cloneElements_spec _ _ _ _ _ Hvalues Hcopies) as (E1 & Hcopied & Hfresh).
  unfold allocArray in Halloc. injection Halloc as <- <-.
  set (st1 := mkStore (typedArrays s1)
                (<[fresh (dom (arrays s1)) := copies]> (arrays s1))).
  assert (E2 : extends st st1).
  { destruct E1 as [Htyped Harrays]. split; [exact Htyped|].
    cbn [arrays st1]. etrans; [exact Harrays|].
    apply insert_subseteq. apply fresh_not_in_arrays. }
  exists copies. split; [apply lookup_insert_eq|]. split; [exact Hcopied|].
  intros c i v st2 Hc Hwrite.
  rewrite Forall_forall in Hfresh.
  pose proof (writeByte_fresh_extends st st1 c i v st2 E2 (Hfresh c Hc) Hwrite) as E3.
  split.
  - exact (arrays_weaken _ _ _ _ E3 Helements).
  - exact (mapM_lookup_weaken _ _ _ _ (proj1 E3) Hvalues).
Qed.

Lemma cloneStack_isolates_witness :
  exists copies,
    arrays (snd (default (1%positive, Samples.sampleStore)
                   (cloneStack 1%positive Samples.sampleStore)))
      !! fst (default (1%positive, Samples.sampleStore)
                (cloneStack 1%positive Samples.sampleStore))
    = Some copies
    /\ mapM (fun element =>
               typedArrays (snd (default (1%positive, Samples.sampleStore)
                                   (cloneStack 1%positive Samples.sampleStore)))
                 !! element) copies
       = Some [[1]]
    /\ forall c i v st2,
         c ∈ copies ->
         writeByte c i v (snd (default (1%positive, Samples.sampleStore)
                                 (cloneStack 1%positive Samples.sampleStore)))
         = Some (tt, st2) ->
         arrays st2 !! 1%positive = Some [7%positive]
         /\ mapM (fun element => typedArrays st2 !! element) [7%positive] = Some [[1]].
Proof.
  apply (cloneStack_isolates 1%positive Samples.sampleStore
           (fst (default (1%positive, Samples.sampleStore)
                   (cloneStack 1%positive Samples.sampleStore)))
           (snd (default (1%positive, Samples.sampleStore)
                   (cloneStack 1%positive Samples.sampleStore)))
           [7%positive] [[1]]).
  - vm_compute. reflexivity.
  - vm_compute. reflexivity.
  - vm_compute. reflexivity.
Defined.

(** ** [clone] of bitcoin-cash.ts *)

(** X27: At the time it is made, the clone of a state is byte-identical to
    the original, and making it has not changed the original. *)
Theorem clone_copies_value (st : Store) (state : StateObject) (value : ProgramState)
    (state' : StateObject) (st1 : Store) :
  valueOf st state = Some value ->
  clone state st = Some (state', st1) ->
  valueOf st1 state' = Some value /\ valueOf st1 state = Some value.
Proof.
  intros Hvalue Hclone.
  split; [|exact (valueOf_extends _ _ _ _ (proj1 (clone_fresh _ _ _ _ Hclone)) Hvalue)].
  revert Hvalue. unfold valueOf at 1.
  destruct (typedArrays st !! o_correspondingOutputHash state) as [b1|] eqn:L1;
    cbn [mbind option_bind]; [|discriminate].
  destruct (typedArrays st !! o_outpointTransactionHash state) as [b2|] eqn:L2;
    cbn [mbind option_bind]; [|discriminate].
  destruct (typedArrays st !! o_script state) as [b3|] eqn:L3;
    cbn [mbind option_bind]; [|discriminate].
  destruct (arrays st !! o_stack state) as [elements|] eqn:L4;
    cbn [mbind option_bind]; [|discriminate].
  destruct (mapM (fun element => typedArrays st !! element) elements) as [values|] eqn:L4';
    cbn [mbind option_bind]; [|discriminate].
  destruct (typedArrays st !! o_transactionOutpointsHash state) as [b5|] eqn:L5;
    cbn [mbind option_bind]; [|discriminate].
  destruct (typedArrays st !! o_transactionOutputsHash state) as [b6|] eqn:L6;
    cbn [mbind option_bind]; [|discriminate].
  destruct (typedArrays st !! o_transactionSequenceNumbersHash state) as [b7|] eqn:L7;
    cbn [mbind option_bind]; [|discriminate].
  intros [= <-].
  unfold clone in Hclone.
  apply bind_Some in Hclone as (r1 & s1 & H1 & Hclone).
  apply bind_Some in Hclone as (r2 & s2 & H2 & Hclone).
  apply bind_Some in Hclone as (r3 & s3 & H3 & Hclone).
  apply bind_Some in Hclone as (r4 & s4 & H4 & Hclone).
  apply bind_Some in Hclone as (r5 & s5 & H5 & Hclone).
  apply bind_Some in Hclone as (r6 & s6 & H6 & Hclone).
  apply bind_Some in Hclone as (r7 & s7 & H7 & Hclone).
  injection Hclone as <- <-.
  pose proof (proj1 (sliceTyped_spec _ _ _ _ H1)) as E1.
  pose proof (proj1 (sliceTyped_spec _ _ _ _ H2)) as E2.
  pose proof (proj1 (sliceTyped_spec _ _ _ _ H3)) as E3.
  pose proof (sliceArray_spec _ _ _ _ H4) as E4.
  pose proof (proj1 (sliceTyped_spec _ _ _ _ H5)) as E5.
  pose proof (proj1 (sliceTyped_spec _ _ _ _ H6)) as E6.
  pose proof (proj1 (sliceTyped_spec _ _ _ _ H7)) as E7.
  pose proof (extends_trans _ _ _ E1 E2) as E02.
  pose proof (extends_trans _ _ _ E02 E3) as E03.
  pose proof (extends_trans _ _ _ E03 E4) as E04.
  pose proof (extends_trans _ _ _ E04 E5) as E05.
  pose proof (extends_trans _ _ _ E05 E6) as E06.
  pose proof (extends_trans _ _ _ E06 E7) as E07.
  pose proof (sliceTyped_value _ _ _ _ _ L1 H1) as V1.
  pose proof (sliceTyped_value _ _ _ _ _ (typed_weaken _ _ _ _ E1 L2) H2) as V2.
  pose proof (sliceTyped_value _ _ _ _ _ (typed_weaken _ _ _ _ E02 L3) H3) as V3.
  pose proof (sliceArray_value _ _ _ _ _ (arrays_weaken _ _ _ _ E03 L4) H4) as V4.
  pose proof (sliceTyped_value _ _ _ _ _ (typed_weaken _ _ _ _ E04 L5) H5) as V5.
  pose proof (sliceTyped_value _ _ _ _ _ (typed_weaken _ _ _ _ E05 L6) H6) as V6.
  pose proof (sliceTyped_value _ _ _ _ _ (typed_weaken _ _ _ _ E06 L7) H7) as V7.
  unfold valueOf.
  cbn [o_correspondingOutputHash o_outpointTransactionHash o_script o_stack
       o_transactionOutpointsHash o_transactionOutputsHash
       o_transactionSequenceNumbersHash o_error o_ip o_lastCodeSeparator
       o_blockHeight o_blockTime o_locktime o_outpointIndex o_outpointValue
       o_sequenceNumber o_version].
  rewrite (typed_weaken s1 s7 r1 b1
             (extends_trans _ _ _ E2 (extends_trans _ _ _ E3 (extends_trans _ _ _ E4
                (extends_trans _ _ _ E5 (extends_trans _ _ _ E6 E7))))) V1).
  rewrite (typed_weaken s2 s7 r2 b2
             (extends_trans _ _ _ E3 (extends_trans _ _ _ E4
                (extends_trans _ _ _ E5 (extends_trans _ _ _ E6 E7)))) V2).
  rewrite (typed_weaken s3 s7 r3 b3
             (extends_trans _ _ _ E4
                (extends_trans _ _ _ E5 (extends_trans _ _ _ E6 E7))) V3).
  rewrite (arrays_weaken s4 s7 r4 elements
             (extends_trans _ _ _ E5 (extends_trans _ _ _ E6 E7)) V4).
  rewrite (typed_weaken s5 s7 r5 b5 (extends_trans _ _ _ E6 E7) V5).
  rewrite (typed_weaken s6 s7 r6 b6 E7 V6).
  rewrite V7.
  cbn [mbind option_bind].
  rewrite (mapM_lookup_weaken _ _ _ _ (proj1 E07) L4').
  reflexivity.
Qed.

Local Abbreviation sampleValue :=
  (default (BitcoinCash.passState [] Samples.fullState [])
     (valueOf Samples.sampleStore Samples.sampleObject)).

Local Abbreviation sampleClone :=
  (default (Samples.sampleObject, Samples.sampleStore)
     (clone Samples.sampleObject Samples.sampleStore)).

Local Abbreviation sampleCloneWritten :=
  (default (tt, Samples.sampleStore)
     (writeByte (o_script (fst sampleClone)) 0 9 (snd sampleClone))).

Lemma clone_copies_value_witness :
  valueOf (snd sampleClone) (fst sampleClone) = Some sampleValue
  /\ valueOf (snd sampleClone) Samples.sampleObject = Some sampleValue.
Proof.
  apply (clone_copies_value Samples.sampleStore Samples.sampleObject sampleValue
           (fst sampleClone) (snd sampleClone)).
  - vm_compute. reflexivity.
  - vm_compute. reflexivity.
Defined.

(** X28: The part of clone isolation that holds: the script and the five
    hashes of a clone are new objects, none of them an object of the
    store the clone was made in, so a write to any byte of them leaves
    the original state byte-identical. *)
Theorem clone_write_leaves_original (st : Store) (state : StateObject)
    (value : ProgramState) (state' : StateObject) (st1 : Store)
    (r : ref) (i v : Z) (st2 : Store) :
  valueOf st state = Some value ->
  clone state st = Some (state', st1) ->
  r ∈ scriptAndHashes state' ->
  writeByte r i v st1 = Some (tt, st2) ->
  typedArrays st !! r = None /\ valueOf st2 state = Some value.
Proof.
  intros Hvalue Hclone Hr Hwrite. split.
  - destruct (clone_fresh _ _ _ _ Hclone) as [_ Hfresh].
    rewrite Forall_forall in Hfresh. exact (Hfresh r Hr).
  - exact (clone_isolates_script_and_hashes st state value state' st1 r i v st2
             Hvalue Hclone Hr Hwrite).
Qed.

Lemma clone_write_leaves_original_witness :
  typedArrays Samples.sampleStore !! o_script (fst sampleClone) = None
  /\ valueOf (snd sampleCloneWritten) Samples.sampleObject = Some sampleValue.
Proof.
  apply (clone_write_leaves_original Samples.sampleStore Samples.sampleObject
           sampleValue (fst sampleClone) (snd sampleClone)
           (o_script (fst sampleClone)) 0 9 (snd sampleCloneWritten)).
  - vm_compute. reflexivity.
  - vm_compute. reflexivity.
  - vm_compute. constructor.
  - vm_compute. reflexivity.
Defined.

End CloneProperties.

(* ===================================================================== *)
(** * Further properties: evaluation under the Bitcoin Cash instruction set *)
(* ===================================================================== *)

Module EvaluationProperties.
Import Push Operators VirtualMachine BitcoinCash.

Section Evaluation.

Variable sha256_hash : Uint8Array -> Uint8Array.
Variable ripemd160_hash : Uint8Array -> Uint8Array.
Variable verifySignatureDERLowS : Uint8Array -> Uint8Array -> Uint8Array -> bool.
Variable isValidPublicKeyEncoding : Uint8Array -> bool.
Variable isValidSignatureEncoding : Uint8Array -> bool.
Variable decodeBitcoinSignature : Uint8Array -> DecodedSignature.
Variable generateBitcoinCashSigningSerialization :
  Z -> Uint8Array -> Uint8Array -> Uint8Array -> Z -> Uint8Array -> Z -> Z ->
  Uint8Array -> Uint8Array -> Z -> Uint8Array -> Uint8Array.

Local Abbreviation instructionSet :=
  (bitcoinCashInstructionSet sha256_hash ripemd160_hash verifySignatureDERLowS
     isValidPublicKeyEncoding isValidSignatureEncoding decodeBitcoinSignature
     generateBitcoinCashSigningSerialization).

Lemma evaluateLoop_returns fuel state :
  bytes_ok (script state) ->
  (length (script state) - ip state <= fuel)%nat ->
  exists final,
    evaluateLoop instructionSet fuel state = Returned final
    /\ script final = script state
    /\ (is_Some (error final) \/ len (script state) <= Z.of_nat (ip final)).
Proof.
  revert state. induction fuel as [|fuel IH]; intros state Hok Hfuel.
  - cbn [evaluateLoop continue bitcoinCashInstructionSet].
    destruct (error state) as [e|] eqn:He.
    { exists state. rewrite He. split; [reflexivity|]. split; [reflexivity|left; eauto]. }
    destruct (Z.ltb_spec (Z.of_nat (ip state)) (len (script state))) as [Hlt|Hge];
      [unfold len in Hlt; lia|].
    exists state. split; [reflexivity|]. split; [reflexivity|right; exact Hge].
  - cbn [evaluateLoop continue bitcoinCashInstructionSet].
    destruct (error state) as [e|] eqn:He.
    { exists state. rewrite He. split; [reflexivity|]. split; [reflexivity|left; eauto]. }
    destruct (Z.ltb_spec (Z.of_nat (ip state)) (len (script state))) as [Hlt|Hge].
    2:{ exists state. split; [reflexivity|]. split; [reflexivity|right; exact Hge]. }
    unfold stepMutate.
    set (state1 := before instructionSet state).
    assert (Hscript1 : script state1 = script state) by reflexivity.
    assert (Hip1 : ip state1 = S (ip state)) by reflexivity.
    destruct (getOperator_wellBehaved sha256_hash ripemd160_hash verifySignatureDERLowS
                isValidPublicKeyEncoding isValidSignatureEncoding decodeBitcoinSignature
                generateBitcoinCashSigningSerialization
                state1 state1 ltac:(rewrite Hscript1; exact Hok))
      as (_ & _ & state' & Hop & Hscript & Hip).
    rewrite Hop.
    destruct (IH state') as (final & Hfinal & Hsame & Hend).
    + rewrite Hscript, Hscript1. exact Hok.
    + rewrite Hscript, Hscript1. unfold len in Hlt. lia.
    + exists final. split; [exact Hfinal|].
      rewrite Hscript, Hscript1 in Hsame, Hend. split; [exact Hsame|exact Hend].
Qed.

(** X29: An evaluation under [bitcoinCashInstructionSet] always comes to an
    end: on a script of bytes it runs at most one instruction per byte,
    no operator throws, the script is the same at the end, and the final
    state has an error or its [ip] has reached the end of the script. *)
Theorem evaluate_terminates (state : ProgramState) :
  bytes_ok (script state) ->
  exists final,
    evaluate instructionSet (length (script state)) state = Returned final
    /\ script final = script state
    /\ (is_Some (error final) \/ len (script state) <= Z.of_nat (ip final)).
Proof.
  intros Hok. unfold evaluate. cbn [clone bitcoinCashInstructionSet].
  rewrite cloneState_value.
  apply evaluateLoop_returns; [exact Hok|lia].
Qed.

End Evaluation.

Lemma evaluate_terminates_witness :
  exists final,
    evaluate
      (bitcoinCashInstructionSet Samples.sha256_standIn Samples.ripemd160_standIn
         Samples.verify_standIn Samples.publicKey_standIn Samples.signature_standIn
         Samples.decode_standIn Samples.serialization_standIn)
      (length (script (passState [] Samples.fullState [81; 118; 136; 80])))
      (passState [] Samples.fullState [81; 118; 136; 80])
    = Returned final
    /\ script final = script (passState [] Samples.fullState [81; 118; 136; 80])
    /\ (is_Some (error final)
        \/ len (script (passState [] Samples.fullState [81; 118; 136; 80]))
           <= Z.of_nat (ip final)).
Proof.
  apply (evaluate_terminates Samples.sha256_standIn Samples.ripemd160_standIn
           Samples.verify_standIn Samples.publicKey_standIn Samples.signature_standIn
           Samples.decode_standIn Samples.serialization_standIn
           (passState [] Samples.fullState [81; 118; 136; 80])).
  repeat constructor; unfold is_byte; cbn; lia.
Defined.

End EvaluationProperties.

(* ===================================================================== *)
(** * Further properties: the trace of the composer *)
(* ===================================================================== *)

Module ComposerTraceProperties.
Import VirtualMachine BitcoinCash.

(** X30: Whenever [debugBitcoinCashAuthenticationProgram] returns, its trace
    starts with the whole trace of the unlocking pass; it is that trace
    alone when the pass ended with an error, and otherwise the trace of
    the locking pass, run on the stack the unlocking pass left, follows
    it. *)
Theorem composer_trace_shape
    (vm_debug : ProgramState -> string -> option (list (DebuggingStep ProgramState)))
    (program : AuthenticationProgram) (result : list (DebuggingStep ProgramState)) :
  debugBitcoinCashAuthenticationProgram vm_debug program = Some result ->
  exists unlockingResult unlockingFinal more,
    vm_debug (passState [] (programState program) (unlockingScript program))
             "Begin unlocking script evaluation." = Some unlockingResult
    /\ finalState unlockingResult = Some unlockingFinal
    /\ result = unlockingResult ++ more
    /\ (is_Some (error unlockingFinal) -> more = [])
    /\ (error unlockingFinal = None ->
        exists lockingResult rest,
          vm_debug (passState (stack unlockingFinal) (programState program)
                              (lockingScript program))
                   "Begin locking script evaluation." = Some lockingResult
          /\ more = lockingResult ++ rest).
Proof.
  unfold debugBitcoinCashAuthenticationProgram. intros Hcompose.
  destruct (vm_debug (passState [] (programState program) (unlockingScript program))
                     "Begin unlocking script evaluation.") as [unlockingResult|];
    cbn [mbind option_bind] in Hcompose; [|discriminate].
  destruct (finalState unlockingResult) as [unlockingFinal|] eqn:Hfinal;
    cbn [mbind option_bind] in Hcompose; [|discriminate].
  exists unlockingResult, unlockingFinal.
  destruct (error unlockingFinal) as [e|] eqn:He.
  { injection Hcompose as <-. exists [].
    split; [reflexivity|]. split; [exact Hfinal|].
    split; [rewrite app_nil_r; reflexivity|].
    split; [reflexivity|discriminate]. }
  destruct (vm_debug (passState (stack unlockingFinal) (programState program)
                                (lockingScript program))
                     "Begin locking script evaluation.") as [lockingResult|];
    cbn [mbind option_bind] in Hcompose; [|discriminate].
  destruct (finalState lockingResult) as [lockingFinal|];
    cbn [mbind option_bind] in Hcompose; [|discriminate].
  assert (Hshape : exists rest, result = unlockingResult ++ lockingResult ++ rest).
  { destruct (isPayToScriptHash (lockingScript program)).
    - destruct (negb (isPushOnly (unlockingScript program))).
      + injection Hcompose as <-. eexists. reflexivity.
      + destruct (len (stack unlockingFinal) =? 0).
        * injection Hcompose as <-. eexists. reflexivity.
        * destruct (pop (Common.cloneStack (stack unlockingFinal)))
            as [[p2shScript|] p2shStack];
            cbn [mbind option_bind] in Hcompose; [|discriminate].
          destruct (vm_debug (passState p2shStack (programState program) p2shScript)
                             "Begin P2SH script evaluation.") as [p2shResult|];
            cbn [mbind option_bind] in Hcompose; [|discriminate].
          injection Hcompose as <-. eexists. reflexivity.
    - injection Hcompose as <-. exists []. rewrite app_nil_r. reflexivity. }
  destruct Hshape as [rest ->].
  exists (lockingResult ++ rest).
  split; [reflexivity|]. split; [exact Hfinal|]. split; [reflexivity|].
  split.
  - intros [e He']. discriminate.
  - intros _. exists lockingResult, rest. split; reflexivity.
Qed.

Lemma composer_trace_shape_witness :
  exists unlockingResult unlockingFinal more,
    Samples.debug_standIn
      (passState [] (programState Samples.p2shProgram)
                 (unlockingScript Samples.p2shProgram))
      "Begin unlocking script evaluation." = Some unlockingResult
    /\ finalState unlockingResult = Some unlockingFinal
    /\ Samples.unlockingTrace ++ Samples.lockingTrace ++ Samples.p2shTrace
       = unlockingResult ++ more
    /\ (is_Some (error unlockingFinal) -> more = [])
    /\ (error unlockingFinal = None ->
        exists lockingResult rest,
          Samples.debug_standIn
            (passState (stack unlockingFinal) (programState Samples.p2shProgram)
                       (lockingScript Samples.p2shProgram))
            "Begin locking script evaluation." = Some lockingResult
          /\ more = lockingResult ++ rest).
Proof.
  apply (composer_trace_shape Samples.debug_standIn Samples.p2shProgram
           (Samples.unlockingTrace ++ Samples.lockingTrace ++ Samples.p2shTrace)).
  vm_compute. reflexivity.
Defined.

End ComposerTraceProperties.

(* ===================================================================== *)
(** * Further properties: pushes with a length field, on any view *)
(* ===================================================================== *)

Module ViewProperties.
Import Push PushView.

Lemma readLittleEndianLength_in_buffer state ip lengthBits type :
  (ip + lengthBits <= length (scriptBuffer state))%nat ->
  (uintWidth type <= lengthBits)%nat ->
  readLittleEndianLength state ip lengthBits type
  = Some (littleEndian
            (take (uintWidth type) (take lengthBits (drop ip (scriptBuffer state))))).
Proof.
  intros Hin Hwidth. unfold readLittleEndianLength.
  destruct (Nat.ltb_spec (length (scriptBuffer state)) (ip + lengthBits)); [lia|].
  destruct (Nat.ltb_spec lengthBits (uintWidth type)); [lia|].
  reflexivity.
Qed.

(** On a script that starts at offset 0 of its buffer, the bytes of the
    buffer at [ip] are the bytes of the script at [ip]. *)
Lemma field_of_prefix_view (script buffer : Uint8Array) (ip lengthBits : nat) :
  script = take (length script) buffer ->
  (ip + lengthBits <= length script)%nat ->
  take lengthBits (drop ip buffer) = take lengthBits (drop ip script).
Proof.
  intros Hview Hin.
  remember (length script) as n eqn:Hn. rewrite Hview.
  rewrite !take_drop_commute, take_take.
  replace ((ip + lengthBits) `min` n)%nat with (ip + lengthBits)%nat by lia.
  reflexivity.
Qed.

(** The model of the module [Push] is this one on the scripts that span
    a buffer of their own. *)
Lemma createPushDataOperator_spanning lengthBits type minimum maximum state :
  operation (createPushDataOperator lengthBits type minimum maximum) (spanning state)
  = spanning_result state
      (operation (Push.createPushDataOperator lengthBits type minimum maximum) state).
Proof.
  unfold spanning_result, createPushDataOperator, Push.createPushDataOperator, operation,
    pushDataVariableMethod, Push.pushDataVariableMethod,
    readLittleEndianLength, Push.readLittleEndianLength.
  cbn [spanning inner scriptBuffer scriptByteOffset]. cbv zeta.
  repeat match goal with |- context [if ?c then _ else _] => destruct c end;
    reflexivity.
Qed.

(** X18: A push with a length field (OP_PUSHDATA1, 2 or 4) that succeeds
    has pushed exactly the number of bytes that the little-endian field
    at offset [ip] of the buffer of the script announces, bytes taken
    from the script behind its own length field, a number between the
    minimum and the maximum of the operator, and has moved [ip] past
    them.  The field read is the length field of the script when the
    script starts at offset 0 of its buffer. *)
Theorem createPushDataOperator_pushes (lengthBits : nat) (type : Uint)
    (minimum maximum : Z) (state state' : ViewedState) :
  (uintWidth type <= lengthBits)%nat ->
  bytes_ok (scriptBuffer state) ->
  isView state ->
  operation (createPushDataOperator lengthBits type minimum maximum) state = Some state' ->
  error (inner state) = None -> error (inner state') = None ->
  exists data,
    stack (inner state') = stack (inner state) ++ [data]
    /\ data = take (length data)
                   (drop (ip (inner state) + lengthBits) (script (inner state)))
    /\ len data
       = littleEndian (take (uintWidth type)
                         (take lengthBits (drop (ip (inner state)) (scriptBuffer state))))
    /\ minimum <= len data <= maximum
    /\ ip (inner state') = (ip (inner state) + lengthBits + length data)%nat
    /\ script (inner state') = script (inner state)
    /\ scriptBuffer state' = scriptBuffer state
    /\ scriptByteOffset state' = scriptByteOffset state
    /\ (scriptByteOffset state = 0%nat ->
        len data
        = littleEndian (take (uintWidth type)
                          (take lengthBits (drop (ip (inner state)) (script (inner state)))))).
Proof.
  intros Hwidth Hok [Hfits Hview] Hrun Hclean Hclean'.
  revert Hrun. unfold createPushDataOperator, operation, pushDataVariableMethod.
  cbv zeta.
  destruct (Z.ltb_spec (len (script (inner state)))
              (Z.of_nat (ip (inner state)) + Z.of_nat lengthBits)) as [|Hguard].
  { intros [= <-]. cbn in Hclean'. discriminate. }
  unfold len in Hguard.
  rewrite readLittleEndianLength_in_buffer by lia.
  set (field := littleEndian
         (take (uintWidth type)
            (take lengthBits (drop (ip (inner state)) (scriptBuffer state))))).
  assert (Hfield : 0 <= field)
    by (apply littleEndian_nonneg; auto using bytes_ok_take, bytes_ok_drop).
  destruct (Z.ltb_spec (len (script (inner state)))
              (Z.of_nat (ip (inner state)) + Z.of_nat lengthBits + field)) as [|Htotal].
  { intros [= <-]. cbn in Hclean'. discriminate. }
  destruct (Z.ltb_spec field minimum).
  { intros [= <-]. cbn in Hclean'. discriminate. }
  destruct (Z.ltb_spec maximum field).
  { intros [= <-]. cbn in Hclean'. discriminate. }
  intros [= <-].
  replace (Z.of_nat (ip (inner state)) + Z.of_nat lengthBits)
    with (Z.of_nat (ip (inner state) + lengthBits)) in * by lia.
  pose proof (CodecProperties.slice_in_range (script (inner state))
                (Z.of_nat (ip (inner state) + lengthBits)) (Z.to_nat field)
                ltac:(lia) ltac:(lia)) as Hslice.
  rewrite Z2Nat.id, Nat2Z.id in Hslice by lia.
  cbn [onInner inner scriptBuffer scriptByteOffset stack ip script set_ip stack_push
       set_stack push].
  rewrite Hslice.
  set (data := take (Z.to_nat field)
                 (drop (ip (inner state) + lengthBits) (script (inner state)))).
  assert (Hlen : length data = Z.to_nat field).
  { subst data. rewrite length_take, length_drop. unfold len in *. lia. }
  exists data.
  split; [reflexivity|]. split; [rewrite Hlen; reflexivity|].
  split; [unfold len; lia|]. split; [unfold len; lia|].
  split; [lia|]. split; [reflexivity|]. split; [reflexivity|]. split; [reflexivity|].
  intros Hzero. rewrite Hzero in Hview. cbn [drop] in Hview.
  rewrite <- (field_of_prefix_view (script (inner state)) (scriptBuffer state)
                (ip (inner state)) lengthBits Hview ltac:(lia)).
  fold field. unfold len. lia.
Qed.

Lemma createPushDataOperator_pushes_witness :
  exists data,
    stack (inner ViewSamples.prefixViewPushed)
    = stack (inner ViewSamples.prefixViewState) ++ [data]
    /\ data = take (length data)
                   (drop (ip (inner ViewSamples.prefixViewState) + 2)
                         (script (inner ViewSamples.prefixViewState)))
    /\ len data
       = littleEndian (take (uintWidth Uint16)
                         (take 2 (drop (ip (inner ViewSamples.prefixViewState))
                                       (scriptBuffer ViewSamples.prefixViewState))))
    /\ 256 <= len data <= 520
    /\ ip (inner ViewSamples.prefixViewPushed)
       = (ip (inner ViewSamples.prefixViewState) + 2 + length data)%nat
    /\ script (inner ViewSamples.prefixViewPushed)
       = script (inner ViewSamples.prefixViewState)
    /\ scriptBuffer ViewSamples.prefixViewPushed
       = scriptBuffer ViewSamples.prefixViewState
    /\ scriptByteOffset ViewSamples.prefixViewPushed
       = scriptByteOffset ViewSamples.prefixViewState
    /\ (scriptByteOffset ViewSamples.prefixViewState = 0%nat ->
        len data
        = littleEndian (take (uintWidth Uint16)
                          (take 2 (drop (ip (inner ViewSamples.prefixViewState))
                                        (script (inner ViewSamples.prefixViewState)))))).
Proof.
  apply (createPushDataOperator_pushes 2 Uint16 256 520
           ViewSamples.prefixViewState ViewSamples.prefixViewPushed).
  - cbn. lia.
  - vm_compute. repeat constructor; discriminate.
  - split; [vm_compute; lia|vm_compute; reflexivity].
  - vm_compute. reflexivity.
  - reflexivity.
  - reflexivity.
Defined.

(** On a script made by [subarray(1)] the field read is not the length
    field of the script: OP_PUSHDATA1 reads the byte of the buffer at
    [ip], which is the opcode 76 of the script, and pushes 76 bytes
    where the script announces 77. *)
Lemma createPushDataOperator_on_subarray :
  index (script (inner ViewSamples.subarrayViewState)) 1 = Some 77
  /\ isView ViewSamples.subarrayViewState
  /\ operation (createPushDataOperator 1 Uint8 maximumPushDataConstant maximumPushSize)
       ViewSamples.subarrayViewState
     = Some (onInner (fun inner => set_ip 78 (set_stack [replicate 76 170] inner))
               ViewSamples.subarrayViewState).
Proof.
  split; [reflexivity|]. split.
  - split; [vm_compute; lia|vm_compute; reflexivity].
  - vm_compute. reflexivity.
Qed.

End ViewProperties.

